(** * Icon generation scripts of code-furnace: a shallow embedding

    The repository holds two batch scripts,
    [scripts/generate-icons.py] (vector-source pipeline) and
    [scripts/simple-icon-gen.py] (procedural pipeline).  Both are linear
    sequences of calls into an imaging library (Pillow), an SVG rasteriser
    (cairosvg), the file system and one external tool (iconutil).

    The embedding keeps the scripts as monadic programs over an explicit
    [world]: a heap of mutable images (Python image objects are shared,
    mutable references), a file system, the standard output and a log of the
    drawing calls handed to the library.  What the library does to the
    pixels of a shape (rasterisation, blur and resampling kernels) is an
    externally supplied capability and is a section variable. *)

From stdpp Require Import base numbers list gmap strings pretty.
From Stdlib Require Import ZArith Lia Ascii.

Local Open Scope string_scope.
Local Open Scope Z_scope.

(* [++] stays list concatenation; strings are joined with [+:+]. *)
Disable Notation "_ ++ _" : string_scope.

(** ** Raster buffers *)

Module PIL.

Inductive mode := L | RGBA.

(** One pixel: a single band for mode [L], four bands for [RGBA]. *)
Inductive pixel :=
| PixL (v : Z)
| PixRGBA (r g b a : Z).

Record image := Image {
  im_mode : mode;
  im_width : Z;
  im_height : Z;
  im_data : list pixel  (* row-major, [im_width * im_height] entries *)
}.

#[global] Instance mode_eq_dec : EqDecision mode.
Proof. solve_decision. Defined.
#[global] Instance pixel_eq_dec : EqDecision pixel.
Proof. solve_decision. Defined.
#[global] Instance image_eq_dec : EqDecision image.
Proof. solve_decision. Defined.

Definition im_size (im : image) : Z * Z := (im_width im, im_height im).

(** The zero pixel of a mode, what [Image.new] uses when no colour is
    given and what an unpainted RGBA canvas holds. *)
Definition blank (m : mode) : pixel :=
  match m with L => PixL 0 | RGBA => PixRGBA 0 0 0 0 end.

(** [tabulate w h f] lays out [f x y] for [0 <= x < w], [0 <= y < h] in
    row-major order. *)
Definition tabulate (w h : Z) (f : Z -> Z -> pixel) : list pixel :=
  (fun i : nat => f (Z.of_nat i mod w) (Z.of_nat i / w))
    <$> seq 0 (Z.to_nat w * Z.to_nat h)%nat.

Definition inside (im : image) (x y : Z) : bool :=
  (0 <=? x) && (x <? im_width im) && (0 <=? y) && (y <? im_height im).

Definition getpixel (im : image) (x y : Z) : pixel :=
  if inside im x y
  then default (blank (im_mode im))
               (im_data im !! Z.to_nat (y * im_width im + x))
  else blank (im_mode im).

(** Every in-place operation of the library rewrites the pixel grid and
    leaves mode and size alone. *)
Definition remap (im : image) (f : Z -> Z -> pixel -> pixel) : image :=
  Image (im_mode im) (im_width im) (im_height im)
        (tabulate (im_width im) (im_height im)
                  (fun x y => f x y (getpixel im x y))).

Definition filled (m : mode) (w h : Z) (c : pixel) : image :=
  Image m w h (tabulate w h (fun _ _ => c)).

(** *** Band arithmetic (Pillow's [Paste.c], [Convert.c]) *)

(** [DIV255]: [tmp = a + 128; ((tmp >> 8) + tmp) >> 8]. *)
Definition div255 (a : Z) : Z :=
  let tmp := a + 128 in Z.shiftr (Z.shiftr tmp 8 + tmp) 8.

(** [BLEND(mask, in1, in2)]. *)
Definition blend_band (m in1 in2 : Z) : Z :=
  div255 (in1 * (255 - m) + in2 * m).

(** The band a pixel contributes when its image is used as a mask: the
    value for [L], the alpha band for [RGBA]. *)
Definition mask_value (p : pixel) : Z :=
  match p with PixL v => v | PixRGBA _ _ _ a => a end.

(** [Image.convert]. [L -> RGBA] replicates the value and is opaque;
    [RGBA -> L] is the ITU-R 601-2 luma in 16-bit fixed point. *)
Definition convert (m : mode) (p : pixel) : pixel :=
  match m, p with
  | L, PixL v => PixL v
  | RGBA, PixRGBA r g b a => PixRGBA r g b a
  | RGBA, PixL v => PixRGBA v v v 255
  | L, PixRGBA r g b _ =>
      PixL (Z.shiftr (r * 19595 + g * 38470 + b * 7471 + 32768) 16)
  end.

Definition blend (m : Z) (dst src : pixel) : pixel :=
  match dst, src with
  | PixRGBA r g b a, PixRGBA r' g' b' a' =>
      PixRGBA (blend_band m r r') (blend_band m g g')
              (blend_band m b b') (blend_band m a a')
  | PixL v, PixL v' => PixL (blend_band m v v')
  | _, _ => dst
  end.

Definition set_alpha (p : pixel) (a : Z) : pixel :=
  match p with
  | PixRGBA r g b _ => PixRGBA r g b a
  | PixL v => PixL v
  end.

(** *** [Image.paste(im, (ox, oy), mask)]

    The box is [(ox, oy, ox + im.width, oy + im.height)]; the library
    clips it to the destination, so a source that sticks out is cropped
    and destination pixels outside the box are untouched.  The source is
    converted to the destination's mode first.  With a mask the source is
    blended in by the mask's band, on every band of the destination. *)
Definition paste_pixels (dst src : image) (ox oy : Z) (mask : option image)
  : image :=
  remap dst (fun x y old =>
    if inside src (x - ox) (y - oy) then
      let s := convert (im_mode dst) (getpixel src (x - ox) (y - oy)) in
      match mask with
      | None => s
      | Some mk => blend (mask_value (getpixel mk (x - ox) (y - oy))) old s
      end
    else old).

(** [Image.putalpha(alpha)] on an RGBA image: the alpha band is replaced
    by the mask's values. *)
Definition putalpha_pixels (dst alpha : image) : image :=
  remap dst (fun x y old => set_alpha old (mask_value (getpixel alpha x y))).

(** *** Shapes handed to [ImageDraw] *)

Inductive shape :=
| Ellipse (x0 y0 x1 y1 : Z)
| Rectangle (x0 y0 x1 y1 : Z)
| RoundedRectangle (x0 y0 x1 y1 radius : Z)
| Polygon (pts : list (Z * Z))
| Line (x0 y0 x1 y1 : Z).

(** One drawing call: the shape, the [fill] and [outline] colours (the
    colour of a line is its outline) and the stroke [width]. *)
Record call := Call {
  c_shape : shape;
  c_fill : option pixel;
  c_outline : option pixel;
  c_width : Z
}.

#[global] Instance shape_eq_dec : EqDecision shape.
Proof. solve_decision. Defined.
#[global] Instance call_eq_dec : EqDecision call.
Proof. solve_decision. Defined.

(** The library rejects a bounding box whose corners are out of order
    ("x1 must be greater than or equal to x0", then the same for y) and
    a polygon of fewer than two points.  A rounded rectangle of negative
    radius is rejected too: its corners are pie slices on the boxes
    [(x0, y0, x0 + 2 * radius, y0 + 2 * radius)], ..., and the first of
    them is out of order in x. *)
Definition shape_ok (s : shape) : bool :=
  match s with
  | Ellipse x0 y0 x1 y1
  | Rectangle x0 y0 x1 y1 => (x0 <=? x1) && (y0 <=? y1)
  | RoundedRectangle x0 y0 x1 y1 radius =>
      (x0 <=? x1) && (y0 <=? y1) && (0 <=? radius)
  | Polygon pts => (2 <=? length pts)%nat
  | Line _ _ _ _ => true
  end.

(** The text of the [ValueError] for a rejected shape. *)
Definition shape_complaint (s : shape) : string :=
  match s with
  | Ellipse x0 y0 x1 y1
  | Rectangle x0 y0 x1 y1
  | RoundedRectangle x0 y0 x1 y1 _ =>
      if (x0 <=? x1) && negb (y0 <=? y1)
      then "y1 must be greater than or equal to y0"
      else "x1 must be greater than or equal to x0"
  | Polygon _ => "coordinate list must contain at least 2 coordinates"
  | Line _ _ _ _ => ""
  end.

Inductive part := Interior | Stroke (width : Z).

(** The capabilities the imaging library supplies: which pixels a shape
    covers, the blur and resampling kernels, and the aspect-preserving
    thumbnail used by the ICO encoder. *)
Record backend := Backend {
  covers : shape -> part -> Z -> Z -> bool;
  gaussian_blur : Z -> image -> Z -> Z -> pixel;
  lanczos : image -> Z * Z -> Z -> Z -> pixel;
  thumbnail : image -> Z * Z -> image
}.

(** Drawing replaces pixels (an [ImageDraw] on an image of its own mode
    does not blend): the interior takes [fill]; then the stroke takes
    [outline], unless the outline is absent, equals the fill, or the
    width is 0. *)
Definition paint (B : backend) (c : call) (im : image) : image :=
  remap im (fun x y old =>
    let p := match c_fill c with
             | Some f => if covers B (c_shape c) Interior x y then f else old
             | None => old
             end in
    match c_outline c with
    | Some ink =>
        if bool_decide (Some ink <> c_fill c)
           && negb (c_width c =? 0)
           && covers B (c_shape c) (Stroke (c_width c)) x y
        then ink else p
    | None => p
    end).

(** [Image.filter(ImageFilter.GaussianBlur(radius))]: a new image of the
    same mode and size. *)
Definition blurred (B : backend) (radius : Z) (im : image) : image :=
  Image (im_mode im) (im_width im) (im_height im)
        (tabulate (im_width im) (im_height im) (gaussian_blur B radius im)).

(** [Image.resize((w, h), LANCZOS)]: a new image of the requested size. *)
Definition resized (B : backend) (im : image) (w h : Z) : image :=
  Image (im_mode im) w h (tabulate w h (lanczos B im (w, h))).

(** *** The ICO encoder ([IcoImagePlugin._save])

    The requested sizes are deduplicated and sorted; a size larger than
    the image being saved, or larger than 256, is skipped ("any sizes
    bigger than the original size or 256 will be ignored"); for each
    remaining size the frame is the image itself when the sizes agree and
    a thumbnail of it otherwise.  No [append_images] are passed by the
    scripts, so the image being saved is the only source of frames. *)
Definition size_le (a b : Z * Z) : bool :=
  (a.1 <? b.1) || ((a.1 =? b.1) && (a.2 <=? b.2)).

Fixpoint insert_size (s : Z * Z) (l : list (Z * Z)) : list (Z * Z) :=
  match l with
  | [] => [s]
  | t :: l' =>
      if bool_decide (s = t) then l
      else if size_le s t then s :: l
      else t :: insert_size s l'
  end.

Definition sorted_set (l : list (Z * Z)) : list (Z * Z) :=
  foldr insert_size [] l.

Definition ico_keeps (im : image) (s : Z * Z) : bool :=
  negb ((im_width im <? s.1) || (im_height im <? s.2)
        || (256 <? s.1) || (256 <? s.2)).

Definition ico_frames (B : backend) (im : image) (sizes : list (Z * Z))
  : list image :=
  (fun s => if bool_decide (im_size im = s) then im else thumbnail B im s)
    <$> filter (fun s => ico_keeps im s = true) (sorted_set sizes).

End PIL.

(** ** The Python runtime: exceptions, exit, the world *)

Module Py.
Import PIL.

Inductive exn_class :=
| ValueError | IndexError | ImportError
| FileNotFoundError | FileExistsError | NotADirectoryError
| IsADirectoryError | OSError | URLError | UnidentifiedImageError
| ParseError | ZeroDivisionError | OverflowError | ReferenceError.

(** Every class above derives from [Exception], so [except Exception]
    catches it; [sys.exit] raises [SystemExit], which does not. *)
Record exn := Exn { exn_cls : exn_class; exn_msg : string }.

Inductive outcome (A : Type) :=
| Ok (a : A)
| Raise (e : exn)
| SysExit (code : Z).
Arguments Ok {A} a.
Arguments Raise {A} e.
Arguments SysExit {A} code.

(** What a file holds.  An SVG document is identified by a number that
    the rasteriser interprets. *)
Inductive content :=
| Svg (doc : nat)
| Png (img : image)
| Ico (frames : list image)
| Icns (members : list (list string * image))
| Blob.

Inductive node := Dir | File (c : content).

#[global] Instance content_eq_dec : EqDecision content.
Proof. solve_decision. Defined.
#[global] Instance node_eq_dec : EqDecision node.
Proof. solve_decision. Defined.

Record world := World {
  heap : gmap nat image;          (* image objects, by reference *)
  fs : gmap (list string) node;   (* the file system, by path *)
  stdout : list string;           (* printed lines, oldest first *)
  drawlog : list call             (* drawing calls issued, oldest first *)
}.

Definition set_heap (f : gmap nat image -> gmap nat image) (w : world) :=
  World (f (heap w)) (fs w) (stdout w) (drawlog w).
Definition set_fs (f : gmap (list string) node -> gmap (list string) node)
  (w : world) :=
  World (heap w) (f (fs w)) (stdout w) (drawlog w).
Definition set_stdout (f : list string -> list string) (w : world) :=
  World (heap w) (fs w) (f (stdout w)) (drawlog w).
Definition set_drawlog (f : list call -> list call) (w : world) :=
  World (heap w) (fs w) (stdout w) (f (drawlog w)).

Definition M (A : Type) : Type := world -> outcome A * world.

Definition ret {A} (a : A) : M A := fun w => (Ok a, w).

Definition bind {A B} (m : M A) (k : A -> M B) : M B :=
  fun w =>
    match m w with
    | (Ok a, w') => k a w'
    | (Raise e, w') => (Raise e, w')
    | (SysExit c, w') => (SysExit c, w')
    end.

Definition raise {A} (e : exn) : M A := fun w => (Raise e, w).

Definition sys_exit {A} (code : Z) : M A := fun w => (SysExit code, w).

(** [try: body  except Exception as e: handler(e)]. *)
Definition try_except {A} (body : M A) (handler : exn -> M A) : M A :=
  fun w =>
    match body w with
    | (Raise e, w') => handler e w'
    | r => r
    end.

#[global] Instance exn_class_eq_dec : EqDecision exn_class.
Proof. solve_decision. Defined.

(** [try: body  except cls: handler]. *)
Definition try_except_class {A} (cls : exn_class) (body : M A)
  (handler : M A) : M A :=
  fun w =>
    match body w with
    | (Raise e, w') =>
        if bool_decide (exn_cls e = cls) then handler w' else (Raise e, w')
    | r => r
    end.

(** The exit status of the interpreter: 0 on normal completion, 1 on an
    uncaught exception, the argument of [sys.exit] otherwise. *)
Definition exit_status {A} (o : outcome A) : Z :=
  match o with
  | Ok _ => 0
  | Raise _ => 1
  | SysExit code => code
  end.

(** The newline character, for ["\n"] inside a printed text. *)
Definition nl : string := String (ascii_of_nat 10) EmptyString.

Definition print (line : string) : M unit :=
  fun w => (Ok tt, set_stdout (fun out => out ++ [line]) w).

Declare Scope py_scope.
Delimit Scope py_scope with py.
Notation "x <- c ;; k" := (bind c (fun x => k))
  (at level 100, c at next level, right associativity) : py_scope.
Notation "c ;;; k" := (bind c (fun _ => k))
  (at level 100, right associativity) : py_scope.

Local Open Scope py_scope.

(** [for x in l: body(x)]. *)
Fixpoint for_each {A} (l : list A) (body : A -> M unit) : M unit :=
  match l with
  | [] => ret tt
  | x :: l' => body x ;;; for_each l' body
  end.

(** [acc = init; for x in l: acc = body(acc, x)]. *)
Fixpoint for_fold {A S} (l : list A) (init : S) (body : S -> A -> M S)
  : M S :=
  match l with
  | [] => ret init
  | x :: l' => s <- body init x ;; for_fold l' s body
  end.

(** [[f(x) for x in l]]. *)
Fixpoint comprehension {A B} (l : list A) (f : A -> M B) : M (list B) :=
  match l with
  | [] => ret []
  | x :: l' => y <- f x ;; ys <- comprehension l' f ;; ret (y :: ys)
  end.

(** [l[i]]: [IndexError] out of range (the scripts use no negative
    index). *)
Definition index {A} (l : list A) (i : Z) : M A :=
  match (if 0 <=? i then l !! Z.to_nat i else None) with
  | Some x => ret x
  | None => raise (Exn IndexError "list index out of range")
  end.

(** [range(start, stop, step)] for a positive step. *)
Definition range (start stop step : Z) : list Z :=
  (fun k : nat => start + Z.of_nat k * step)
    <$> seq 0 (Z.to_nat ((stop - start + step - 1) / step)).

(** The quotient of two integers truncated toward zero: what a float
    expression [int(num / den)] computes as long as every intermediate
    value is exact in binary64. *)
Definition int_div (num den : Z) : Z := Z.quot num den.

(** *** [int(a / b)] on integers

    [a / b] on two Python integers is the binary64 nearest to the exact
    quotient (ties to even), whatever the size of [a] and [b]; it raises
    [ZeroDivisionError] for [b = 0] and [OverflowError] when that float
    would be infinite.  [int] then truncates toward zero. *)

(** Nearest integer to [n / d] for [0 <= n] and [0 < d], ties to even. *)
Definition round_half_even (n d : Z) : Z :=
  let q := n / d in
  let r := n mod d in
  if 2 * r <? d then q
  else if d <? 2 * r then q + 1
  else if Z.even q then q else q + 1.

(** The binary64 nearest to [n / d] for [0 < n] and [0 < d], as a
    significand [m] and an exponent [e] with value [m * 2^e]: [e] is
    chosen so that [n / d / 2^e] lies in [[2^52, 2^53)], and [m] is that
    number rounded. *)
Definition float_quotient (n d : Z) : Z * Z :=
  let k := Z.log2 n - Z.log2 d in
  let below := n * 2 ^ Z.max 0 (- k) <? d * 2 ^ Z.max 0 k in
  let e := (if below then k - 1 else k) - 52 in
  (round_half_even (n * 2 ^ Z.max 0 (- e)) (d * 2 ^ Z.max 0 e), e).

Definition float_trunc (me : Z * Z) : Z :=
  if 0 <=? me.2 then me.1 * 2 ^ me.2 else me.1 / 2 ^ (- me.2).

Definition float_overflows (me : Z * Z) : bool :=
  (0 <=? me.2) && (2 ^ 1024 <=? me.1 * 2 ^ me.2).

Definition int_truediv (a b : Z) : M Z :=
  if b =? 0 then raise (Exn ZeroDivisionError "division by zero")
  else if a =? 0 then ret 0
  else
    let me := float_quotient (Z.abs a) (Z.abs b) in
    if float_overflows me
    then raise (Exn OverflowError
                  "integer division result too large for a float")
    else ret (Z.sgn a * Z.sgn b * float_trunc me).

End Py.

(** ** The library and operating-system calls the scripts make *)

Module Lib.
Import PIL Py.
Local Open Scope py_scope.

(** What the host supplies besides the imaging library: the SVG
    rasteriser's pixels (document, target size, x, y), which paths cannot
    be written, whether and how [iconutil] runs ([None]: not installed;
    [Some (returncode, stderr)] otherwise), and whether the two Python
    packages can be imported. *)
Record host := Host {
  svg_pixel : nat -> Z -> Z -> Z -> pixel;
  write_error : list string -> bool;
  iconutil : option (Z * string);
  importable : bool
}.

(** *** Paths ([pathlib]) *)

Definition parent (p : list string) : list string :=
  take (length p - 1)%nat p.

Definition name (p : list string) : string := default "" (last p).

Definition path_str (p : list string) : string := String.concat "/" p.

Fixpoint rfind_dot (s : string) (i : nat) (acc : option nat) : option nat :=
  match s with
  | EmptyString => acc
  | String c s' =>
      rfind_dot s' (S i) (if Ascii.eqb c "."%char then Some i else acc)
  end.

(** [PurePath.stem]: the name without its last suffix; a leading or a
    trailing dot starts no suffix. *)
Definition stem (p : list string) : string :=
  let n := name p in
  match rfind_dot n 0 None with
  | Some i =>
      if (0 <? i)%nat && (i <? String.length n - 1)%nat
      then String.substring 0 i n else n
  | None => n
  end.

Definition is_dir (tree : gmap (list string) node) (p : list string)
  : bool :=
  match p with
  | [] => true
  | _ => bool_decide (tree !! p = Some Dir)
  end.

Definition Path_exists (p : list string) : M bool :=
  fun w => (Ok (is_dir (fs w) p || bool_decide (is_Some (fs w !! p))), w).

(** *** Operating-system errors

    [str(e)] of an [OSError] that carries a file name reads
    ["[Errno n] text: 'name'"]: the numbers and texts are those of a POSIX
    system, and the name is written as [repr] writes a string that holds
    no quote, backslash or control character. *)
Definition strerror (cls : exn_class) : string :=
  match cls with
  | FileNotFoundError => "[Errno 2] No such file or directory"
  | FileExistsError => "[Errno 17] File exists"
  | NotADirectoryError => "[Errno 20] Not a directory"
  | IsADirectoryError => "[Errno 21] Is a directory"
  | _ => "[Errno 28] No space left on device"
  end.

Definition os_error_text (cls : exn_class) (filename : string) : string :=
  strerror cls +:+ ": '" +:+ filename +:+ "'".

Definition os_error (cls : exn_class) (filename : string) : exn :=
  Exn cls (os_error_text cls filename).

(** Why the directory [done ++ todo] cannot be entered, walking its
    components from [done] on: the first one that is not a directory
    decides, [NotADirectoryError] where it is a file and
    [FileNotFoundError] where it is missing. *)
Fixpoint dir_error (tree : gmap (list string) node)
  (done todo : list string) : option exn_class :=
  match todo with
  | [] => None
  | c :: rest =>
      match tree !! (done ++ [c]) with
      | Some Dir => dir_error tree (done ++ [c]) rest
      | Some (File _) => Some NotADirectoryError
      | None => Some FileNotFoundError
      end
  end.

(** The class of the error for a path that is not there. *)
Definition missing (tree : gmap (list string) node) (p : list string)
  : exn_class :=
  default FileNotFoundError (dir_error tree [] (parent p)).

(** [Path.mkdir(exist_ok=True)] (no [parents=True]). *)
Definition Path_mkdir (p : list string) : M unit :=
  fun w =>
    if is_dir (fs w) p then (Ok tt, w)
    else match fs w !! p with
         | Some _ => (Raise (os_error FileExistsError (path_str p)), w)
         | None =>
             if is_dir (fs w) (parent p)
             then (Ok tt, set_fs (insert p Dir) w)
             else (Raise (os_error (missing (fs w) p) (path_str p)), w)
         end.

(** [shutil.rmtree]: the directory and everything below it. *)
Definition shutil_rmtree (p : list string) : M unit :=
  fun w =>
    match fs w !! p with
    | Some Dir =>
        (Ok tt, set_fs (filter (fun kv => ~ p `prefix_of` kv.1)) w)
    | Some (File _) => (Raise (os_error NotADirectoryError (path_str p)), w)
    | None => (Raise (os_error (missing (fs w) p) (path_str p)), w)
    end.

(** Writing one file: the parent must be a directory, the path must not
    be one, and the host must let the write through. *)
Definition write_file (H : host) (p : list string) (c : content) : M unit :=
  fun w =>
    if negb (is_dir (fs w) (parent p)) then
      (Raise (os_error (missing (fs w) p) (path_str p)), w)
    else if is_dir (fs w) p then
      (Raise (os_error IsADirectoryError (path_str p)), w)
    else if write_error H p then
      (Raise (os_error OSError (path_str p)), w)
    else (Ok tt, set_fs (insert p (File c)) w).

(** The PNG members of an iconset directory, as the packaging tool
    reads them. *)
Definition iconset_members (tree : gmap (list string) node)
  (dir : list string) : list (list string * image) :=
  omap (fun kv : list string * node =>
          match kv.2 with
          | File (Png im) =>
              if bool_decide (parent kv.1 = dir) then Some (kv.1, im)
              else None
          | _ => None
          end) (map_to_list tree).

(** [subprocess.run(['iconutil', '-c', 'icns', dir, '-o', out],
    capture_output=True, text=True)]: raises when the tool is missing;
    otherwise returns [(returncode, stderr)], and a successful tool has
    written the bundle. *)
Definition subprocess_run_iconutil (H : host)
  (iconset_dir icns_path : list string) : M (Z * string) :=
  fun w =>
    match iconutil H with
    | None => (Raise (os_error FileNotFoundError "iconutil"), w)
    | Some (rc, err) =>
        (Ok (rc, err),
         if rc =? 0
         then set_fs (insert icns_path
                        (File (Icns (iconset_members (fs w) iconset_dir)))) w
         else w)
    end.

(** *** Image objects on the heap *)

(** A script only ever holds references to live images; [ReferenceError]
    is what makes [deref] total and is raised by no run that starts from
    live references. *)
Definition deref (r : nat) : M image :=
  fun w =>
    match heap w !! r with
    | Some im => (Ok im, w)
    | None => (Raise (Exn ReferenceError "no such image object"), w)
    end.

Definition alloc (im : image) : M nat :=
  fun w =>
    let r := fresh (dom (heap w)) in (Ok r, set_heap (insert r im) w).

Definition store (r : nat) (im : image) : M unit :=
  fun w => (Ok tt, set_heap (insert r im) w).

Definition log_call (c : call) : M unit :=
  fun w => (Ok tt, set_drawlog (fun l => l ++ [c]) w).

(** [Image.new(mode, size, color)]. *)
Definition Image_new (m : mode) (size : Z * Z) (color : pixel) : M nat :=
  if (size.1 <? 0) || (size.2 <? 0)
  then raise (Exn ValueError "Width and height must be >= 0")
  else alloc (filled m size.1 size.2 color).

(** [image.size]. *)
Definition Image_size (r : nat) : M (Z * Z) :=
  im <- deref r ;; ret (im_size im).

(** [ImageDraw.Draw(image)]: the handle draws into the image itself. *)
Definition ImageDraw_Draw (r : nat) : M nat :=
  _ <- deref r ;; ret r.

(** One call on a drawing handle. *)
Definition Draw (B : backend) (d : nat) (c : call) : M unit :=
  im <- deref d ;;
  log_call c ;;;
  if shape_ok (c_shape c) then store d (paint B c im)
  else raise (Exn ValueError (shape_complaint (c_shape c))).

Definition Draw_ellipse B d (xy : Z * Z * Z * Z)
  (fill outline : option pixel) (width : Z) : M unit :=
  let '(x0, y0, x1, y1) := xy in
  Draw B d (Call (Ellipse x0 y0 x1 y1) fill outline width).

Definition Draw_rectangle B d (xy : Z * Z * Z * Z)
  (fill outline : option pixel) (width : Z) : M unit :=
  let '(x0, y0, x1, y1) := xy in
  Draw B d (Call (Rectangle x0 y0 x1 y1) fill outline width).

Definition Draw_rounded_rectangle B d (xy : (Z * Z) * (Z * Z)) (radius : Z)
  (fill : option pixel) : M unit :=
  let '((x0, y0), (x1, y1)) := xy in
  Draw B d (Call (RoundedRectangle x0 y0 x1 y1 radius) fill None 1).

Definition Draw_polygon B d (pts : list (Z * Z))
  (fill outline : option pixel) (width : Z) : M unit :=
  Draw B d (Call (Polygon pts) fill outline width).

Definition Draw_line B d (xy : Z * Z * Z * Z) (fill : pixel) (width : Z)
  : M unit :=
  let '(x0, y0, x1, y1) := xy in
  Draw B d (Call (Line x0 y0 x1 y1) None (Some fill) width).

(** [dst.paste(src, (ox, oy), mask)]; a mask of another size than the
    source is rejected ("images do not match"). *)
Definition Image_paste (dst src : nat) (box : Z * Z) (mask : option nat)
  : M unit :=
  d <- deref dst ;;
  s <- deref src ;;
  match mask with
  | None => store dst (paste_pixels d s box.1 box.2 None)
  | Some mr =>
      mk <- deref mr ;;
      if bool_decide (im_size mk = im_size s)
      then store dst (paste_pixels d s box.1 box.2 (Some mk))
      else raise (Exn ValueError "images do not match")
  end.

(** [dst.putalpha(alpha)] for an RGBA destination: the band must be an
    [L] image of the destination's size. *)
Definition Image_putalpha (dst alpha : nat) : M unit :=
  d <- deref dst ;;
  a <- deref alpha ;;
  if negb (bool_decide (im_mode a = L)) then
    raise (Exn ValueError "illegal image mode")
  else if negb (bool_decide (im_mode d = RGBA)) then
    raise (Exn ValueError "unsupported destination mode")
  else if negb (bool_decide (im_size a = im_size d)) then
    raise (Exn ValueError "images do not match")
  else store dst (putalpha_pixels d a).

(** [image.filter(ImageFilter.GaussianBlur(radius))]. *)
Definition Image_filter_GaussianBlur (B : backend) (src : nat) (radius : Z)
  : M nat :=
  im <- deref src ;; alloc (blurred B radius im).

(** [image.resize((w, h), Image.Resampling.LANCZOS)]: a plain copy when
    the size does not change. *)
Definition Image_resize (B : backend) (src : nat) (size : Z * Z) : M nat :=
  im <- deref src ;;
  if bool_decide (im_size im = size) then alloc im
  else if (size.1 <=? 0) || (size.2 <=? 0)
  then raise (Exn ValueError "height and width must be > 0")
  else alloc (resized B im size.1 size.2).

(** [Image.open(path)]; only PNG files are decoded in this model. *)
Definition Image_open (p : list string) : M nat :=
  fun w =>
    match fs w !! p with
    | Some (File (Png im)) => alloc im w
    | Some (File _) =>
        (Raise (Exn UnidentifiedImageError
                  ("cannot identify image file '" +:+ path_str p +:+ "'")),
         w)
    | Some Dir => (Raise (os_error IsADirectoryError (path_str p)), w)
    | None => (Raise (os_error (missing (fs w) p) (path_str p)), w)
    end.

(** [image.save(path, 'PNG', optimize=True)]. *)
Definition Image_save_PNG (H : host) (r : nat) (p : list string) : M unit :=
  im <- deref r ;; write_file H p (Png im).

(** [image.save(path, format='ICO', sizes=sizes)]. *)
Definition Image_save_ICO (B : backend) (H : host) (r : nat)
  (p : list string) (sizes : list (Z * Z)) : M unit :=
  im <- deref r ;; write_file H p (Ico (ico_frames B im sizes)).

(** [urllib] wraps the operating system's error for a local file it
    cannot read in a [URLError]. *)
Definition url_error (cls : exn_class) (filename : string) : exn :=
  Exn URLError ("<urlopen error " +:+ os_error_text cls filename +:+ ">").

(** [cairosvg.svg2png(url, output_width=size, output_height=size,
    background_color='transparent')]: the decoded PNG data.  The
    rasteriser is an external capability; for a positive size it yields
    an RGBA buffer of exactly that resolution.  It fetches the document
    through [urllib]. *)

Definition cairosvg_svg2png (H : host) (svg_path : list string) (size : Z)
  : M image :=
  fun w =>
    match fs w !! svg_path with
    | Some (File (Svg doc)) =>
        if 0 <? size
        then (Ok (Image RGBA size size
                        (tabulate size size (svg_pixel H doc size))), w)
        else (Raise (Exn ValueError "invalid output size"), w)
    | Some (File _) => (Raise (Exn ParseError "not an SVG document"), w)
    | Some Dir => (Raise (url_error IsADirectoryError (path_str svg_path)), w)
    | None =>
        (Raise (url_error (missing (fs w) svg_path) (path_str svg_path)), w)
    end.

(** [Image.open(temp).convert('RGBA')] on data just written to a
    temporary file, which is gone again when its [with] block ends. *)
Definition Image_open_data_RGBA (data : image) : M nat :=
  alloc (Image RGBA (im_width data) (im_height data)
               (convert RGBA <$> im_data data)).

End Lib.

(** ** scripts/generate-icons.py *)

Module GenerateIcons.
Import PIL Py Lib.
Local Open Scope py_scope.

Section Script.
Context (B : backend) (H : host).
(** [Path(__file__).parent.parent]. *)
Context (project_root : list string).

Definition create_rounded_icon (image : nat) (radius_percent : Z) : M nat :=
  sz <- Image_size image ;;
  let size := sz.1 in  (* Assume square *)
  radius <- int_truediv (size * radius_percent) 100 ;;
  (* Create a mask for rounded corners *)
  mask <- Image_new L (size, size) (PixL 0) ;;
  draw <- ImageDraw_Draw mask ;;
  Draw_rounded_rectangle B draw ((0, 0), (size, size)) radius
    (Some (PixL 255)) ;;;
  (* Apply the mask *)
  result <- Image_new RGBA (size, size) (PixRGBA 0 0 0 0) ;;
  Image_paste result image (0, 0) None ;;;
  Image_putalpha result mask ;;;
  ret result.

Definition add_shadow_effect (image : nat) (shadow_color : pixel)
  (offset : Z * Z) (blur_radius : Z) : M nat :=
  size <- Image_size image ;;
  (* Create shadow layer *)
  shadow <- Image_new RGBA
              (size.1 + blur_radius * 2, size.2 + blur_radius * 2)
              (PixRGBA 0 0 0 0) ;;
  shadow_draw <- ImageDraw_Draw shadow ;;
  (* Draw shadow (simplified) *)
  shadow_layer <- Image_new RGBA size shadow_color ;;
  shadow_layer <- Image_filter_GaussianBlur B shadow_layer blur_radius ;;
  (* Composite *)
  result <- Image_new RGBA size (PixRGBA 0 0 0 0) ;;
  Image_paste result shadow_layer offset (Some shadow_layer) ;;;
  Image_paste result image (0, 0) (Some image) ;;;
  ret result.

(** The keyword defaults of the two filters. *)
Definition default_radius_percent : Z := 20.
Definition default_shadow_color : pixel := PixRGBA 0 0 0 60.
Definition default_offset : Z * Z := (2, 2).
Definition default_blur_radius : Z := 4.

Definition generate_png_from_svg (svg_path : list string) (size : Z)
  (output_path : list string) (rounded shadow : bool) : M unit :=
  print ("Generating " +:+ name output_path +:+ " (" +:+ pretty size
         +:+ "x" +:+ pretty size +:+ ")") ;;;
  (* Convert SVG to PNG using cairosvg *)
  png_data <- cairosvg_svg2png H svg_path size ;;
  (* Load with PIL for post-processing *)
  image <- Image_open_data_RGBA png_data ;;
  (* Post-processing effects *)
  image <- (if rounded
            then create_rounded_icon image default_radius_percent
            else ret image) ;;
  image <- (if shadow
            then add_shadow_effect image default_shadow_color
                   default_offset default_blur_radius
            else ret image) ;;
  (* Save final result *)
  Image_save_PNG H image output_path.

Definition iconset_sizes : list (Z * string) :=
  [ (16, "icon_16x16.png");
    (32, "icon_16x16@2x.png");
    (32, "icon_32x32.png");
    (64, "icon_32x32@2x.png");
    (128, "icon_128x128.png");
    (256, "icon_128x128@2x.png");
    (256, "icon_256x256.png");
    (512, "icon_256x256@2x.png");
    (512, "icon_512x512.png");
    (1024, "icon_512x512@2x.png") ].

Definition iconset_dir_of (icns_path : list string) : list string :=
  parent icns_path ++ [stem icns_path +:+ ".iconset"].

(** The body of the [try] block of [generate_icns]. *)
Definition generate_icns_body (png_512_path icns_path : list string)
  : M unit :=
  (* Create iconset directory *)
  let iconset_dir := iconset_dir_of icns_path in
  Path_mkdir iconset_dir ;;;
  (* Generate each size *)
  base_image <- Image_open png_512_path ;;
  for_each iconset_sizes (fun '(size, filename) =>
    resized <- (if size <=? 512
                then Image_resize B base_image (size, size)
                else Image_resize B base_image (size, size)) ;;
    Image_save_PNG H resized (iconset_dir ++ [filename])) ;;;
  (* Convert to .icns using iconutil *)
  result <- subprocess_run_iconutil H iconset_dir icns_path ;;
  if result.1 =? 0 then
    print ("Generated " +:+ name icns_path +:+ " successfully") ;;;
    (* Clean up iconset directory *)
    shutil_rmtree iconset_dir
  else
    print ("Warning: iconutil failed: " +:+ result.2).

Definition generate_icns (png_512_path icns_path : list string) : M unit :=
  try_except (generate_icns_body png_512_path icns_path)
    (fun e =>
       print ("Warning: Could not generate .icns file: " +:+ exn_msg e)).

Definition ico_sizes : list Z := [16; 24; 32; 48; 64; 128; 256].

(** The body of the [try] block of [generate_ico]. *)
Definition generate_ico_body (png_512_path ico_path : list string)
  : M unit :=
  base_image <- Image_open png_512_path ;;
  (* Create multiple sizes for .ico *)
  images <- for_fold ico_sizes [] (fun images size =>
              resized <- Image_resize B base_image (size, size) ;;
              ret (images ++ [resized])) ;;
  (* Save as .ico *)
  first <- index images 0 ;;
  sizes <- comprehension images Image_size ;;
  Image_save_ICO B H first ico_path sizes ;;;
  print ("Generated " +:+ name ico_path +:+ " successfully").

Definition generate_ico (png_512_path ico_path : list string) : M unit :=
  try_except (generate_ico_body png_512_path ico_path)
    (fun e =>
       print ("Warning: Could not generate .ico file: " +:+ exn_msg e)).

(** [import cairosvg] and [from PIL import Image]. *)
Definition import_dependencies : M unit :=
  if importable H then ret tt
  else raise (Exn ImportError "No module named 'cairosvg'").

(** The table of core PNG sizes: size, file name, rounded, shadow. *)
Definition sizes : list (Z * string * bool * bool) :=
  [ (32, "32x32.png", false, false);
    (128, "128x128.png", true, true);
    (256, "128x128@2x.png", true, true);
    (512, "icon.png", true, true) ].

Definition store_sizes : list (Z * string) :=
  [ (30, "Square30x30Logo.png");
    (44, "Square44x44Logo.png");
    (71, "Square71x71Logo.png");
    (89, "Square89x89Logo.png");
    (107, "Square107x107Logo.png");
    (142, "Square142x142Logo.png");
    (150, "Square150x150Logo.png");
    (284, "Square284x284Logo.png");
    (310, "Square310x310Logo.png");
    (50, "StoreLogo.png") ].

Definition svg_path : list string := project_root ++ ["design"; "logo.svg"].
Definition icons_dir : list string := project_root ++ ["src-tauri"; "icons"].

Definition main : M unit :=
  (* Check for required dependencies *)
  try_except_class ImportError import_dependencies
    (print "Error: Required dependencies not found." ;;;
     print "Please install: pip install Pillow cairosvg" ;;;
     sys_exit 1) ;;;
  found <- Path_exists svg_path ;;
  (if negb found then
     print ("Error: SVG file not found at " +:+ path_str svg_path) ;;;
     sys_exit 1
   else ret tt) ;;;
  Path_mkdir icons_dir ;;;
  print "ðŸ”¥ Code Furnace Icon Generator" ;;;
  print (String.concat "" (replicate 40 "=")) ;;;
  (* Generate core PNG sizes *)
  for_each sizes (fun '(size, filename, rounded, shadow) =>
    generate_png_from_svg svg_path size (icons_dir ++ [filename])
      rounded shadow) ;;;
  (* Generate Windows Store logos *)
  for_each store_sizes (fun '(size, filename) =>
    generate_png_from_svg svg_path size (icons_dir ++ [filename])
      true false) ;;;
  (* Generate platform-specific formats *)
  print (nl +:+ "Generating platform-specific formats...") ;;;
  (* macOS .icns *)
  generate_icns (icons_dir ++ ["icon.png"]) (icons_dir ++ ["icon.icns"]) ;;;
  (* Windows .ico *)
  generate_ico (icons_dir ++ ["icon.png"]) (icons_dir ++ ["icon.ico"]) ;;;
  print (nl +:+ "âœ¨ Icon generation complete!") ;;;
  print ("Generated icons in: " +:+ path_str icons_dir) ;;;
  print (nl +:+ "Next steps:") ;;;
  print "1. Review the generated icons" ;;;
  print "2. Run: npm run tauri:build" ;;;
  print "3. Your app will use the new volcanic logo!".

(** The whole run: the module-level imports, then [main()]. *)
Definition run : M unit := import_dependencies ;;; main.

End Script.
End GenerateIcons.

(** ** scripts/simple-icon-gen.py *)

Module SimpleIconGen.
Import PIL Py Lib.
Local Open Scope py_scope.

Section Script.
Context (B : backend) (H : host).
(** [int(10 * s * math.sin((x - 210 * s) * 0.1))] as a function of the
    target size and of [x]: the one place where the script computes
    with a transcendental function. *)
Context (sin_offset : Z -> Z -> Z).
(** [Path(__file__).parent.parent]. *)
Context (project_root : list string).

(* Colors *)
Definition obsidian_dark : pixel := PixRGBA 13 13 13 255.
Definition obsidian_medium : pixel := PixRGBA 42 42 42 255.
Definition lava_primary : pixel := PixRGBA 255 69 0 255.
Definition lava_secondary : pixel := PixRGBA 255 140 0 255.
Definition lava_gold : pixel := PixRGBA 255 215 0 255.
Definition ember : pixel := PixRGBA 255 112 67 255.

(** [int(num / den * s)] with [s = size / 512.0].  Division by 512 and
    the products with the script's constants are exact in binary
    floating point for every size an image can have, so the float
    expression is this integer quotient. *)
Definition scaled (num den size : Z) : Z :=
  int_div (num * size) (den * 512).

Definition create_volcanic_icon (size : Z) : M nat :=
  (* Create base image with transparent background *)
  img <- Image_new RGBA (size, size) (PixRGBA 0 0 0 0) ;;
  draw <- ImageDraw_Draw img ;;
  (* Scale factor for coordinates *)
  let s k := scaled k 1 size in
  (* Background circle (obsidian) *)
  let center := size / 2 in
  let bg_radius := s 240 in
  Draw_ellipse B draw (center - bg_radius, center - bg_radius,
                       center + bg_radius, center + bg_radius)
    (Some obsidian_dark) None 1 ;;;
  (* Outer ring *)
  let ring_radius := s 220 in
  let ring_width := Z.max 1 (s 3) in
  for_each (range 0 ring_width 1) (fun i =>
    Draw_ellipse B draw (center - ring_radius + i, center - ring_radius + i,
                         center + ring_radius - i, center + ring_radius - i)
      None (Some lava_primary) 1) ;;;
  (* Forge anvil base *)
  let anvil_left := s 160 in
  let anvil_right := s 352 in
  let anvil_top := s 332 in
  let anvil_bottom := s 380 in
  Draw_rectangle B draw (anvil_left, anvil_top, anvil_right, anvil_bottom)
    (Some obsidian_dark) (Some lava_primary) (Z.max 1 (s 2)) ;;;
  (* Main furnace body (simplified polygon) *)
  let furnace_points :=
    [ (s 200, s 320); (s 312, s 320); (s 320, s 180); (s 290, s 120);
      (s 256, s 100); (s 222, s 120); (s 192, s 180) ] in
  Draw_polygon B draw furnace_points
    (Some obsidian_medium) (Some lava_secondary) (Z.max 1 (s 3)) ;;;
  (* Lava core (glowing center) *)
  let core_center_x := s 256 in
  let core_center_y := s 200 in
  let core_width := s 45 in
  let core_height := s 60 in
  (* Create gradient effect with multiple ellipses *)
  for_each (range 0 5 1) (fun i =>
    let alpha := 255 - i * 40 in
    let radius_w := core_width - i * s 5 in
    let radius_h := core_height - i * s 8 in
    if (0 <? radius_w) && (0 <? radius_h) && (0 <? alpha) then
      let color := if i <? 2 then lava_gold
                   else if i <? 4 then lava_secondary else lava_primary in
      let color := set_alpha color alpha in
      Draw_ellipse B draw
        (core_center_x - radius_w, core_center_y - radius_h,
         core_center_x + radius_w, core_center_y + radius_h)
        (Some color) None 1
    else ret tt) ;;;
  (* Molten cracks (simplified wavy lines) *)
  let crack_y_positions := [s 160; s 200; s 240] in
  let crack_colors := [lava_gold; lava_secondary; lava_primary] in
  let crack_widths := [Z.max 1 (s 3); Z.max 1 (s 4); Z.max 1 (s 3)] in
  for_each (zip crack_y_positions (zip crack_colors crack_widths))
    (fun '(y_pos, (color, width)) =>
      (* Create wavy crack line *)
      points <- for_fold (range (s 210) (s 302) (Z.max 1 (s 10))) []
                  (fun points x =>
                     let offset := sin_offset size x in
                     ret (points ++ [x; y_pos + offset])) ;;
      if (4 <=? length points)%nat then  (* Need at least 2 points *)
        for_each (range 0 (Z.of_nat (length points) - 2) 2) (fun j =>
          p0 <- index points j ;;
          p1 <- index points (j + 1) ;;
          p2 <- index points (j + 2) ;;
          p3 <- index points (j + 3) ;;
          Draw_line B draw (p0, p1, p2, p3) color width)
      else ret tt) ;;;
  (* Forge opening (furnace mouth) *)
  let mouth_center_x := s 256 in
  let mouth_center_y := s 140 in
  let mouth_width := s 25 in
  let mouth_height := s 15 in
  Draw_ellipse B draw
    (mouth_center_x - mouth_width, mouth_center_y - mouth_height,
     mouth_center_x + mouth_width, mouth_center_y + mouth_height)
    (Some (PixRGBA 0 0 0 255)) (Some lava_primary) (Z.max 1 (s 2)) ;;;
  (* Inner glow in mouth *)
  let inner_width := s 20 in
  let inner_height := s 10 in
  Draw_ellipse B draw
    (mouth_center_x - inner_width, mouth_center_y - inner_height,
     mouth_center_x + inner_width, mouth_center_y + inner_height)
    (Some (set_alpha lava_secondary 150)) None 1 ;;;
  (* Sparks/embers (small circles) *)
  let ember_positions :=
    [ (s 200, s 120, s 3);
      (s 320, s 100, s 2);
      (s 280, s 80, scaled 5 2 size);
      (s 180, s 90, s 2);
      (s 340, s 130, scaled 3 2 size) ] in
  let ember_colors :=
    [lava_gold; lava_secondary; lava_gold; lava_primary; lava_secondary] in
  for_each (zip ember_positions ember_colors)
    (fun '((x, y, radius), color) =>
      if 0 <? radius then
        Draw_ellipse B draw (x - radius, y - radius, x + radius, y + radius)
          (Some color) None 1
      else ret tt) ;;;
  (* Furnace vents (cooling slits) *)
  let vent_y := s 300 in
  let vent_height := Z.max 1 (s 3) in
  let vent_width := s 20 in
  let vent_positions := [s 200; s 230; s 260; s 290] in
  for_each vent_positions (fun x =>
    Draw_rectangle B draw (x, vent_y, x + vent_width, vent_y + vent_height)
      (Some (set_alpha lava_primary 150)) None 1) ;;;
  (* Central focal point (bright core) *)
  let core_radius := Z.max 1 (s 12) in
  let bright_radius := Z.max 1 (s 6) in
  Draw_ellipse B draw
    (center - core_radius, core_center_y - core_radius,
     center + core_radius, core_center_y + core_radius)
    (Some lava_gold) None 1 ;;;
  Draw_ellipse B draw
    (center - bright_radius, core_center_y - bright_radius,
     center + bright_radius, core_center_y + bright_radius)
    (Some (PixRGBA 255 255 255 200)) None 1 ;;;
  ret img.

Definition create_rounded_icon (image : nat) (radius_percent : Z) : M nat :=
  sz <- Image_size image ;;
  let size := sz.1 in
  radius <- int_truediv (size * radius_percent) 100 ;;
  (* Create mask *)
  mask <- Image_new L (size, size) (PixL 0) ;;
  mask_draw <- ImageDraw_Draw mask ;;
  Draw_rounded_rectangle B mask_draw ((0, 0), (size, size)) radius
    (Some (PixL 255)) ;;;
  (* Apply mask *)
  result <- Image_new RGBA (size, size) (PixRGBA 0 0 0 0) ;;
  Image_paste result image (0, 0) None ;;;
  Image_putalpha result mask ;;;
  ret result.

Definition default_radius_percent : Z := 20.

(** Icon configurations: size, file name, rounded, description. *)
Definition icon_configs : list (Z * string * bool * string) :=
  [ (32, "32x32.png", false, "Small app icon");
    (128, "128x128.png", true, "Medium app icon");
    (256, "128x128@2x.png", true, "Retina medium icon");
    (512, "icon.png", true, "Large app icon");
    (30, "Square30x30Logo.png", true, "Windows Store 30x30");
    (44, "Square44x44Logo.png", true, "Windows Store 44x44");
    (71, "Square71x71Logo.png", true, "Windows Store 71x71");
    (89, "Square89x89Logo.png", true, "Windows Store 89x89");
    (107, "Square107x107Logo.png", true, "Windows Store 107x107");
    (142, "Square142x142Logo.png", true, "Windows Store 142x142");
    (150, "Square150x150Logo.png", true, "Windows Store 150x150");
    (284, "Square284x284Logo.png", true, "Windows Store 284x284");
    (310, "Square310x310Logo.png", true, "Windows Store 310x310");
    (50, "StoreLogo.png", true, "Windows Store Logo") ].

Definition ico_sizes : list Z := [16; 24; 32; 48; 64; 128; 256].

Definition icons_dir : list string := project_root ++ ["src-tauri"; "icons"].

(** One iteration of the loop over [icon_configs]. *)
Definition generate_entry (entry : Z * string * bool * string) : M unit :=
  let '(size, filename, rounded, description) := entry in
  print ("Generating " +:+ filename +:+ " (" +:+ pretty size +:+ "x"
         +:+ pretty size +:+ ") - " +:+ description) ;;;
  (* Create the volcanic icon *)
  icon <- create_volcanic_icon size ;;
  (* Apply rounding if needed *)
  icon <- (if rounded then create_rounded_icon icon default_radius_percent
           else ret icon) ;;
  (* Save *)
  Image_save_PNG H icon (icons_dir ++ [filename]).

(** The body of the [try] block that writes the ICO file. *)
Definition generate_ico_body : M unit :=
  (* Create multiple sizes for .ico *)
  ico_images <- for_fold ico_sizes [] (fun ico_images size =>
                  img <- create_volcanic_icon size ;;
                  ret (ico_images ++ [img])) ;;
  let ico_path := icons_dir ++ ["icon.ico"] in
  first <- index ico_images 0 ;;
  sizes <- comprehension ico_images Image_size ;;
  Image_save_ICO B H first ico_path sizes ;;;
  print ("Generated " +:+ name ico_path).

Definition main : M unit :=
  print "ðŸ”¥ Code Furnace Simple Icon Generator" ;;;
  print (String.concat "" (replicate 45 "=")) ;;;
  Path_mkdir icons_dir ;;;
  for_each icon_configs generate_entry ;;;
  (* Create .ico file (Windows) *)
  print "Generating icon.ico for Windows..." ;;;
  try_except generate_ico_body
    (fun e =>
       print ("Warning: Could not generate .ico file: " +:+ exn_msg e)) ;;;
  print (nl +:+ "âœ¨ Icon generation complete!") ;;;
  print ("Generated "
         +:+ pretty (Z.of_nat (length icon_configs) + 1)
         +:+ " icon files in: " +:+ path_str icons_dir) ;;;
  print (nl +:+ "Next steps:") ;;;
  print "1. Review the generated volcanic icons" ;;;
  print "2. Run: npm run tauri:build" ;;;
  print "3. Your Code Furnace app now has a molten logo! ðŸŒ‹".

End Script.
End SimpleIconGen.

(** ** A concrete library, host and world

    Used by the closed instances of the theorems below: shapes cover their
    bounding box, the blur is the identity, resampling is nearest
    neighbour, the host lets every write through and ships a working
    [iconutil]. *)

Module Fixture.
Import PIL Py Lib.

Definition box_covers (s : shape) (p : part) (x y : Z) : bool :=
  match s with
  | Ellipse x0 y0 x1 y1
  | Rectangle x0 y0 x1 y1
  | RoundedRectangle x0 y0 x1 y1 _
  | Line x0 y0 x1 y1 => (x0 <=? x) && (x <=? x1) && (y0 <=? y) && (y <=? y1)
  | Polygon _ => false
  end.

Definition nearest (im : image) (size : Z * Z) (x y : Z) : pixel :=
  getpixel im (x * im_width im / size.1) (y * im_height im / size.2).

Definition plain_backend : backend :=
  Backend box_covers (fun _ im x y => getpixel im x y) nearest
          (fun im s => Image (im_mode im) s.1 s.2
                             (tabulate s.1 s.2 (nearest im s))).

Definition plain_host : host :=
  Host (fun doc size x y => PixRGBA x y (Z.of_nat doc) 255)
       (fun _ => false) (Some (0, "")) true.

(** A host without [iconutil]. *)
Definition bare_host : host :=
  Host (fun doc size x y => PixRGBA x y (Z.of_nat doc) 255)
       (fun _ => false) None true.

Definition empty_world : world := World ∅ ∅ [] [].

(** A 2x3 image (not square) with a translucent pixel value. *)
Definition tall_image : image := filled RGBA 2 3 (PixRGBA 10 20 30 40).

Definition tall_world : world := World {[ 0%nat := tall_image ]} ∅ [] [].

Definition root : list string := ["repo"].

(** A checkout that holds the logo and the [src-tauri] directory. *)
Definition checkout : world :=
  World ∅
        (list_to_map [ (["repo"], Dir);
                       (["repo"; "design"], Dir);
                       (["repo"; "design"; "logo.svg"], File (Svg 7));
                       (["repo"; "src-tauri"], Dir);
                       (["repo"; "src-tauri"; "icons"], Dir) ])
        [] [].

(** The same checkout after some run left a master [icon.png] (here a
    small stand-in image) in the icons directory. *)
Definition checkout_with_master : world :=
  World ∅
        (list_to_map [ (["repo"], Dir);
                       (["repo"; "design"], Dir);
                       (["repo"; "design"; "logo.svg"], File (Svg 7));
                       (["repo"; "src-tauri"], Dir);
                       (["repo"; "src-tauri"; "icons"], Dir);
                       (["repo"; "src-tauri"; "icons"; "icon.png"],
                        File (Png tall_image)) ])
        [] [].

(** The same checkout without the logo. *)
Definition checkout_without_logo : world :=
  World ∅
        (list_to_map [ (["repo"], Dir);
                       (["repo"; "design"], Dir);
                       (["repo"; "src-tauri"], Dir) ])
        [] [].

(** A project root and nothing in it. *)
Definition only_root : world :=
  World ∅ (list_to_map [ (["repo"], Dir) ]) [] [].

End Fixture.

(** ** Pure counterparts of the filters and of the drivers' phases *)

Module Spec.
Import PIL Py Lib.

(** [m] never leaves through [sys.exit]. *)
Definition no_exit {A} (m : M A) : Prop :=
  forall w code w', m w <> (SysExit code, w').

(** [m] keeps an existing directory [d] in place, however it ends. *)
Definition keeps_dir {A} (d : list string) (m : M A) : Prop :=
  forall w, fs w !! d = Some Dir -> fs (m w).2 !! d = Some Dir.

(** The mask [create_rounded_icon] draws for a side length and radius. *)
Definition rounded_call (size radius : Z) : call :=
  Call (RoundedRectangle 0 0 size size radius) (Some (PixL 255)) None 1.

Definition rounded_mask (B : backend) (size radius : Z) : image :=
  paint B (rounded_call size radius) (filled L size size (PixL 0)).

(** The image [create_rounded_icon] returns for an input image, by the
    radius it computed. *)
Definition rounded_image_at (B : backend) (im : image) (radius : Z)
  : image :=
  let size := im_width im in
  putalpha_pixels
    (paste_pixels (filled RGBA size size (PixRGBA 0 0 0 0)) im 0 0 None)
    (rounded_mask B size radius).

(** The world after a successful [create_rounded_icon]: two new objects,
    the mask and the result, and one more drawing call. *)
Definition after_rounding_at (B : backend) (w : world) (im : image)
  (radius : Z) : nat * world :=
  let size := im_width im in
  let m := fresh (dom (heap w)) in
  let h1 := <[m := rounded_mask B size radius]> (heap w) in
  let r := fresh (dom h1) in
  (r, World (<[r := rounded_image_at B im radius]> h1) (fs w) (stdout w)
            (drawlog w ++ [rounded_call size radius])).

(** The world in which a negative radius makes the library reject the
    mask: the blank mask is allocated and the call was handed over. *)
Definition mask_rejected (w : world) (im : image) (radius : Z) : world :=
  let size := im_width im in
  World (<[fresh (dom (heap w)) := filled L size size (PixL 0)]> (heap w))
        (fs w) (stdout w) (drawlog w ++ [rounded_call size radius]).

(** The same by the radius percentage, where the radius is the integer
    quotient (the product of side and percentage below [2^53]). *)
Definition rounded_image (B : backend) (im : image) (radius_percent : Z)
  : image :=
  rounded_image_at B im (int_div (im_width im * radius_percent) 100).

Definition after_rounding (B : backend) (w : world) (im : image) (p : Z)
  : nat * world :=
  after_rounding_at B w im (int_div (im_width im * p) 100).

(** The image [add_shadow_effect] returns for an input image. *)
Definition shadowed_image (B : backend) (im : image) (shadow_color : pixel)
  (offset : Z * Z) (blur_radius : Z) : image :=
  let layer := blurred B blur_radius
                 (filled RGBA (im_width im) (im_height im) shadow_color) in
  paste_pixels
    (paste_pixels
       (filled RGBA (im_width im) (im_height im) (PixRGBA 0 0 0 0))
       layer offset.1 offset.2 (Some layer))
    im 0 0 (Some im).

(** The world after a successful [add_shadow_effect]: four new objects,
    the unused enlarged canvas, the flat layer, its blurred copy and the
    result. *)
Definition after_shadow (B : backend) (w : world) (im : image)
  (shadow_color : pixel) (offset : Z * Z) (blur_radius : Z) : nat * world :=
  let h0 := heap w in
  let h1 := <[fresh (dom h0) :=
                filled RGBA (im_width im + blur_radius * 2)
                       (im_height im + blur_radius * 2) (PixRGBA 0 0 0 0)]> h0 in
  let flat := filled RGBA (im_width im) (im_height im) shadow_color in
  let h2 := <[fresh (dom h1) := flat]> h1 in
  let h3 := <[fresh (dom h2) := blurred B blur_radius flat]> h2 in
  let r := fresh (dom h3) in
  (r, World (<[r := shadowed_image B im shadow_color offset blur_radius]> h3)
            (fs w) (stdout w) (drawlog w)).

(** The raster [generate_png_from_svg] loads for a document and a size,
    and the image it saves after the enabled filters. *)
Definition rasterised (H : host) (doc : nat) (size : Z) : image :=
  Image RGBA size size
        (convert RGBA <$> tabulate size size (svg_pixel H doc size)).

Definition processed (B : backend) (im : image) (rounded shadow : bool)
  : image :=
  let im1 := if rounded
             then rounded_image B im GenerateIcons.default_radius_percent
             else im in
  if shadow
  then shadowed_image B im1 GenerateIcons.default_shadow_color
         GenerateIcons.default_offset GenerateIcons.default_blur_radius
  else im1.

(** A path a file can be written to: its parent is a directory, it is
    not one itself, and the host lets the write through. *)
Definition writable (H : host) (tree : gmap (list string) node)
  (p : list string) : Prop :=
  is_dir tree (parent p) = true /\ is_dir tree p = false
  /\ write_error H p = false.

(** [main] of generate-icons.py in two phases: everything up to and
    including the PNG loops, and the packaging that follows. *)
Definition main_pngs (B : backend) (H : host) (root : list string) : M unit :=
  (try_except_class ImportError (GenerateIcons.import_dependencies H)
     (print "Error: Required dependencies not found." ;;;
      print "Please install: pip install Pillow cairosvg" ;;;
      sys_exit 1) ;;;
   found <- Path_exists (GenerateIcons.svg_path root) ;;
   (if negb found then
      print ("Error: SVG file not found at "
             +:+ path_str (GenerateIcons.svg_path root)) ;;;
      sys_exit 1
    else ret tt) ;;;
   Path_mkdir (GenerateIcons.icons_dir root) ;;;
   print "ðŸ”¥ Code Furnace Icon Generator" ;;;
   print (String.concat "" (replicate 40 "=")) ;;;
   for_each GenerateIcons.sizes (fun '(size, filename, rounded, shadow) =>
     GenerateIcons.generate_png_from_svg B H (GenerateIcons.svg_path root)
       size (GenerateIcons.icons_dir root ++ [filename]) rounded shadow) ;;;
   for_each GenerateIcons.store_sizes (fun '(size, filename) =>
     GenerateIcons.generate_png_from_svg B H (GenerateIcons.svg_path root)
       size (GenerateIcons.icons_dir root ++ [filename]) true false))%py.

Definition main_packaging (B : backend) (H : host) (root : list string)
  : M unit :=
  (print (nl +:+ "Generating platform-specific formats...") ;;;
   GenerateIcons.generate_icns B H
     (GenerateIcons.icons_dir root ++ ["icon.png"])
     (GenerateIcons.icons_dir root ++ ["icon.icns"]) ;;;
   GenerateIcons.generate_ico B H
     (GenerateIcons.icons_dir root ++ ["icon.png"])
     (GenerateIcons.icons_dir root ++ ["icon.ico"]) ;;;
   print (nl +:+ "âœ¨ Icon generation complete!") ;;;
   print ("Generated icons in: " +:+ path_str (GenerateIcons.icons_dir root)) ;;;
   print (nl +:+ "Next steps:") ;;;
   print "1. Review the generated icons" ;;;
   print "2. Run: npm run tauri:build" ;;;
   print "3. Your app will use the new volcanic logo!")%py.

(** The same two phases of [main] of simple-icon-gen.py. *)
Definition simple_main_pngs (B : backend) (H : host)
  (sin_offset : Z -> Z -> Z) (root : list string) : M unit :=
  (print "ðŸ”¥ Code Furnace Simple Icon Generator" ;;;
   print (String.concat "" (replicate 45 "=")) ;;;
   Path_mkdir (SimpleIconGen.icons_dir root) ;;;
   for_each SimpleIconGen.icon_configs
     (SimpleIconGen.generate_entry B H sin_offset root))%py.

Definition simple_main_packaging (B : backend) (H : host)
  (sin_offset : Z -> Z -> Z) (root : list string) : M unit :=
  (print "Generating icon.ico for Windows..." ;;;
   try_except (SimpleIconGen.generate_ico_body B H sin_offset root)
     (fun e =>
        print ("Warning: Could not generate .ico file: " +:+ exn_msg e)) ;;;
   print (nl +:+ "âœ¨ Icon generation complete!") ;;;
   print ("Generated "
          +:+ pretty (Z.of_nat (length SimpleIconGen.icon_configs) + 1)
          +:+ " icon files in: " +:+ path_str (SimpleIconGen.icons_dir root)) ;;;
   print (nl +:+ "Next steps:") ;;;
   print "1. Review the generated volcanic icons" ;;;
   print "2. Run: npm run tauri:build" ;;;
   print "3. Your Code Furnace app now has a molten logo! ðŸŒ‹")%py.

(** The part of [generate_icns_body] that fills the staging directory,
    before the packaging tool runs. *)
Definition icns_stage (B : backend) (H : host)
  (png_512_path icns_path : list string) : M unit :=
  (let iconset_dir := GenerateIcons.iconset_dir_of icns_path in
   Path_mkdir iconset_dir ;;;
   base_image <- Image_open png_512_path ;;
   for_each GenerateIcons.iconset_sizes (fun '(size, filename) =>
     resized <- (if size <=? 512
                 then Image_resize B base_image (size, size)
                 else Image_resize B base_image (size, size)) ;;
     Image_save_PNG H resized (iconset_dir ++ [filename])))%py.

(** What follows it: the tool, then the clean-up or the warning. *)
Definition icns_package (H : host) (icns_path : list string) : M unit :=
  (let iconset_dir := GenerateIcons.iconset_dir_of icns_path in
   result <- subprocess_run_iconutil H iconset_dir icns_path ;;
   if result.1 =? 0 then
     print ("Generated " +:+ name icns_path +:+ " successfully") ;;;
     shutil_rmtree iconset_dir
   else
     print ("Warning: iconutil failed: " +:+ result.2))%py.

(** The warning lines of the two packagers. *)
Definition icns_warning (e : exn) : string :=
  "Warning: Could not generate .icns file: " +:+ exn_msg e.

Definition ico_warning (e : exn) : string :=
  "Warning: Could not generate .ico file: " +:+ exn_msg e.

(** An image object as the library builds them: sizes are not
    negative. *)
Definition valid (im : image) : Prop :=
  0 <= im_width im /\ 0 <= im_height im.

End Spec.

(** ** The drawing calls of the procedural renderer

    [create_volcanic_icon] is a fixed sequence of drawing calls on one
    canvas; which calls are issued depends on the target size alone.  The
    list below names them block by block, in the order of the source. *)

Module Volcanic.
Import PIL Py Lib SimpleIconGen.

(** All calls of a list applied in order. *)
Definition paint_all (B : backend) (cs : list call) (im : image) : image :=
  foldl (fun acc c => paint B c acc) im cs.

Definition calls_ok (cs : list call) : Prop :=
  Forall (fun c => shape_ok (c_shape c) = true) cs.

(** [draws B d m cs a]: on a live canvas [d], and provided the library
    accepts every shape of [cs], the program [m] returns [a], issues the
    calls [cs] on [d] and changes nothing else. *)
Definition draws {A} (B : backend) (d : nat) (m : M A) (cs : list call)
  (a : A) : Prop :=
  calls_ok cs ->
  forall w im, heap w !! d = Some im ->
    m w = (Ok a, World (<[d := paint_all B cs im]> (heap w)) (fs w)
                       (stdout w) (drawlog w ++ cs)).

Section Calls.
Context (sin_offset : Z -> Z -> Z) (size : Z).

Definition s (k : Z) : Z := scaled k 1 size.
Definition center : Z := size / 2.

Definition centered_ellipse (cx cy rx ry : Z) : shape :=
  Ellipse (cx - rx) (cy - ry) (cx + rx) (cy + ry).

Definition background_calls : list call :=
  [Call (centered_ellipse center center (s 240) (s 240))
        (Some obsidian_dark) None 1].

Definition ring_calls : list call :=
  (fun i => Call (Ellipse (center - s 220 + i) (center - s 220 + i)
                          (center + s 220 - i) (center + s 220 - i))
                 None (Some lava_primary) 1)
    <$> range 0 (Z.max 1 (s 3)) 1.

Definition anvil_calls : list call :=
  [Call (Rectangle (s 160) (s 332) (s 352) (s 380))
        (Some obsidian_dark) (Some lava_primary) (Z.max 1 (s 2))].

Definition furnace_calls : list call :=
  [Call (Polygon [ (s 200, s 320); (s 312, s 320); (s 320, s 180);
                   (s 290, s 120); (s 256, s 100); (s 222, s 120);
                   (s 192, s 180) ])
        (Some obsidian_medium) (Some lava_secondary) (Z.max 1 (s 3))].

(** The glow: the ellipse of step [i], if its radii and alpha are
    positive. *)
Definition glow_call (i : Z) : list call :=
  let alpha := 255 - i * 40 in
  let radius_w := s 45 - i * s 5 in
  let radius_h := s 60 - i * s 8 in
  if (0 <? radius_w) && (0 <? radius_h) && (0 <? alpha) then
    [Call (centered_ellipse (s 256) (s 200) radius_w radius_h)
          (Some (set_alpha (if i <? 2 then lava_gold
                            else if i <? 4 then lava_secondary
                            else lava_primary) alpha))
          None 1]
  else [].

Definition glow_calls : list call :=
  concat (glow_call <$> range 0 5 1).

Definition crack_points (y_pos : Z) : list Z :=
  foldl (fun points x => points ++ [x; y_pos + sin_offset size x]) []
        (range (s 210) (s 302) (Z.max 1 (s 10))).

Definition at_index (points : list Z) (j : Z) : Z :=
  default 0 (points !! Z.to_nat j).

Definition crack_call (crack : Z * (pixel * Z)) : list call :=
  let '(y_pos, (color, width)) := crack in
  let points := crack_points y_pos in
  if (4 <=? length points)%nat then
    (fun j => Call (Line (at_index points j) (at_index points (j + 1))
                         (at_index points (j + 2)) (at_index points (j + 3)))
                   None (Some color) width)
      <$> range 0 (Z.of_nat (length points) - 2) 2
  else [].

Definition crack_calls : list call :=
  concat (crack_call
            <$> zip [s 160; s 200; s 240]
                    (zip [lava_gold; lava_secondary; lava_primary]
                         [Z.max 1 (s 3); Z.max 1 (s 4); Z.max 1 (s 3)])).

Definition mouth_calls : list call :=
  [Call (centered_ellipse (s 256) (s 140) (s 25) (s 15))
        (Some (PixRGBA 0 0 0 255)) (Some lava_primary) (Z.max 1 (s 2))].

Definition inner_glow_calls : list call :=
  [Call (centered_ellipse (s 256) (s 140) (s 20) (s 10))
        (Some (set_alpha lava_secondary 150)) None 1].

(** An ember dot, if its radius is positive. *)
Definition ember_call (e : Z * Z * Z * pixel) : list call :=
  let '((x, y, radius), color) := e in
  if 0 <? radius then
    [Call (centered_ellipse x y radius radius) (Some color) None 1]
  else [].

Definition ember_calls : list call :=
  concat (ember_call
            <$> zip [ (s 200, s 120, s 3);
                      (s 320, s 100, s 2);
                      (s 280, s 80, scaled 5 2 size);
                      (s 180, s 90, s 2);
                      (s 340, s 130, scaled 3 2 size) ]
                    [lava_gold; lava_secondary; lava_gold; lava_primary;
                     lava_secondary]).

Definition vent_calls : list call :=
  (fun x => Call (Rectangle x (s 300) (x + s 20)
                            (s 300 + Z.max 1 (s 3)))
                 (Some (set_alpha lava_primary 150)) None 1)
    <$> [s 200; s 230; s 260; s 290].

Definition core_calls : list call :=
  [ Call (centered_ellipse center (s 200)
            (Z.max 1 (s 12)) (Z.max 1 (s 12)))
         (Some lava_gold) None 1;
    Call (centered_ellipse center (s 200)
            (Z.max 1 (s 6)) (Z.max 1 (s 6)))
         (Some (PixRGBA 255 255 255 200)) None 1 ].

Definition volcanic_calls : list call :=
  background_calls ++ ring_calls ++ anvil_calls ++ furnace_calls
  ++ glow_calls ++ crack_calls ++ mouth_calls ++ inner_glow_calls
  ++ ember_calls ++ vent_calls ++ core_calls.

(** The picture itself. *)
Definition volcanic_image (B : backend) : image :=
  paint_all B volcanic_calls (filled RGBA size size (PixRGBA 0 0 0 0)).

End Calls.

(** A shape whose horizontal or vertical extent is not positive: the
    scaled radius or width it was computed from is 0 or less. *)
Definition degenerate (sh : shape) : bool :=
  match sh with
  | Ellipse x0 y0 x1 y1
  | Rectangle x0 y0 x1 y1
  | RoundedRectangle x0 y0 x1 y1 _ => (x1 <=? x0) || (y1 <=? y0)
  | _ => false
  end.

End Volcanic.

(** ** Shapes of the procedural picture, in closed form *)

Module Picture.
Import PIL Py Lib SimpleIconGen Volcanic.

Section Closed.
Context (sin_offset : Z -> Z -> Z) (size : Z).

(** The [k]-th sample of a crack line at height [y_pos]. *)
Definition crack_sample (y_pos : Z) (k : nat) : Z * Z :=
  let x := s size 210 + Z.of_nat k * Z.max 1 (s size 10) in
  (x, y_pos + sin_offset size x).

(** The segments that join [n] consecutive samples. *)
Definition polyline (y_pos : Z) (color : pixel) (width : Z) (n : nat)
  : list call :=
  (fun k => Call (Line (crack_sample y_pos k).1 (crack_sample y_pos k).2
                       (crack_sample y_pos (S k)).1
                       (crack_sample y_pos (S k)).2)
                 None (Some color) width)
    <$> seq 0 (n - 1).

(** How many samples a crack line has. *)
Definition crack_samples : nat :=
  length (range (s size 210) (s size 302) (Z.max 1 (s size 10))).

(** The five glow ellipses, brightest and largest first. *)
Definition glow_ellipse (i : Z) (color : pixel) : call :=
  Call (centered_ellipse (s size 256) (s size 200)
          (s size 45 - i * s size 5) (s size 60 - i * s size 8))
       (Some (set_alpha color (255 - i * 40))) None 1.

Definition full_glow : list call :=
  [ glow_ellipse 0 lava_gold; glow_ellipse 1 lava_gold;
    glow_ellipse 2 lava_secondary; glow_ellipse 3 lava_secondary;
    glow_ellipse 4 lava_primary ].

End Closed.
End Picture.

(** ** What a program may write *)

Module Frame.
Import PIL Py Lib.

(** [fs_frame touched m]: however [m] ends, every path outside [touched]
    holds after it what it held before. *)
Definition fs_frame {A} (touched : list string -> Prop) (m : M A) : Prop :=
  forall w p, ~ touched p -> fs (m w).2 !! p = fs w !! p.

(** The paths at or below a directory. *)
Definition below (d : list string) (p : list string) : Prop :=
  d `prefix_of` p.

End Frame.

(** ** What a finished run leaves on disk *)

Module Outputs.
Import PIL Py Lib.

(** The file [dir/name] holds a PNG of [size] x [size]. *)
Definition holds_png (tree : gmap (list string) node) (dir : list string)
  (entry : Z * string) : Prop :=
  exists img, tree !! (dir ++ [entry.2]) = Some (File (Png img))
              /\ im_size img = (entry.1, entry.1).

(** No entry directly inside [dir] is itself a directory. *)
Definition no_subdirectory (tree : gmap (list string) node)
  (dir : list string) : Prop :=
  forall f, tree !! (dir ++ [f]) <> Some Dir.

(** [Path.mkdir(exist_ok=True)] can succeed on [dir]: it is a directory
    already, or it is absent and its parent is a directory. *)
Definition creatable (tree : gmap (list string) node) (dir : list string)
  : Prop :=
  is_dir tree dir = true
  \/ (tree !! dir = None /\ is_dir tree (parent dir) = true).

(** The size and file name of every PNG the vector pipeline is configured
    to write, and the same for the procedural pipeline. *)
Definition configured_pngs : list (Z * string) :=
  ((fun e : Z * string * bool * bool => (e.1.1.1, e.1.1.2))
     <$> GenerateIcons.sizes)
  ++ GenerateIcons.store_sizes.

Definition simple_configured_pngs : list (Z * string) :=
  (fun e : Z * string * bool * string => (e.1.1.1, e.1.1.2))
    <$> SimpleIconGen.icon_configs.

(** What the PNG loops keep true of the world: the output directory is
    in place and holds files only, and, for the vector pipeline, the logo
    is where [main] found it. *)
Definition files_only (tree : gmap (list string) node) (dir : list string)
  : Prop :=
  is_dir tree dir = true /\ no_subdirectory tree dir.

Definition vector_ready (root : list string) (doc : nat) (w : world) : Prop :=
  fs w !! GenerateIcons.svg_path root = Some (File (Svg doc)) /\
  files_only (fs w) (GenerateIcons.icons_dir root).

(** What the loop of [generate_icns] keeps true: the opened master is
    still on the heap, the staging directory holds files only, and nothing
    was printed. *)
Definition staging_ready (base_ref : nat) (base : image)
  (staging : list string) (out : list string) (w : world) : Prop :=
  heap w !! base_ref = Some base /\ files_only (fs w) staging
  /\ stdout w = out.

(** A bundle member for a table entry: the PNG staged under the entry's
    name, of the entry's size. *)
Definition bundles (members : list (list string * image))
  (dir : list string) (entry : Z * string) : Prop :=
  exists img, (dir ++ [entry.2], img) ∈ members
              /\ im_size img = (entry.1, entry.1).

End Outputs.

(** * Properties *)

(** ** Raster buffers *)

Module PILFacts.
Import PIL.

Lemma tabulate_length w h f :
  length (tabulate w h f) = (Z.to_nat w * Z.to_nat h)%nat.
Proof. unfold tabulate. by rewrite length_fmap, length_seq. Qed.

Lemma tabulate_lookup w h f x y :
  0 <= x < w -> 0 <= y < h ->
  tabulate w h f !! Z.to_nat (y * w + x) = Some (f x y).
Proof.
  intros Hx Hy. unfold tabulate.
  rewrite list_lookup_fmap, lookup_seq_lt by nia.
  simpl. rewrite Z2Nat.id by nia.
  f_equal. f_equal.
  - rewrite Z.add_comm, Z.mod_add by lia. apply Z.mod_small; lia.
  - rewrite Z.add_comm, Z.div_add by lia. rewrite Z.div_small; lia.
Qed.

Lemma tabulate_ext w h f g :
  (forall x y, 0 <= x < w -> 0 <= y < h -> f x y = g x y) ->
  tabulate w h f = tabulate w h g.
Proof.
  intros Hfg. unfold tabulate.
  apply list_eq. intros i. rewrite !list_lookup_fmap.
  destruct (seq 0 (Z.to_nat w * Z.to_nat h) !! i) as [j|] eqn:Hj; [|done].
  apply lookup_seq in Hj as [-> Hlt]. simpl. f_equal.
  assert (0 < w) by nia.
  apply Hfg.
  - apply Z.mod_pos_bound; lia.
  - split; [apply Z.div_pos; lia|].
    apply Z.div_lt_upper_bound; nia.
Qed.

Lemma inside_true im x y :
  inside im x y = true <-> 0 <= x < im_width im /\ 0 <= y < im_height im.
Proof. unfold inside. rewrite !andb_true_iff. lia. Qed.

Lemma getpixel_tabulate m w h f x y :
  0 <= x < w -> 0 <= y < h ->
  getpixel (Image m w h (tabulate w h f)) x y = f x y.
Proof.
  intros Hx Hy. unfold getpixel.
  replace (inside _ x y) with true
    by (symmetry; apply inside_true; simpl; lia).
  simpl. by rewrite tabulate_lookup.
Qed.

Lemma getpixel_remap im f x y :
  0 <= x < im_width im -> 0 <= y < im_height im ->
  getpixel (remap im f) x y = f x y (getpixel im x y).
Proof. intros. unfold remap. by rewrite getpixel_tabulate. Qed.

Lemma getpixel_filled m w h c x y :
  0 <= x < w -> 0 <= y < h -> getpixel (filled m w h c) x y = c.
Proof. intros. unfold filled. by rewrite getpixel_tabulate. Qed.

Lemma remap_size im f : im_size (remap im f) = im_size im.
Proof. done. Qed.

Lemma paint_size B c im : im_size (paint B c im) = im_size im.
Proof. done. Qed.

Lemma paint_mode B c im : im_mode (paint B c im) = im_mode im.
Proof. done. Qed.

End PILFacts.

(** ** Running programs *)

Module Run.
Import PIL Py Lib Spec.
Local Open Scope py_scope.

Ltac norm_world :=
  unfold set_heap, set_drawlog, set_fs, set_stdout;
  cbn [heap fs stdout drawlog fst snd im_size im_width im_height im_mode];
  rewrite ?insert_insert_eq.

Lemma bind_ok {A B} (m : M A) (k : A -> M B) w a w' :
  m w = (Ok a, w') -> bind m k w = k a w'.
Proof. unfold bind. by intros ->. Qed.

Lemma bind_raise {A B} (m : M A) (k : A -> M B) w e w' :
  m w = (Raise e, w') -> bind m k w = (Raise e, w').
Proof. unfold bind. by intros ->. Qed.

Lemma bind_exit {A B} (m : M A) (k : A -> M B) w c w' :
  m w = (SysExit c, w') -> bind m k w = (SysExit c, w').
Proof. unfold bind. by intros ->. Qed.

Lemma fresh_heap_None (h : gmap nat image) : h !! fresh (dom h) = None.
Proof. apply not_elem_of_dom, is_fresh. Qed.

Lemma fresh_heap_ne (h : gmap nat image) r im :
  h !! r = Some im -> r <> fresh (dom h).
Proof. intros Hr ->. by rewrite fresh_heap_None in Hr. Qed.

Lemma lookup_insert_fresh (h : gmap nat image) r im x :
  h !! r = Some im -> <[fresh (dom h) := x]> h !! r = Some im.
Proof.
  intros Hr. rewrite lookup_insert_ne; [done|].
  intros Heq. by apply (fresh_heap_ne h r im).
Qed.

Ltac heap_lookup :=
  norm_world;
  repeat first [ eassumption
               | apply lookup_insert_eq
               | apply lookup_insert_fresh ].

(** One step of a run: the first statement of a sequence returns by
    [lem]. *)
Ltac step lem :=
  erewrite bind_ok;
  [ | eapply lem; try heap_lookup; try done; try lia ];
  norm_world.

Lemma box_ok x0 y0 x1 y1 :
  x0 <= x1 -> y0 <= y1 -> (x0 <=? x1) && (y0 <=? y1) = true.
Proof. intros. apply andb_true_iff. rewrite !Z.leb_le. lia. Qed.

Lemma deref_run r w im :
  heap w !! r = Some im -> deref r w = (Ok im, w).
Proof. unfold deref. by intros ->. Qed.

Lemma Image_size_run r w im :
  heap w !! r = Some im -> Image_size r w = (Ok (im_size im), w).
Proof.
  intros Hr. unfold Image_size. by rewrite (bind_ok _ _ _ _ _ (deref_run _ _ _ Hr)).
Qed.

Lemma ImageDraw_Draw_run r w im :
  heap w !! r = Some im -> ImageDraw_Draw r w = (Ok r, w).
Proof.
  intros Hr. unfold ImageDraw_Draw.
  by rewrite (bind_ok _ _ _ _ _ (deref_run _ _ _ Hr)).
Qed.

Lemma Image_new_run m size c w :
  0 <= size.1 -> 0 <= size.2 ->
  Image_new m size c w
  = (Ok (fresh (dom (heap w))),
     set_heap (insert (fresh (dom (heap w))) (filled m size.1 size.2 c)) w).
Proof.
  intros H1 H2. unfold Image_new.
  replace (size.1 <? 0) with false by (symmetry; apply Z.ltb_ge; lia).
  replace (size.2 <? 0) with false by (symmetry; apply Z.ltb_ge; lia).
  done.
Qed.

Lemma Image_new_raise m size c w :
  size.1 < 0 \/ size.2 < 0 ->
  Image_new m size c w
  = (Raise (Exn ValueError "Width and height must be >= 0"), w).
Proof.
  intros Hneg. unfold Image_new.
  replace ((size.1 <? 0) || (size.2 <? 0)) with true; [done|].
  symmetry. apply orb_true_iff. rewrite !Z.ltb_lt. lia.
Qed.

Lemma Draw_run B d c w im :
  heap w !! d = Some im -> shape_ok (c_shape c) = true ->
  Draw B d c w
  = (Ok tt, set_drawlog (fun l => l ++ [c])
              (set_heap (insert d (paint B c im)) w)).
Proof.
  intros Hd Hok. unfold Draw.
  rewrite (bind_ok _ _ _ _ _ (deref_run _ _ _ Hd)).
  unfold bind, log_call. by rewrite Hok.
Qed.

Lemma Image_paste_run dst src box w d s :
  heap w !! dst = Some d -> heap w !! src = Some s ->
  Image_paste dst src box None w
  = (Ok tt, set_heap (insert dst (paste_pixels d s box.1 box.2 None)) w).
Proof.
  intros Hd Hs. unfold Image_paste.
  rewrite (bind_ok _ _ _ _ _ (deref_run _ _ _ Hd)).
  by rewrite (bind_ok _ _ _ _ _ (deref_run _ _ _ Hs)).
Qed.

Lemma Image_paste_mask_run dst src mr box w d s mk :
  heap w !! dst = Some d -> heap w !! src = Some s ->
  heap w !! mr = Some mk -> im_size mk = im_size s ->
  Image_paste dst src box (Some mr) w
  = (Ok tt, set_heap (insert dst (paste_pixels d s box.1 box.2 (Some mk))) w).
Proof.
  intros Hd Hs Hm Hsz. unfold Image_paste.
  rewrite (bind_ok _ _ _ _ _ (deref_run _ _ _ Hd)).
  rewrite (bind_ok _ _ _ _ _ (deref_run _ _ _ Hs)).
  rewrite (bind_ok _ _ _ _ _ (deref_run _ _ _ Hm)).
  by rewrite bool_decide_eq_true_2.
Qed.

Lemma Image_putalpha_run dst alpha w d a :
  heap w !! dst = Some d -> heap w !! alpha = Some a ->
  im_mode a = L -> im_mode d = RGBA -> im_size a = im_size d ->
  Image_putalpha dst alpha w
  = (Ok tt, set_heap (insert dst (putalpha_pixels d a)) w).
Proof.
  intros Hd Ha Hma Hmd Hsz. unfold Image_putalpha.
  rewrite (bind_ok _ _ _ _ _ (deref_run _ _ _ Hd)).
  rewrite (bind_ok _ _ _ _ _ (deref_run _ _ _ Ha)).
  by rewrite !bool_decide_eq_true_2.
Qed.

(** *** The float quotient

    While the dividend stays below [2^53] the float nearest to a
    hundredth of it truncates to the integer quotient: rounding moves the
    value by less than the distance to the next integer. *)
Lemma round_half_even_bounds n d :
  0 <= n -> 0 < d ->
  n / d <= round_half_even n d <= n / d + 1 /\
  (round_half_even n d = n / d + 1 -> d <= 2 * (n mod d)).
Proof.
  intros Hn Hd. unfold round_half_even. cbv zeta.
  destruct (2 * (n mod d) <? d) eqn:H1; [apply Z.ltb_lt in H1; lia|].
  apply Z.ltb_ge in H1.
  destruct (d <? 2 * (n mod d)); [lia|].
  destruct (Z.even (n / d)); lia.
Qed.

Lemma float_hundredth_exact a :
  0 < a < 2 ^ 53 ->
  float_overflows (float_quotient a 100) = false /\
  float_trunc (float_quotient a 100) = a / 100.
Proof.
  intros [Hpos Hlt]. unfold float_quotient. cbv zeta.
  change (Z.log2 100) with 6.
  assert (Hlog : Z.log2 a < 53) by (by apply Z.log2_lt_pow2).
  set (k := Z.log2 a - 6).
  set (e := (if a * 2 ^ Z.max 0 (- k) <? 100 * 2 ^ Z.max 0 k
             then k - 1 else k) - 52).
  assert (He : e <= -6) by (subst e k; destruct (_ <? _); lia).
  unfold float_overflows, float_trunc. cbn [fst snd].
  replace (0 <=? e) with false by (symmetry; apply Z.leb_gt; lia).
  split; [done|].
  rewrite (Z.max_r 0 (- e)) by lia. rewrite (Z.max_l 0 e) by lia.
  change (2 ^ 0) with 1. rewrite Z.mul_1_r.
  set (P := 2 ^ (- e)).
  assert (HP : 64 <= P).
  { change 64 with (2 ^ 6). apply Z.pow_le_mono_r; lia. }
  destruct (round_half_even_bounds (a * P) 100 ltac:(nia) ltac:(lia))
    as [[Hlo Hhi] Hup].
  set (m := round_half_even (a * P) 100) in *.
  pose proof (Z.div_mod a 100 ltac:(lia)) as Hdm.
  pose proof (Z.mod_pos_bound a 100 ltac:(lia)) as Hr.
  pose proof (Z.div_mod (a * P) 100 ltac:(lia)) as HDM.
  pose proof (Z.mod_pos_bound (a * P) 100 ltac:(lia)) as HR.
  set (q := a / 100) in *. set (r := a mod 100) in *.
  set (Q := a * P / 100) in *. set (R := (a * P) mod 100) in *.
  symmetry. apply (Z.div_unique_pos m P q (m - q * P)); [|lia].
  assert (HaP : a * P = 100 * q * P + r * P) by nia.
  split.
  - assert (q * P <= Q) by nia. lia.
  - destruct (Z.eq_dec m (Q + 1)) as [Heq|Hneq].
    + specialize (Hup Heq). nia.
    + assert (m = Q) by lia. nia.
Qed.

Lemma int_truediv_run a w :
  0 <= a < 2 ^ 53 -> int_truediv a 100 w = (Ok (int_div a 100), w).
Proof.
  intros [Ha Hlt]. unfold int_truediv, int_div.
  change (100 =? 0) with false. cbv iota.
  destruct (a =? 0) eqn:H0; [by apply Z.eqb_eq in H0 as ->|].
  apply Z.eqb_neq in H0.
  rewrite Z.abs_eq by lia. change (Z.abs 100) with 100.
  destruct (float_hundredth_exact a ltac:(lia)) as [-> ->].
  rewrite Z.sgn_pos by lia. change (Z.sgn 100) with 1.
  rewrite !Z.mul_1_l, Z.quot_div_nonneg by lia. reflexivity.
Qed.

(** The division touches nothing, however it ends. *)
Lemma int_truediv_pure a b w : (int_truediv a b w).2 = w.
Proof.
  unfold int_truediv. destruct (b =? 0); [done|].
  destruct (a =? 0); [done|]. by destruct (float_overflows _).
Qed.

Lemma int_truediv_no_exit a b w c w' : int_truediv a b w <> (SysExit c, w').
Proof.
  unfold int_truediv. destruct (b =? 0); [done|].
  destruct (a =? 0); [done|]. by destruct (float_overflows _).
Qed.

Lemma Image_filter_GaussianBlur_run B src radius w im :
  heap w !! src = Some im ->
  Image_filter_GaussianBlur B src radius w
  = (Ok (fresh (dom (heap w))),
     set_heap (insert (fresh (dom (heap w))) (blurred B radius im)) w).
Proof.
  intros Hs. unfold Image_filter_GaussianBlur.
  by rewrite (bind_ok _ _ _ _ _ (deref_run _ _ _ Hs)).
Qed.

End Run.

(** ** Corner rounding *)

Module Rounding.
Import PIL Py Lib Spec Run PILFacts.
Local Open Scope py_scope.

Section Rounding.
Context (B : backend).

(** The three ways a call can go once the radius is known: the division
    raised; the radius is negative and the library rejects the mask; the
    radius is not negative and the call returns. *)
Lemma create_rounded_icon_raise w r im p e :
  heap w !! r = Some im ->
  int_truediv (im_width im * p) 100 w = (Raise e, w) ->
  GenerateIcons.create_rounded_icon B r p w = (Raise e, w).
Proof.
  intros Hr Hdiv. unfold GenerateIcons.create_rounded_icon.
  step Image_size_run. by erewrite bind_raise.
Qed.

Lemma create_rounded_icon_rejected w r im p radius :
  heap w !! r = Some im -> 0 <= im_width im ->
  int_truediv (im_width im * p) 100 w = (Ok radius, w) -> radius < 0 ->
  GenerateIcons.create_rounded_icon B r p w
  = (Raise (Exn ValueError "x1 must be greater than or equal to x0"),
     mask_rejected w im radius).
Proof.
  intros Hr Hw Hdiv Hneg. unfold GenerateIcons.create_rounded_icon.
  step Image_size_run.
  rewrite (bind_ok _ _ _ _ _ Hdiv).
  step Image_new_run.
  step ImageDraw_Draw_run.
  unfold Draw_rounded_rectangle, Draw.
  erewrite bind_raise; [reflexivity|].
  erewrite bind_ok; [|apply deref_run; heap_lookup].
  unfold bind, log_call. cbn [c_shape shape_ok shape_complaint].
  replace (0 <=? im_width im) with true by (symmetry; apply Z.leb_le; lia).
  replace (0 <=? radius) with false by (symmetry; apply Z.leb_gt; lia).
  reflexivity.
Qed.

Lemma create_rounded_icon_run_at w r im p radius :
  heap w !! r = Some im -> 0 <= im_width im ->
  int_truediv (im_width im * p) 100 w = (Ok radius, w) -> 0 <= radius ->
  GenerateIcons.create_rounded_icon B r p w
  = (Ok (after_rounding_at B w im radius).1,
     (after_rounding_at B w im radius).2).
Proof.
  intros Hr Hw Hdiv Hrad. unfold GenerateIcons.create_rounded_icon.
  step Image_size_run.
  rewrite (bind_ok _ _ _ _ _ Hdiv).
  step Image_new_run.
  step ImageDraw_Draw_run.
  unfold Draw_rounded_rectangle.
  step Draw_run;
    [|cbn [c_shape shape_ok]; rewrite box_ok by lia; cbn [andb];
      by apply Z.leb_le].
  step Image_new_run.
  step Image_paste_run.
  step Image_putalpha_run.
  reflexivity.
Qed.

(** A radius percentage that is not negative, on a side short enough
    for the product to stay below [2^53]: the radius is the integer
    quotient and is not negative. *)
Lemma create_rounded_icon_run w r im p :
  heap w !! r = Some im -> 0 <= im_width im ->
  0 <= p -> im_width im * p < 2 ^ 53 ->
  GenerateIcons.create_rounded_icon B r p w
  = (Ok (after_rounding B w im p).1, (after_rounding B w im p).2).
Proof.
  intros Hr Hw Hp Hsmall. apply create_rounded_icon_run_at; [done..| |].
  - apply int_truediv_run. split; [nia|exact Hsmall].
  - apply Z.quot_pos; nia.
Qed.

(** Every call goes one of the three ways. *)
Lemma create_rounded_icon_cases w r im p :
  heap w !! r = Some im -> 0 <= im_width im ->
  (exists e, GenerateIcons.create_rounded_icon B r p w = (Raise e, w))
  \/ (exists radius e,
        radius < 0 /\
        GenerateIcons.create_rounded_icon B r p w
        = (Raise e, mask_rejected w im radius))
  \/ (exists radius,
        0 <= radius /\
        int_truediv (im_width im * p) 100 w = (Ok radius, w) /\
        GenerateIcons.create_rounded_icon B r p w
        = (Ok (after_rounding_at B w im radius).1,
           (after_rounding_at B w im radius).2)).
Proof.
  intros Hr Hw.
  pose proof (int_truediv_pure (im_width im * p) 100 w) as Hpure.
  destruct (int_truediv (im_width im * p) 100 w) as [[radius|e|c] w1]
    eqn:Hdiv; cbn [snd] in Hpure; subst w1.
  - destruct (Z_lt_ge_dec radius 0) as [Hneg|Hpos].
    + right. left. eexists radius, _. split; [done|].
      by apply (create_rounded_icon_rejected w r im).
    + right. right. exists radius. split; [lia|]. split; [done|].
      apply (create_rounded_icon_run_at w r im); [done..|lia].
  - left. exists e. by apply (create_rounded_icon_raise w r im).
  - by apply int_truediv_no_exit in Hdiv.
Qed.

(** Both scripts carry the same function. *)
Lemma create_rounded_icon_same :
  SimpleIconGen.create_rounded_icon B = GenerateIcons.create_rounded_icon B.
Proof. reflexivity. Qed.

Lemma after_rounding_at_result w im radius :
  heap (after_rounding_at B w im radius).2 !! (after_rounding_at B w im radius).1
  = Some (rounded_image_at B im radius).
Proof. apply lookup_insert_eq. Qed.

Lemma after_rounding_at_frame w im radius r x :
  heap w !! r = Some x ->
  heap (after_rounding_at B w im radius).2 !! r = Some x.
Proof.
  intros Hr. unfold after_rounding_at. cbn [snd heap].
  by do 2 apply lookup_insert_fresh.
Qed.

Lemma after_rounding_at_fresh w im radius :
  heap w !! (after_rounding_at B w im radius).1 = None.
Proof.
  unfold after_rounding_at. cbn [fst].
  set (m := fresh (dom (heap w))).
  set (h1 := <[m:=_]> (heap w)).
  destruct (heap w !! fresh (dom h1)) as [x|] eqn:Hx; [|done].
  assert (h1 !! fresh (dom h1) = Some x) as Habs
    by (by apply lookup_insert_fresh).
  by rewrite fresh_heap_None in Habs.
Qed.

Lemma mask_rejected_frame w im radius r x :
  heap w !! r = Some x -> heap (mask_rejected w im radius) !! r = Some x.
Proof.
  intros Hr. unfold mask_rejected. cbn [heap].
  by apply lookup_insert_fresh.
Qed.

Lemma after_rounding_result w im p :
  heap (after_rounding B w im p).2 !! (after_rounding B w im p).1
  = Some (rounded_image B im p).
Proof. apply after_rounding_at_result. Qed.

Lemma after_rounding_frame w im p r x :
  heap w !! r = Some x ->
  heap (after_rounding B w im p).2 !! r = Some x.
Proof. apply after_rounding_at_frame. Qed.

Lemma after_rounding_fresh w im p :
  heap w !! (after_rounding B w im p).1 = None.
Proof. apply after_rounding_at_fresh. Qed.

Lemma rounded_image_at_size im radius :
  im_size (rounded_image_at B im radius) = (im_width im, im_width im).
Proof. reflexivity. Qed.

Lemma rounded_image_size im p :
  im_size (rounded_image B im p) = (im_width im, im_width im).
Proof. reflexivity. Qed.

Lemma rounded_image_mode im p : im_mode (rounded_image B im p) = RGBA.
Proof. reflexivity. Qed.

(** Where the pixels of the result come from: colour from the input
    where the input has a pixel, the zero colour elsewhere; alpha from
    the mask. *)
Lemma rounded_image_at_pixel im radius x y :
  0 <= x < im_width im -> 0 <= y < im_width im ->
  getpixel (rounded_image_at B im radius) x y
  = set_alpha
      (if y <? im_height im then convert RGBA (getpixel im x y)
       else PixRGBA 0 0 0 0)
      (mask_value (getpixel (rounded_mask B (im_width im) radius) x y)).
Proof.
  intros Hx Hy. unfold rounded_image_at, putalpha_pixels, paste_pixels.
  rewrite !getpixel_remap by (cbn; lia).
  rewrite getpixel_filled by lia.
  rewrite !Z.sub_0_r. f_equal.
  unfold inside.
  replace (0 <=? x) with true by (symmetry; apply Z.leb_le; lia).
  replace (x <? im_width im) with true by (symmetry; apply Z.ltb_lt; lia).
  replace (0 <=? y) with true by (symmetry; apply Z.leb_le; lia).
  cbn [andb]. reflexivity.
Qed.

Lemma rounded_image_pixel im p x y :
  0 <= x < im_width im -> 0 <= y < im_width im ->
  getpixel (rounded_image B im p) x y
  = set_alpha
      (if y <? im_height im then convert RGBA (getpixel im x y)
       else PixRGBA 0 0 0 0)
      (mask_value
         (getpixel (rounded_mask B (im_width im)
                      (int_div (im_width im * p) 100)) x y)).
Proof. apply rounded_image_at_pixel. Qed.

End Rounding.
End Rounding.

(** ** Shadow synthesis *)

Module Shadow.
Import PIL Py Lib Spec Run PILFacts.
Local Open Scope py_scope.

Section Shadow.
Context (B : backend).

Lemma add_shadow_effect_run w r im color offset blur :
  heap w !! r = Some im -> valid im ->
  0 <= im_width im + blur * 2 -> 0 <= im_height im + blur * 2 ->
  GenerateIcons.add_shadow_effect B r color offset blur w
  = (Ok (after_shadow B w im color offset blur).1,
     (after_shadow B w im color offset blur).2).
Proof.
  intros Hr [Hw Hh] Hew Heh. unfold GenerateIcons.add_shadow_effect.
  step Image_size_run.
  step Image_new_run.
  step ImageDraw_Draw_run.
  step Image_new_run.
  step Image_filter_GaussianBlur_run.
  step Image_new_run.
  step Image_paste_mask_run.
  step Image_paste_mask_run.
  reflexivity.
Qed.

Lemma add_shadow_effect_raise w r im color offset blur :
  heap w !! r = Some im ->
  im_width im + blur * 2 < 0 \/ im_height im + blur * 2 < 0 ->
  GenerateIcons.add_shadow_effect B r color offset blur w
  = (Raise (Exn ValueError "Width and height must be >= 0"), w).
Proof.
  intros Hr Hneg. unfold GenerateIcons.add_shadow_effect.
  step Image_size_run.
  erewrite bind_raise; [reflexivity|].
  by apply Image_new_raise.
Qed.

Lemma after_shadow_result w im color offset blur :
  heap (after_shadow B w im color offset blur).2
    !! (after_shadow B w im color offset blur).1
  = Some (shadowed_image B im color offset blur).
Proof. apply lookup_insert_eq. Qed.

Lemma after_shadow_frame w im color offset blur r x :
  heap w !! r = Some x ->
  heap (after_shadow B w im color offset blur).2 !! r = Some x.
Proof.
  intros Hr. unfold after_shadow. cbn [snd heap].
  by do 4 apply lookup_insert_fresh.
Qed.

Lemma after_shadow_fresh w im color offset blur :
  heap w !! (after_shadow B w im color offset blur).1 = None.
Proof.
  unfold after_shadow. cbn [fst].
  match goal with |- _ !! fresh (dom ?h) = None => set (h3 := h) end.
  destruct (heap w !! fresh (dom h3)) as [x|] eqn:Hx; [|done].
  assert (h3 !! fresh (dom h3) = Some x) as Habs
    by (by do 3 apply lookup_insert_fresh).
  by rewrite fresh_heap_None in Habs.
Qed.

Lemma shadowed_image_size im color offset blur :
  im_size (shadowed_image B im color offset blur) = im_size im.
Proof. reflexivity. Qed.

End Shadow.
End Shadow.

(** ** The post-processing filters: size, idempotence, frame *)

Module Filters.
Import PIL Py Lib Spec Run PILFacts Rounding Shadow Fixture.
Local Open Scope py_scope.

Lemma convert_RGBA_shape q :
  exists r g b a, convert RGBA q = PixRGBA r g b a.
Proof. destruct q; simpl; eauto. Qed.

Lemma remap_ext im im' f g :
  im_mode im = im_mode im' -> im_size im = im_size im' ->
  (forall x y, 0 <= x < im_width im -> 0 <= y < im_height im ->
     f x y (getpixel im x y) = g x y (getpixel im' x y)) ->
  remap im f = remap im' g.
Proof.
  intros Hm Hs Hfg. unfold remap. injection Hs as Hw Hh.
  rewrite <- Hm, <- Hw, <- Hh. f_equal. by apply tabulate_ext.
Qed.

Lemma rounded_image_at_idem B im radius :
  rounded_image_at B (rounded_image_at B im radius) radius
  = rounded_image_at B im radius.
Proof.
  unfold rounded_image_at at 1 3. cbv zeta.
  change (im_width (rounded_image_at B im radius)) with (im_width im).
  unfold putalpha_pixels. apply remap_ext; [reflexivity..|].
  intros x y Hx Hy. cbn in Hx, Hy.
  unfold paste_pixels. rewrite !getpixel_remap by (cbn; lia).
  rewrite !Z.sub_0_r. rewrite getpixel_filled by lia.
  replace (inside (rounded_image_at B im radius) x y) with true
    by (symmetry; apply inside_true; cbn; lia).
  rewrite rounded_image_at_pixel by lia.
  cbn [im_mode filled].
  destruct (inside im x y) eqn:Hin.
  - apply inside_true in Hin.
    replace (y <? im_height im) with true by (symmetry; apply Z.ltb_lt; lia).
    destruct (convert_RGBA_shape (getpixel im x y)) as (r & g & b & a & ->).
    reflexivity.
  - replace (y <? im_height im) with false; [reflexivity|].
    symmetry. apply Z.ltb_ge.
    destruct (Z.lt_ge_cases y (im_height im)) as [Hlt|]; [|lia].
    assert (inside im x y = true) by (apply inside_true; lia).
    congruence.
Qed.

Lemma rounded_image_idem B im p :
  rounded_image B (rounded_image B im p) p = rounded_image B im p.
Proof. apply rounded_image_at_idem. Qed.

Lemma rounded_image_at_alpha B im radius x y :
  0 <= x < im_width im -> 0 <= y < im_width im ->
  mask_value (getpixel (rounded_image_at B im radius) x y)
  = mask_value (getpixel (rounded_mask B (im_width im) radius) x y).
Proof.
  intros Hx Hy. rewrite rounded_image_at_pixel by done.
  destruct (y <? im_height im); [|reflexivity].
  by destruct (convert_RGBA_shape (getpixel im x y)) as (r & g & b & a & ->).
Qed.

(** The radius depends on the side and the percentage, not on the
    world. *)
Lemma int_truediv_anywhere a b w v x :
  int_truediv a b w = (Ok x, w) -> int_truediv a b v = (Ok x, v).
Proof.
  unfold int_truediv. destruct (b =? 0); [done|].
  destruct (a =? 0); [by intros [= <-]|].
  destruct (float_overflows _); [done|]. by intros [= <-].
Qed.

(** A call that returned went the third way. *)
Lemma create_rounded_icon_returned B w r im p r' w' :
  heap w !! r = Some im -> 0 <= im_width im ->
  GenerateIcons.create_rounded_icon B r p w = (Ok r', w') ->
  exists radius,
    0 <= radius /\
    int_truediv (im_width im * p) 100 w = (Ok radius, w) /\
    r' = (after_rounding_at B w im radius).1 /\
    w' = (after_rounding_at B w im radius).2.
Proof.
  intros Hr Hw Hrun.
  destruct (create_rounded_icon_cases B w r im p Hr Hw)
    as [(e & He)|[(radius & e & _ & He)|(radius & Hrad & Hdiv & Hok)]];
    [congruence..|].
  exists radius. rewrite Hok in Hrun. injection Hrun as <- <-. done.
Qed.

(** C9: [create_rounded_icon] sizes its output from the input's width
    alone: for every input image, square or not, every call that returns
    gives an RGBA image of width x width.  The rows of the input below
    the width-th are dropped, rows the input lacks are filled with the
    zero colour, and the height of the input has no part in the size of
    the result.  The call returns for every radius percentage that is
    not negative, as long as the product of width and percentage stays
    below [2^53] (the scripts pass 20); a percentage whose radius is
    negative makes the library reject the mask.  Both scripts carry the
    same function. *)
Theorem create_rounded_icon_square_of_width B w r im p :
  heap w !! r = Some im -> valid im ->
  SimpleIconGen.create_rounded_icon B r p w
    = GenerateIcons.create_rounded_icon B r p w /\
  (0 <= p -> im_width im * p < 2 ^ 53 ->
   exists r' w', GenerateIcons.create_rounded_icon B r p w = (Ok r', w')) /\
  (forall radius,
     int_truediv (im_width im * p) 100 w = (Ok radius, w) -> radius < 0 ->
     exists msg w',
       GenerateIcons.create_rounded_icon B r p w
       = (Raise (Exn ValueError msg), w')) /\
  forall r' w',
    GenerateIcons.create_rounded_icon B r p w = (Ok r', w') ->
    exists out,
      heap w' !! r' = Some out /\
      im_mode out = RGBA /\
      im_width out = im_width im /\ im_height out = im_width im /\
      length (im_data out)
      = (Z.to_nat (im_width im) * Z.to_nat (im_width im))%nat /\
      forall x y, 0 <= x < im_width im -> 0 <= y < im_width im ->
        exists alpha,
          getpixel out x y
          = set_alpha (if y <? im_height im
                       then convert RGBA (getpixel im x y)
                       else PixRGBA 0 0 0 0) alpha.
Proof.
  intros Hr [Hw _]. split; [reflexivity|]. split; [|split].
  - intros Hp Hsmall. eexists _, _. by apply create_rounded_icon_run.
  - intros radius Hdiv Hneg. eexists _, _.
    by apply (create_rounded_icon_rejected B w r im).
  - intros r' w' Hrun.
    destruct (create_rounded_icon_returned B w r im p r' w' Hr Hw Hrun)
      as (radius & Hrad & Hdiv & -> & ->).
    exists (rounded_image_at B im radius).
    split; [apply after_rounding_at_result|].
    repeat split.
    + apply tabulate_length.
    + intros x y Hx Hy. eexists. by apply rounded_image_at_pixel.
Qed.

Lemma create_rounded_icon_square_of_width_witness :
  heap tall_world !! 0%nat = Some tall_image /\ valid tall_image /\
  0 <= 20 /\ im_width tall_image * 20 < 2 ^ 53 /\
  exists r' w' out,
    GenerateIcons.create_rounded_icon plain_backend 0%nat 20 tall_world
      = (Ok r', w') /\
    heap w' !! r' = Some out /\ im_width out = 2 /\ im_height out = 2.
Proof.
  assert (Hl : heap tall_world !! 0%nat = Some tall_image) by reflexivity.
  assert (Hv : valid tall_image) by (split; cbn; lia).
  assert (Hp : 0 <= 20) by lia.
  assert (Hsmall : im_width tall_image * 20 < 2 ^ 53) by (cbn; lia).
  split; [exact Hl|]. split; [exact Hv|]. split; [exact Hp|].
  split; [exact Hsmall|].
  destruct (create_rounded_icon_square_of_width plain_backend tall_world
              0%nat tall_image 20 Hl Hv)
    as (_ & Hreturns & _ & Hsize).
  destruct (Hreturns Hp Hsmall) as (r' & w' & Hrun).
  destruct (Hsize r' w' Hrun) as (out & Hout & _ & Hwd & Hht & _).
  exists r', w', out. repeat split; assumption.
Defined.

(** C5: [create_rounded_icon] is idempotent: whenever a call returns,
    applying it to its result with the same radius percentage returns
    the same image once more.  The alpha of the result is the freshly
    drawn mask, whatever alpha the input had, so the second pass writes
    the values the first one wrote.  The first call returns for every
    radius percentage that is not negative, as long as the product of
    width and percentage stays below [2^53], and the radius is then the
    integer quotient. *)
Theorem create_rounded_icon_idempotent B w r im p :
  heap w !! r = Some im -> valid im ->
  (0 <= p -> im_width im * p < 2 ^ 53 ->
   exists r1 w1,
     GenerateIcons.create_rounded_icon B r p w = (Ok r1, w1) /\
     int_truediv (im_width im * p) 100 w
     = (Ok (int_div (im_width im * p) 100), w)) /\
  forall r1 w1,
    GenerateIcons.create_rounded_icon B r p w = (Ok r1, w1) ->
    exists r2 w2 out radius,
      GenerateIcons.create_rounded_icon B r1 p w1 = (Ok r2, w2) /\
      heap w1 !! r1 = Some out /\
      heap w2 !! r2 = Some out /\
      int_truediv (im_width im * p) 100 w = (Ok radius, w) /\
      0 <= radius /\
      forall x y, 0 <= x < im_width im -> 0 <= y < im_width im ->
        mask_value (getpixel out x y)
        = mask_value (getpixel (rounded_mask B (im_width im) radius) x y).
Proof.
  intros Hr [Hw _]. split.
  - intros Hp Hsmall. eexists _, _.
    split; [by apply create_rounded_icon_run|].
    apply int_truediv_run. split; [nia|done].
  - intros r1 w1 Hrun.
    destruct (create_rounded_icon_returned B w r im p r1 w1 Hr Hw Hrun)
      as (radius & Hrad & Hdiv & -> & ->).
    set (a1 := after_rounding_at B w im radius).
    set (a2 := after_rounding_at B a1.2 (rounded_image_at B im radius) radius).
    exists a2.1, a2.2, (rounded_image_at B im radius), radius.
    split; [|split; [apply after_rounding_at_result|split; [|split; [done|split; [done|]]]]].
    + apply create_rounded_icon_run_at;
        [apply after_rounding_at_result|exact Hw| |exact Hrad].
      change (im_width (rounded_image_at B im radius)) with (im_width im).
      by apply (int_truediv_anywhere _ _ w).
    + subst a2. rewrite after_rounding_at_result. f_equal.
      apply rounded_image_at_idem.
    + intros x y Hx Hy. by apply rounded_image_at_alpha.
Qed.

Lemma create_rounded_icon_idempotent_witness :
  heap tall_world !! 0%nat = Some tall_image /\ valid tall_image /\
  0 <= 20 /\ im_width tall_image * 20 < 2 ^ 53 /\
  exists r1 w1 r2 w2 out,
    GenerateIcons.create_rounded_icon plain_backend 0%nat 20 tall_world
      = (Ok r1, w1) /\
    GenerateIcons.create_rounded_icon plain_backend r1 20 w1 = (Ok r2, w2) /\
    heap w1 !! r1 = Some out /\ heap w2 !! r2 = Some out.
Proof.
  assert (Hl : heap tall_world !! 0%nat = Some tall_image) by reflexivity.
  assert (Hv : valid tall_image) by (split; cbn; lia).
  assert (Hp : 0 <= 20) by lia.
  assert (Hsmall : im_width tall_image * 20 < 2 ^ 53) by (cbn; lia).
  split; [exact Hl|]. split; [exact Hv|]. split; [exact Hp|].
  split; [exact Hsmall|].
  destruct (create_rounded_icon_idempotent plain_backend tall_world
              0%nat tall_image 20 Hl Hv) as (Hreturns & Hagain).
  destruct (Hreturns Hp Hsmall) as (r1 & w1 & H1 & _).
  destruct (Hagain r1 w1 H1) as (r2 & w2 & out & radius & H2 & H3 & H4 & _).
  exists r1, w1, r2, w2, out. repeat split; assumption.
Defined.

Lemma add_shadow_effect_result_size B w r im color offset blur r' w' out :
  heap w !! r = Some im -> valid im ->
  0 <= im_width im + blur * 2 -> 0 <= im_height im + blur * 2 ->
  GenerateIcons.add_shadow_effect B r color offset blur w = (Ok r', w') ->
  heap w' !! r' = Some out ->
  im_width out = im_width im.
Proof.
  intros Hr Hv Hew Heh Hrun Hout.
  rewrite (add_shadow_effect_run B w r im) in Hrun by done.
  assert (Hr' : r' = (after_shadow B w im color offset blur).1) by congruence.
  assert (Hw' : w' = (after_shadow B w im color offset blur).2) by congruence.
  rewrite Hr', Hw', after_shadow_result in Hout. by injection Hout as <-.
Qed.

(** C1, as the code has it: for every input image and every blur radius
    for which the enlarged scratch canvas can be allocated (width and
    height plus twice the radius not negative, so every radius >= 0),
    [add_shadow_effect] returns a canvas of exactly the input's
    dimensions.  The canvas enlarged by twice the blur radius is the
    first object the call allocates (it did not exist before); it is a
    different object from the result; and it is never drawn on: when the
    call returns it still is the blank transparent canvas it was
    allocated as, and the call has handed no drawing call to the
    library. *)
Theorem add_shadow_effect_keeps_size B w r im color offset blur :
  heap w !! r = Some im -> valid im ->
  0 <= im_width im + blur * 2 -> 0 <= im_height im + blur * 2 ->
  exists r' w' out,
    GenerateIcons.add_shadow_effect B r color offset blur w = (Ok r', w') /\
    heap w' !! r' = Some out /\
    im_width out = im_width im /\ im_height out = im_height im /\
    exists s enlarged,
      s = fresh (dom (heap w)) /\ heap w !! s = None /\
      s <> r' /\ heap w' !! s = Some enlarged /\
      enlarged = filled RGBA (im_width im + blur * 2)
                        (im_height im + blur * 2) (PixRGBA 0 0 0 0) /\
      im_width enlarged = im_width im + blur * 2 /\
      im_height enlarged = im_height im + blur * 2 /\
      (forall x y, 0 <= x < im_width enlarged -> 0 <= y < im_height enlarged ->
         getpixel enlarged x y = PixRGBA 0 0 0 0) /\
      drawlog w' = drawlog w.
Proof.
  intros Hr Hv Hew Heh.
  eexists _, _, (shadowed_image B im color offset blur).
  split; [by apply add_shadow_effect_run|].
  split; [apply after_shadow_result|].
  split; [reflexivity|]. split; [reflexivity|].
  exists (fresh (dom (heap w))), (filled RGBA (im_width im + blur * 2)
                                    (im_height im + blur * 2) (PixRGBA 0 0 0 0)).
  assert (Hs : heap (after_shadow B w im color offset blur).2
                 !! fresh (dom (heap w))
               = Some (filled RGBA (im_width im + blur * 2)
                         (im_height im + blur * 2) (PixRGBA 0 0 0 0))).
  { unfold after_shadow. cbn [snd heap].
    do 3 apply lookup_insert_fresh. apply lookup_insert_eq. }
  split; [reflexivity|]. split; [apply fresh_heap_None|].
  split; [|split; [exact Hs|split; [reflexivity|split; [reflexivity|
          split; [reflexivity|split; [|reflexivity]]]]]].
  - unfold after_shadow. cbn [fst]. eapply fresh_heap_ne.
    do 2 apply lookup_insert_fresh. apply lookup_insert_eq.
  - intros x y Hx Hy. cbn [im_width im_height filled] in Hx, Hy.
    by apply getpixel_filled.
Qed.

Lemma add_shadow_effect_keeps_size_witness :
  heap tall_world !! 0%nat = Some tall_image /\ valid tall_image /\
  0 <= im_width tall_image + 4 * 2 /\ 0 <= im_height tall_image + 4 * 2 /\
  exists r' w' out,
    GenerateIcons.add_shadow_effect plain_backend 0%nat
      GenerateIcons.default_shadow_color GenerateIcons.default_offset
      GenerateIcons.default_blur_radius tall_world = (Ok r', w') /\
    heap w' !! r' = Some out /\ im_width out = 2 /\ im_height out = 3.
Proof.
  assert (Hl : heap tall_world !! 0%nat = Some tall_image) by reflexivity.
  assert (Hv : valid tall_image) by (split; cbn; lia).
  assert (Hw : 0 <= im_width tall_image + 4 * 2) by (cbn; lia).
  assert (Hh : 0 <= im_height tall_image + 4 * 2) by (cbn; lia).
  repeat (split; [assumption|]).
  destruct (add_shadow_effect_keeps_size plain_backend tall_world 0%nat
              tall_image GenerateIcons.default_shadow_color
              GenerateIcons.default_offset 4 Hl Hv Hw Hh)
    as (r' & w' & out & Hrun & Hout & Hwd & Hht & _).
  exists r', w', out. repeat split; assumption.
Defined.

(** C1, as stated, fails: on a 2x3 image with the default blur radius 4
    the result is 2x3, not 10x11. *)
Lemma add_shadow_effect_not_enlarged :
  ~ (forall B w r im color offset blur,
       heap w !! r = Some im -> valid im ->
       exists r' w' out,
         GenerateIcons.add_shadow_effect B r color offset blur w
           = (Ok r', w') /\
         heap w' !! r' = Some out /\
         im_width out = im_width im + 2 * blur /\
         im_height out = im_height im + 2 * blur).
Proof.
  intros Hclaim.
  assert (Hl : heap tall_world !! 0%nat = Some tall_image) by reflexivity.
  assert (Hv : valid tall_image) by (split; cbn; lia).
  destruct (Hclaim plain_backend tall_world 0%nat tall_image
              GenerateIcons.default_shadow_color
              GenerateIcons.default_offset 4 Hl Hv)
    as (r' & w' & out & Hrun & Hout & Hwd & _).
  assert (Hsame : im_width out = im_width tall_image).
  { eapply add_shadow_effect_result_size; [exact Hl|exact Hv|..|exact Hrun|exact Hout];
      change (im_width tall_image) with 2; change (im_height tall_image) with 3; lia. }
  rewrite Hsame in Hwd. change (im_width tall_image) with 2 in Hwd. lia.
Qed.

(** C10: [create_rounded_icon] and [add_shadow_effect] leave their
    argument alone.  However the call ends (it returns, the radius cannot
    be computed, or the library rejects a size or a radius), every image
    object that existed before it, the argument among them, holds the
    pixels it held; a returned result is an object that did not exist
    before.  [create_rounded_icon] does return such a result for every
    radius percentage that is not negative, as long as the product of
    width and percentage stays below [2^53]. *)
Theorem filters_leave_argument_untouched B w r im p color offset blur :
  heap w !! r = Some im -> valid im ->
  (heap w ⊆ heap (GenerateIcons.create_rounded_icon B r p w).2 /\
   heap (GenerateIcons.create_rounded_icon B r p w).2 !! r = Some im /\
   (forall r', (GenerateIcons.create_rounded_icon B r p w).1 = Ok r' ->
               heap w !! r' = None) /\
   (0 <= p -> im_width im * p < 2 ^ 53 ->
    exists r', (GenerateIcons.create_rounded_icon B r p w).1 = Ok r')) /\
  (heap w ⊆ heap (GenerateIcons.add_shadow_effect B r color offset blur w).2 /\
   heap (GenerateIcons.add_shadow_effect B r color offset blur w).2 !! r
     = Some im /\
   forall r', (GenerateIcons.add_shadow_effect B r color offset blur w).1
              = Ok r' -> heap w !! r' = None).
Proof.
  intros Hr Hv. split.
  - split; [|split; [|split]].
    4: { intros Hp Hsmall.
         rewrite (create_rounded_icon_run B w r im) by (done || apply Hv).
         by eexists. }
    all: destruct (create_rounded_icon_cases B w r im p Hr (proj1 Hv))
           as [(e & ->)|[(radius & e & _ & ->)|(radius & _ & _ & ->)]];
         cbn [fst snd].
    + done.
    + apply map_subseteq_spec. intros i x Hi.
      by apply mask_rejected_frame.
    + apply map_subseteq_spec. intros i x Hi.
      by apply (after_rounding_at_frame B w im radius).
    + done.
    + by apply mask_rejected_frame.
    + by apply (after_rounding_at_frame B w im radius).
    + discriminate.
    + discriminate.
    + intros r' [= <-]. apply (after_rounding_at_fresh B w im radius).
  - destruct (Z_lt_ge_dec (im_width im + blur * 2) 0) as [Hn|Hwok];
      [|destruct (Z_lt_ge_dec (im_height im + blur * 2) 0) as [Hn|Hhok]].
    1,2: rewrite (add_shadow_effect_raise B w r im) by (done || lia);
         cbn [fst snd]; split; [done|split; [done|discriminate]].
    rewrite (add_shadow_effect_run B w r im) by (done || lia).
    cbn [fst snd]. split; [|split].
    + apply map_subseteq_spec. intros i x Hi.
      by apply (after_shadow_frame B w im color offset blur).
    + by apply (after_shadow_frame B w im color offset blur).
    + intros r' [= <-]. apply (after_shadow_fresh B w im color offset blur).
Qed.

Lemma filters_leave_argument_untouched_witness :
  heap tall_world !! 0%nat = Some tall_image /\ valid tall_image /\
  heap (GenerateIcons.create_rounded_icon plain_backend 0%nat 20
          tall_world).2 !! 0%nat = Some tall_image /\
  (exists r', (GenerateIcons.create_rounded_icon plain_backend 0%nat 20
                 tall_world).1 = Ok r') /\
  heap (GenerateIcons.add_shadow_effect plain_backend 0%nat
          GenerateIcons.default_shadow_color GenerateIcons.default_offset
          4 tall_world).2 !! 0%nat = Some tall_image.
Proof.
  assert (Hl : heap tall_world !! 0%nat = Some tall_image) by reflexivity.
  assert (Hv : valid tall_image) by (split; cbn; lia).
  split; [exact Hl|]. split; [exact Hv|].
  destruct (filters_leave_argument_untouched plain_backend tall_world 0%nat
              tall_image 20 GenerateIcons.default_shadow_color
              GenerateIcons.default_offset 4 Hl Hv)
    as ((_ & H1 & _ & Hret) & (_ & H2 & _)).
  split; [exact H1|]. split; [|exact H2].
  apply Hret; [lia|cbn; lia].
Defined.

End Filters.

(** ** The procedural renderer *)

Module VolcanicFacts.
Import PIL Py Lib Spec Run PILFacts Volcanic Fixture.
Local Open Scope py_scope.

Section Draws.
Context (B : backend) (d : nat).

Lemma paint_all_app cs1 cs2 im :
  paint_all B (cs1 ++ cs2) im = paint_all B cs2 (paint_all B cs1 im).
Proof. apply foldl_app. Qed.

Lemma paint_all_size cs im : im_size (paint_all B cs im) = im_size im.
Proof.
  unfold paint_all. revert im.
  induction cs as [|c cs IH]; intros im; cbn [foldl]; [done|].
  by rewrite IH.
Qed.

Lemma paint_all_mode cs im : im_mode (paint_all B cs im) = im_mode im.
Proof.
  unfold paint_all. revert im.
  induction cs as [|c cs IH]; intros im; cbn [foldl]; [done|].
  by rewrite IH.
Qed.

Lemma draws_ret {A} (a : A) : draws B d (ret a) [] a.
Proof.
  intros _ w im Hd. unfold ret, paint_all. cbn [foldl].
  rewrite app_nil_r, insert_id by done. by destruct w.
Qed.

Lemma draws_Draw c : draws B d (Draw B d c) [c] tt.
Proof.
  intros Hok w im Hd. unfold calls_ok in Hok.
  rewrite Forall_singleton in Hok.
  by rewrite (Draw_run B d c w im Hd Hok).
Qed.

Lemma draws_bind {A C} (m : M A) (k : A -> M C) cs1 cs2 a c :
  draws B d m cs1 a -> draws B d (k a) cs2 c ->
  draws B d (bind m k) (cs1 ++ cs2) c.
Proof.
  intros H1 H2 Hok w im Hd. unfold calls_ok in Hok.
  apply Forall_app in Hok as [Hok1 Hok2].
  rewrite (bind_ok _ _ _ _ _ (H1 Hok1 w im Hd)).
  rewrite (H2 Hok2 _ (paint_all B cs1 im)) by apply lookup_insert_eq.
  cbn. by rewrite insert_insert_eq, paint_all_app, app_assoc.
Qed.

(** A statement that only computes. *)
Lemma draws_pure {A C} (m : M A) (k : A -> M C) cs a c :
  (forall w, m w = (Ok a, w)) -> draws B d (k a) cs c ->
  draws B d (bind m k) cs c.
Proof.
  intros Hm Hk Hok w im Hd. rewrite (bind_ok _ _ _ _ _ (Hm w)).
  by apply Hk.
Qed.

Lemma draws_for_each {A} (l : list A) (body : A -> M unit)
  (f : A -> list call) :
  (forall x, x ∈ l -> draws B d (body x) (f x) tt) ->
  draws B d (for_each l body) (concat (f <$> l)) tt.
Proof.
  induction l as [|x l IH]; intros Hbody; cbn.
  - apply draws_ret.
  - eapply draws_bind.
    + apply Hbody. by left.
    + apply IH. intros y Hy. apply Hbody. by right.
Qed.

Lemma draws_for_each_map {A} (l : list A) (body : A -> M unit)
  (f : A -> call) :
  (forall x, x ∈ l -> draws B d (body x) [f x] tt) ->
  draws B d (for_each l body) (f <$> l) tt.
Proof.
  intros Hbody.
  replace (f <$> l) with (concat ((fun x => [f x]) <$> l)).
  - by apply draws_for_each.
  - induction l as [|x l IH]; cbn; [done|].
    f_equal. apply IH. intros y Hy. apply Hbody. by right.
Qed.

Lemma draws_if (b : bool) (m : M unit) cs :
  draws B d m cs tt ->
  draws B d (if b then m else ret tt) (if b then cs else []) tt.
Proof. destruct b; [done|]. intros _. apply draws_ret. Qed.

End Draws.

Lemma for_fold_ret {A S} (l : list A) (init : S) (g : S -> A -> S) w :
  for_fold l init (fun st x => ret (g st x)) w = (Ok (foldl g init l), w).
Proof.
  revert init. induction l as [|x l IH]; intros init; cbn [for_fold foldl];
    [done|].
  rewrite (bind_ok _ _ w (g init x) w) by done. apply IH.
Qed.

Lemma index_run {A} (l : list A) (j : Z) x w :
  0 <= j -> l !! Z.to_nat j = Some x -> index l j w = (Ok x, w).
Proof.
  intros Hj Hl. unfold index.
  replace (0 <=? j) with true by (symmetry; apply Z.leb_le; lia).
  by rewrite Hl.
Qed.

Lemma elem_of_range j start stop step :
  0 < step -> j ∈ range start stop step ->
  exists k, j = start + k * step /\ 0 <= k /\ start + k * step < stop.
Proof.
  intros Hstep Hj. unfold range in Hj.
  apply list_elem_of_fmap in Hj as (k & -> & Hk).
  apply elem_of_seq in Hk. exists (Z.of_nat k). split; [done|].
  split; [lia|].
  destruct Hk as [_ Hk]. cbn in Hk.
  assert (0 <= (stop - start + step - 1) / step) as Hq.
  { destruct (Z.le_gt_cases 0 ((stop - start + step - 1) / step)); [done|].
    rewrite Z2Nat.nonpos in Hk by lia. lia. }
  assert (Z.of_nat k < (stop - start + step - 1) / step) as Hlt by lia.
  assert (step * ((stop - start + step - 1) / step) <= stop - start + step - 1)
    by (apply Z.mul_div_le; lia).
  nia.
Qed.

Lemma crack_points_length sin_offset size y_pos :
  length (crack_points sin_offset size y_pos)
  = (2 * length (range (s size 210) (s size 302) (Z.max 1 (s size 10))))%nat.
Proof.
  unfold crack_points.
  generalize (range (s size 210) (s size 302) (Z.max 1 (s size 10))).
  intros l.
  assert (forall init : list Z,
            length (foldl (fun points x =>
                             points ++ [x; y_pos + sin_offset size x]) init l)
            = (length init + 2 * length l)%nat) as Hgen.
  { induction l as [|x l IH]; intros init; cbn [foldl length]; [lia|].
    rewrite IH, length_app. cbn [length]. lia. }
  rewrite Hgen. cbn [length]. lia.
Qed.

Lemma at_index_lookup (points : list Z) j :
  0 <= j -> (Z.to_nat j < length points)%nat ->
  points !! Z.to_nat j = Some (at_index points j).
Proof.
  intros Hj Hlt. unfold at_index.
  destruct (lookup_lt_is_Some_2 points (Z.to_nat j) Hlt) as [x ->]. done.
Qed.

Lemma s_nonneg size k : 0 <= size -> 0 <= k -> 0 <= s size k.
Proof.
  intros Hs Hk. unfold s, SimpleIconGen.scaled, int_div.
  apply Z.quot_pos; lia.
Qed.

Lemma s_mono size k1 k2 : 0 <= size -> k1 <= k2 -> s size k1 <= s size k2.
Proof.
  intros Hs Hk. unfold s, SimpleIconGen.scaled, int_div.
  apply Z.quot_le_mono; nia.
Qed.

Lemma centered_ok cx cy rx ry :
  0 <= rx -> 0 <= ry -> shape_ok (centered_ellipse cx cy rx ry) = true.
Proof. intros. apply box_ok; lia. Qed.

(** For a size that is not negative the library accepts every call of
    the renderer. *)
Lemma volcanic_calls_ok sin_offset size :
  0 <= size -> calls_ok (volcanic_calls sin_offset size).
Proof.
  intros Hsize. unfold calls_ok, volcanic_calls.
  assert (H3 := s_nonneg size 3 Hsize ltac:(lia)).
  assert (H3_220 := s_mono size 3 220 Hsize ltac:(lia)).
  repeat rewrite Forall_app. repeat split.
  - apply Forall_singleton. apply centered_ok; apply s_nonneg; lia.
  - unfold ring_calls. apply Forall_fmap, Forall_forall. intros i Hi.
    apply elem_of_range in Hi as (k & -> & Hk & Hlt); [|lia].
    cbn. apply box_ok; lia.
  - apply Forall_singleton. apply box_ok; apply s_mono; lia.
  - by apply Forall_singleton.
  - unfold glow_calls. apply Forall_concat, Forall_fmap, Forall_forall.
    intros i _. cbn. unfold glow_call. cbv zeta.
    destruct ((0 <? s size 45 - i * s size 5)
              && (0 <? s size 60 - i * s size 8)
              && (0 <? 255 - i * 40)) eqn:Hguard; [|by constructor].
    apply andb_true_iff in Hguard as [Hguard _].
    apply andb_true_iff in Hguard as [Hw Hh].
    apply Z.ltb_lt in Hw, Hh.
    apply Forall_singleton. apply centered_ok; lia.
  - unfold crack_calls. apply Forall_concat, Forall_fmap, Forall_forall.
    intros [y_pos [color width]] _. unfold compose, crack_call.
    cbv beta zeta iota.
    match goal with
    | |- Forall _ (if ?b then _ else _) => destruct b; [|by constructor]
    end.
    apply Forall_fmap, Forall_forall. by intros j _.
  - apply Forall_singleton. apply centered_ok; apply s_nonneg; lia.
  - apply Forall_singleton. apply centered_ok; apply s_nonneg; lia.
  - unfold ember_calls. apply Forall_concat, Forall_fmap, Forall_forall.
    intros [[[x y] radius] color] _. cbn.
    destruct (0 <? radius) eqn:Hr; [|by constructor].
    apply Z.ltb_lt in Hr. apply Forall_singleton. apply centered_ok; lia.
  - unfold vent_calls. apply Forall_fmap, Forall_forall. intros x _.
    cbn. assert (H20 := s_nonneg size 20 Hsize ltac:(lia)).
    apply box_ok; lia.
  - unfold core_calls. repeat constructor; apply centered_ok; lia.
Qed.

Section Renderer.
Context (B : backend) (sin_offset : Z -> Z -> Z).

Lemma crack_draws d size crack :
  draws B d
    (let '(y_pos, (color, width)) := crack in
     points <- for_fold (range (s size 210) (s size 302)
                               (Z.max 1 (s size 10))) []
                 (fun points x =>
                    let offset := sin_offset size x in
                    ret (points ++ [x; y_pos + offset])) ;;
     if (4 <=? length points)%nat then
       for_each (range 0 (Z.of_nat (length points) - 2) 2) (fun j =>
         p0 <- index points j ;;
         p1 <- index points (j + 1) ;;
         p2 <- index points (j + 2) ;;
         p3 <- index points (j + 3) ;;
         Draw_line B d (p0, p1, p2, p3) color width)
     else ret tt)
    (crack_call sin_offset size crack) tt.
Proof.
  destruct crack as [y_pos [color width]].
  eapply draws_pure; [intros w; apply for_fold_ret|].
  unfold crack_call. fold (crack_points sin_offset size y_pos).
  set (points := crack_points sin_offset size y_pos).
  apply draws_if. apply draws_for_each_map. intros j Hj.
  apply elem_of_range in Hj as (k & -> & Hk & Hlt); [|lia].
  assert (Heven := crack_points_length sin_offset size y_pos).
  fold points in Heven.
  eapply draws_pure;
    [intros w; apply index_run; [lia|apply at_index_lookup; lia]|].
  eapply draws_pure;
    [intros w; apply index_run; [lia|apply at_index_lookup; lia]|].
  eapply draws_pure;
    [intros w; apply index_run; [lia|apply at_index_lookup; lia]|].
  eapply draws_pure;
    [intros w; apply index_run; [lia|apply at_index_lookup; lia]|].
  apply draws_Draw.
Qed.

(** The renderer allocates one canvas and issues exactly
    [volcanic_calls size] on it. *)
Lemma create_volcanic_icon_run size w :
  0 <= size -> calls_ok (volcanic_calls sin_offset size) ->
  SimpleIconGen.create_volcanic_icon B sin_offset size w
  = (Ok (fresh (dom (heap w))),
     World (<[fresh (dom (heap w)) := volcanic_image sin_offset size B]>
              (heap w))
           (fs w) (stdout w)
           (drawlog w ++ volcanic_calls sin_offset size)).
Proof.
  intros Hsize Hok. unfold SimpleIconGen.create_volcanic_icon.
  step Image_new_run.
  step ImageDraw_Draw_run.
  set (d := fresh (dom (heap w))).
  match goal with
  | |- ?m ?w1 = _ =>
      assert (Hdraws : draws B d m (volcanic_calls sin_offset size) d)
  end.
  { unfold volcanic_calls.
    eapply draws_bind; [apply draws_Draw|].
    eapply draws_bind;
      [apply draws_for_each_map; intros i _; apply draws_Draw|].
    eapply draws_bind; [apply draws_Draw|].
    eapply draws_bind; [apply draws_Draw|].
    eapply draws_bind;
      [apply (draws_for_each B d _ _ (glow_call size)); intros i _;
       apply draws_if, draws_Draw|].
    eapply draws_bind;
      [apply (draws_for_each B d _ _ (crack_call sin_offset size));
       intros c _; apply crack_draws|].
    eapply draws_bind; [apply draws_Draw|].
    eapply draws_bind; [apply draws_Draw|].
    eapply draws_bind;
      [apply (draws_for_each B d _ _ ember_call);
       intros [[[x y] radius] color] _; apply draws_if, draws_Draw|].
    eapply draws_bind;
      [apply draws_for_each_map; intros x _; apply draws_Draw|].
    change (core_calls size)
      with ([Call (centered_ellipse (center size) (s size 200)
                     (Z.max 1 (s size 12)) (Z.max 1 (s size 12)))
                  (Some SimpleIconGen.lava_gold) None 1]
            ++ [Call (centered_ellipse (center size) (s size 200)
                        (Z.max 1 (s size 6)) (Z.max 1 (s size 6)))
                     (Some (PixRGBA 255 255 255 200)) None 1] ++ []).
    eapply draws_bind; [apply draws_Draw|].
    eapply draws_bind; [apply draws_Draw|].
    apply draws_ret. }
  rewrite (Hdraws Hok _ (filled RGBA size size (PixRGBA 0 0 0 0)))
    by apply lookup_insert_eq.
  norm_world. reflexivity.
Qed.

Lemma create_volcanic_icon_raise size w :
  size < 0 ->
  SimpleIconGen.create_volcanic_icon B sin_offset size w
  = (Raise (Exn ValueError "Width and height must be >= 0"), w).
Proof.
  intros Hneg. unfold SimpleIconGen.create_volcanic_icon.
  erewrite bind_raise; [reflexivity|].
  apply Image_new_raise. cbn. lia.
Qed.

Lemma volcanic_image_size size :
  im_size (volcanic_image sin_offset size B) = (size, size).
Proof. unfold volcanic_image. by rewrite paint_all_size. Qed.

(** C3, as the code has it: for every target size >= 1,
    [create_volcanic_icon] returns normally.  Every bounding box it
    hands to the library is well ordered.  The glow ellipses and the
    ember dots whose scaled radius computes to 0 or less are skipped;
    none of those that are drawn is degenerate. *)
Theorem create_volcanic_icon_returns size w :
  1 <= size ->
  exists r w',
    SimpleIconGen.create_volcanic_icon B sin_offset size w = (Ok r, w') /\
    drawlog w' = drawlog w ++ volcanic_calls sin_offset size /\
    calls_ok (volcanic_calls sin_offset size) /\
    (forall i, s size 45 - i * s size 5 <= 0
               \/ s size 60 - i * s size 8 <= 0 ->
               glow_call size i = []) /\
    (forall x y radius color,
        radius <= 0 -> ember_call (x, y, radius, color) = []) /\
    Forall (fun c => degenerate (c_shape c) = false)
           (glow_calls size ++ ember_calls size).
Proof.
  intros Hsize.
  assert (Hok : calls_ok (volcanic_calls sin_offset size))
    by (apply volcanic_calls_ok; lia).
  eexists _, _. split; [apply create_volcanic_icon_run; [lia|exact Hok]|].
  split; [reflexivity|]. split; [exact Hok|].
  split; [|split].
  - intros i Hi. unfold glow_call. cbv zeta.
    replace ((0 <? s size 45 - i * s size 5)
             && (0 <? s size 60 - i * s size 8)) with false; [done|].
    symmetry. apply andb_false_iff. rewrite !Z.ltb_ge. lia.
  - intros x y radius color Hr. unfold ember_call.
    replace (0 <? radius) with false; [done|].
    symmetry. apply Z.ltb_ge. lia.
  - apply Forall_app. split.
    + unfold glow_calls. apply Forall_concat, Forall_fmap, Forall_forall.
      intros i _. unfold compose, glow_call. cbv zeta.
      match goal with
      | |- Forall _ (if ?b then _ else _) =>
          destruct b eqn:Hguard; [|by constructor]
      end.
      apply andb_true_iff in Hguard as [Hguard _].
      apply andb_true_iff in Hguard as [Hw Hh].
      apply Z.ltb_lt in Hw, Hh.
      apply Forall_singleton. cbn.
      apply orb_false_iff. rewrite !Z.leb_gt. lia.
    + unfold ember_calls. apply Forall_concat, Forall_fmap, Forall_forall.
      intros [[[x y] radius] color] _. unfold compose, ember_call.
      destruct (0 <? radius) eqn:Hr; [|by constructor].
      apply Z.ltb_lt in Hr. apply Forall_singleton. cbn.
      apply orb_false_iff. rewrite !Z.leb_gt. lia.
Qed.

(** C4: [create_volcanic_icon] is deterministic.  Two invocations with
    the same resolution, from any two worlds (so also one after the
    other), end the same way: both return a canvas, with the same mode,
    size and pixels, or both raise the same error. *)
Theorem create_volcanic_icon_deterministic size w1 w2 :
  match SimpleIconGen.create_volcanic_icon B sin_offset size w1,
        SimpleIconGen.create_volcanic_icon B sin_offset size w2 with
  | (Ok r1, w1'), (Ok r2, w2') =>
      exists im, heap w1' !! r1 = Some im /\ heap w2' !! r2 = Some im
  | (Raise e1, _), (Raise e2, _) => e1 = e2
  | _, _ => False
  end.
Proof.
  destruct (Z_lt_ge_dec size 0) as [Hneg|Hpos].
  - by rewrite !create_volcanic_icon_raise.
  - rewrite !create_volcanic_icon_run
      by (lia || apply volcanic_calls_ok; lia).
    exists (volcanic_image sin_offset size B).
    split; apply lookup_insert_eq.
Qed.

End Renderer.

Lemma create_volcanic_icon_returns_witness :
  1 <= 1 /\
  exists r w',
    SimpleIconGen.create_volcanic_icon plain_backend (fun _ _ => 0) 1
      empty_world = (Ok r, w').
Proof.
  split; [lia|].
  destruct (create_volcanic_icon_returns plain_backend (fun _ _ => 0) 1
              empty_world ltac:(lia)) as (r & w' & Hrun & _).
  by exists r, w'.
Defined.

(** C3, as stated, fails: at size 1 the background circle has the scaled
    radius [int(240 / 512) = 0] and is drawn all the same, as the
    ellipse on the box (0, 0, 0, 0). *)
Lemma create_volcanic_icon_draws_degenerate :
  ~ (forall B sin_offset size w, 1 <= size ->
       exists r w',
         SimpleIconGen.create_volcanic_icon B sin_offset size w = (Ok r, w') /\
         Forall (fun c => degenerate (c_shape c) = false)
                (drop (length (drawlog w)) (drawlog w'))).
Proof.
  intros Hclaim.
  destruct (Hclaim plain_backend (fun _ _ => 0) 1 empty_world ltac:(lia))
    as (r & w' & Hrun & Hall).
  rewrite create_volcanic_icon_run in Hrun
    by (lia || apply volcanic_calls_ok; lia).
  assert (Hlog : drawlog w' = volcanic_calls (fun _ _ => 0) 1)
    by (assert (Hw : w' = World
                   (<[fresh (dom (heap empty_world)) :=
                        volcanic_image (fun _ _ => 0) 1 plain_backend]>
                      (heap empty_world))
                   (fs empty_world) (stdout empty_world)
                   (drawlog empty_world ++ volcanic_calls (fun _ _ => 0) 1))
          by congruence; by rewrite Hw).
  rewrite Hlog in Hall. change (length (drawlog empty_world)) with 0%nat in Hall.
  rewrite drop_0 in Hall.
  assert (Hbg : Call (Ellipse 0 0 0 0) (Some SimpleIconGen.obsidian_dark)
                     None 1 ∈ volcanic_calls (fun _ _ => 0) 1)
    by (vm_compute; left).
  rewrite Forall_forall in Hall. specialize (Hall _ Hbg). discriminate Hall.
Qed.

End VolcanicFacts.

(** ** The batch drivers: one configuration entry *)

Module Entries.
Import PIL Py Lib Spec Run PILFacts Rounding Shadow Volcanic VolcanicFacts
       Fixture.
Local Open Scope py_scope.

Lemma print_run line w :
  print line w = (Ok tt, set_stdout (fun out => out ++ [line]) w).
Proof. reflexivity. Qed.

Lemma write_file_run H p c w :
  writable H (fs w) p ->
  write_file H p c w = (Ok tt, set_fs (insert p (File c)) w).
Proof.
  intros (Hparent & Hnodir & Hw). unfold write_file.
  by rewrite Hparent, Hnodir, Hw.
Qed.

Lemma Image_save_PNG_run H r p w im :
  heap w !! r = Some im -> writable H (fs w) p ->
  Image_save_PNG H r p w = (Ok tt, set_fs (insert p (File (Png im))) w).
Proof.
  intros Hr Hp. unfold Image_save_PNG.
  rewrite (bind_ok _ _ _ _ _ (deref_run _ _ _ Hr)).
  by apply write_file_run.
Qed.

Lemma cairosvg_svg2png_run H svg_path size w doc :
  fs w !! svg_path = Some (File (Svg doc)) -> 0 < size ->
  cairosvg_svg2png H svg_path size w
  = (Ok (Image RGBA size size (tabulate size size (svg_pixel H doc size))), w).
Proof.
  intros Hsvg Hsize. unfold cairosvg_svg2png. rewrite Hsvg.
  by replace (0 <? size) with true by (symmetry; apply Z.ltb_lt; lia).
Qed.

Section Entry.
Context (B : backend) (H : host).

Lemma maybe_rounded_run (b : bool) r p w im :
  heap w !! r = Some im -> 0 <= im_width im ->
  0 <= p -> im_width im * p < 2 ^ 53 ->
  exists r' w',
    (if b then GenerateIcons.create_rounded_icon B r p else ret r) w
      = (Ok r', w') /\
    heap w' !! r' = Some (if b then rounded_image B im p else im) /\
    fs w' = fs w /\ stdout w' = stdout w.
Proof.
  intros Hr Hw Hp Hsmall. destruct b.
  - eexists _, _. split; [by apply create_rounded_icon_run|].
    split; [apply after_rounding_result|done].
  - by exists r, w.
Qed.

Lemma maybe_shadowed_run (b : bool) r w im :
  heap w !! r = Some im -> valid im ->
  exists r' w',
    (if b then GenerateIcons.add_shadow_effect B r
                 GenerateIcons.default_shadow_color
                 GenerateIcons.default_offset
                 GenerateIcons.default_blur_radius
     else ret r) w = (Ok r', w') /\
    heap w' !! r'
      = Some (if b then shadowed_image B im
                          GenerateIcons.default_shadow_color
                          GenerateIcons.default_offset
                          GenerateIcons.default_blur_radius
              else im) /\
    fs w' = fs w /\ stdout w' = stdout w.
Proof.
  intros Hr Hv. destruct b.
  - eexists _, _. split.
    + apply add_shadow_effect_run; [done..| |];
        unfold GenerateIcons.default_blur_radius; destruct Hv; lia.
    + split; [apply after_shadow_result|done].
  - by exists r, w.
Qed.

Lemma processed_size im rounded shadow :
  im_width im = im_height im ->
  im_size (processed B im rounded shadow) = im_size im.
Proof.
  intros Hsq. unfold processed, im_size.
  destruct rounded, shadow; cbn; congruence.
Qed.

(** One entry of the vector pipeline: the file written holds the
    processed raster. *)
Lemma generate_png_from_svg_run svg_path size out rounded shadow w doc :
  0 < size -> size * GenerateIcons.default_radius_percent < 2 ^ 53 ->
  fs w !! svg_path = Some (File (Svg doc)) ->
  writable H (fs w) out ->
  exists w',
    GenerateIcons.generate_png_from_svg B H svg_path size out rounded
      shadow w = (Ok tt, w') /\
    fs w' = <[out := File (Png (processed B (rasterised H doc size)
                                  rounded shadow))]> (fs w).
Proof.
  intros Hsize Hsmall Hsvg Hout. unfold GenerateIcons.generate_png_from_svg.
  step print_run.
  step cairosvg_svg2png_run.
  unfold Image_open_data_RGBA. erewrite bind_ok; [|reflexivity].
  norm_world. fold (rasterised H doc size).
  match goal with
  | |- context [bind (if rounded then _ else _) _ ?w0] =>
      destruct (maybe_rounded_run rounded (fresh (dom (heap w)))
                  GenerateIcons.default_radius_percent w0
                  (rasterised H doc size))
        as (r1 & w1 & Hrun1 & Hres1 & Hfs1 & _);
      [apply lookup_insert_eq | cbn; lia | done | exact Hsmall | ]
  end.
  rewrite (bind_ok _ _ _ _ _ Hrun1).
  destruct (maybe_shadowed_run shadow r1 w1 _ Hres1)
    as (r2 & w2 & Hrun2 & Hres2 & Hfs2 & _).
  { destruct rounded; split; cbn; lia. }
  rewrite (bind_ok _ _ _ _ _ Hrun2).
  rewrite (Image_save_PNG_run H r2 out w2 _ Hres2)
    by (by rewrite Hfs2, Hfs1).
  eexists. split; [reflexivity|]. cbn. by rewrite Hfs2, Hfs1.
Qed.

(** One entry of the procedural pipeline. *)
Lemma generate_entry_run sin_offset root size filename rounded descr w :
  0 <= size -> size * SimpleIconGen.default_radius_percent < 2 ^ 53 ->
  writable H (fs w) (SimpleIconGen.icons_dir root ++ [filename]) ->
  exists w',
    SimpleIconGen.generate_entry B H sin_offset root
      (size, filename, rounded, descr) w = (Ok tt, w') /\
    fs w' = <[SimpleIconGen.icons_dir root ++ [filename] :=
                File (Png (if rounded
                           then rounded_image B
                                  (volcanic_image sin_offset size B)
                                  SimpleIconGen.default_radius_percent
                           else volcanic_image sin_offset size B))]> (fs w).
Proof.
  intros Hsize Hsmall Hout. unfold SimpleIconGen.generate_entry.
  step print_run.
  rewrite (bind_ok _ _ _ _ _
             (create_volcanic_icon_run B sin_offset size _ Hsize
                (volcanic_calls_ok sin_offset size Hsize))).
  norm_world.
  match goal with
  | |- context [bind (if rounded then _ else _) _ ?w0] =>
      destruct (maybe_rounded_run rounded (fresh (dom (heap w)))
                  SimpleIconGen.default_radius_percent w0
                  (volcanic_image sin_offset size B))
        as (r1 & w1 & Hrun1 & Hres1 & Hfs1 & _);
      [apply lookup_insert_eq
      | change (0 <= (im_size (volcanic_image sin_offset size B)).1);
        rewrite volcanic_image_size; cbn; lia
      | done
      | change ((im_size (volcanic_image sin_offset size B)).1
                * SimpleIconGen.default_radius_percent < 2 ^ 53);
        rewrite volcanic_image_size; exact Hsmall
      | ]
  end.
  change (SimpleIconGen.create_rounded_icon B)
    with (GenerateIcons.create_rounded_icon B).
  rewrite (bind_ok _ _ _ _ _ Hrun1).
  rewrite (Image_save_PNG_run H r1 _ w1 _ Hres1) by (by rewrite Hfs1).
  eexists. split; [reflexivity|]. cbn. by rewrite Hfs1.
Qed.

Lemma sizes_positive :
  Forall (fun e : Z * string * bool * bool => 0 < e.1.1.1)
         GenerateIcons.sizes.
Proof. repeat constructor. Qed.

Lemma store_sizes_positive :
  Forall (fun e : Z * string => 0 < e.1) GenerateIcons.store_sizes.
Proof. repeat constructor. Qed.

Lemma icon_configs_positive :
  Forall (fun e : Z * string * bool * string => 0 < e.1.1.1)
         SimpleIconGen.icon_configs.
Proof. repeat constructor. Qed.

(** Every configured size is far below the range in which the radius
    of the rounded corners stops being the integer quotient. *)
Lemma sizes_small :
  Forall (fun e : Z * string * bool * bool =>
            e.1.1.1 * GenerateIcons.default_radius_percent < 2 ^ 53)
         GenerateIcons.sizes.
Proof. repeat constructor. Qed.

Lemma store_sizes_small :
  Forall (fun e : Z * string =>
            e.1 * GenerateIcons.default_radius_percent < 2 ^ 53)
         GenerateIcons.store_sizes.
Proof. repeat constructor. Qed.

Lemma icon_configs_small :
  Forall (fun e : Z * string * bool * string =>
            e.1.1.1 * SimpleIconGen.default_radius_percent < 2 ^ 53)
         SimpleIconGen.icon_configs.
Proof. repeat constructor. Qed.

(** C2: for every configured target size the raster written for that
    entry, after the enabled corner rounding and shadow, is exactly
    size x size.  This covers the core table and the store table of the
    vector pipeline (the store entries are rounded and not shadowed) and
    the table of the procedural pipeline. *)
Theorem configured_raster_has_requested_size sin_offset root w :
  (forall size filename rounded shadow doc,
      (size, filename, rounded, shadow) ∈ GenerateIcons.sizes
      \/ ((size, filename) ∈ GenerateIcons.store_sizes
          /\ rounded = true /\ shadow = false) ->
      fs w !! GenerateIcons.svg_path root = Some (File (Svg doc)) ->
      writable H (fs w) (GenerateIcons.icons_dir root ++ [filename]) ->
      exists w' img,
        GenerateIcons.generate_png_from_svg B H
          (GenerateIcons.svg_path root) size
          (GenerateIcons.icons_dir root ++ [filename]) rounded shadow w
          = (Ok tt, w') /\
        fs w' !! (GenerateIcons.icons_dir root ++ [filename])
          = Some (File (Png img)) /\
        im_width img = size /\ im_height img = size) /\
  (forall size filename rounded descr,
      (size, filename, rounded, descr) ∈ SimpleIconGen.icon_configs ->
      writable H (fs w) (SimpleIconGen.icons_dir root ++ [filename]) ->
      exists w' img,
        SimpleIconGen.generate_entry B H sin_offset root
          (size, filename, rounded, descr) w = (Ok tt, w') /\
        fs w' !! (SimpleIconGen.icons_dir root ++ [filename])
          = Some (File (Png img)) /\
        im_width img = size /\ im_height img = size).
Proof.
  split.
  - intros size filename rounded shadow doc Hin Hsvg Hout.
    assert (0 < size) as Hsize.
    { destruct Hin as [Hin|(Hin & _ & _)].
      - apply (proj1 (Forall_forall _ _) sizes_positive _ Hin).
      - apply (proj1 (Forall_forall _ _) store_sizes_positive _ Hin). }
    assert (size * GenerateIcons.default_radius_percent < 2 ^ 53) as Hsmall.
    { destruct Hin as [Hin|(Hin & _ & _)].
      - apply (proj1 (Forall_forall _ _) sizes_small _ Hin).
      - apply (proj1 (Forall_forall _ _) store_sizes_small _ Hin). }
    destruct (generate_png_from_svg_run
                (GenerateIcons.svg_path root) size
                (GenerateIcons.icons_dir root ++ [filename])
                rounded shadow w doc Hsize Hsmall Hsvg Hout)
      as (w' & Hrun & Hfs).
    exists w', (processed B (rasterised H doc size) rounded shadow).
    split; [exact Hrun|].
    split; [rewrite Hfs; apply lookup_insert_eq|].
    assert (Hsz := processed_size (rasterised H doc size) rounded shadow
                     eq_refl).
    unfold im_size in Hsz. cbn [rasterised im_width im_height] in Hsz.
    by injection Hsz.
  - intros size filename rounded descr Hin Hout.
    assert (0 < size) as Hsize
      by apply (proj1 (Forall_forall _ _) icon_configs_positive _ Hin).
    assert (size * SimpleIconGen.default_radius_percent < 2 ^ 53) as Hsmall
      by apply (proj1 (Forall_forall _ _) icon_configs_small _ Hin).
    destruct (generate_entry_run sin_offset root size filename rounded
                descr w ltac:(lia) Hsmall Hout) as (w' & Hrun & Hfs).
    eexists w', _. split; [exact Hrun|].
    split; [rewrite Hfs; apply lookup_insert_eq|].
    assert (Hsz := volcanic_image_size B sin_offset size).
    unfold im_size in Hsz. injection Hsz as Hw Hh.
    destruct rounded; cbn; done.
Qed.

End Entry.

Lemma configured_raster_has_requested_size_witness :
  (128, "128x128.png", true, true) ∈ GenerateIcons.sizes /\
  fs checkout !! GenerateIcons.svg_path root = Some (File (Svg 7)) /\
  writable plain_host (fs checkout)
    (GenerateIcons.icons_dir root ++ ["128x128.png"]) /\
  exists w' img,
    GenerateIcons.generate_png_from_svg plain_backend plain_host
      (GenerateIcons.svg_path root) 128
      (GenerateIcons.icons_dir root ++ ["128x128.png"]) true true checkout
      = (Ok tt, w') /\
    fs w' !! (GenerateIcons.icons_dir root ++ ["128x128.png"])
      = Some (File (Png img)) /\
    im_width img = 128 /\ im_height img = 128.
Proof.
  assert (Hin : (128, "128x128.png", true, true) ∈ GenerateIcons.sizes)
    by (right; left).
  assert (Hsvg : fs checkout !! GenerateIcons.svg_path root
                 = Some (File (Svg 7))) by reflexivity.
  assert (Hout : writable plain_host (fs checkout)
                   (GenerateIcons.icons_dir root ++ ["128x128.png"]))
    by (repeat split; reflexivity).
  repeat (split; [assumption|]).
  exact (proj1 (configured_raster_has_requested_size plain_backend
                  plain_host (fun _ _ => 0) root checkout)
               128 "128x128.png" true true 7%nat (or_introl Hin) Hsvg Hout).
Defined.

End Entries.

(** ** The batch drivers: fatal and recoverable failures *)

Module Drivers.
Import PIL Py Lib Spec Run PILFacts Entries Fixture.
Local Open Scope py_scope.

Lemma bind_assoc {A B C} (m : M A) (k : A -> M B) (k' : B -> M C) w :
  bind (bind m k) k' w = bind m (fun a => bind (k a) k') w.
Proof. unfold bind. by destruct (m w) as [[a|e|c] w1]. Qed.

Lemma bind_ext {A B} (m : M A) (k k' : A -> M B) w :
  (forall a w1, k a w1 = k' a w1) -> bind m k w = bind m k' w.
Proof. intros Hk. unfold bind. by destruct (m w) as [[a|e|c] w1]. Qed.

Section Mains.
Context (B : backend) (H : host) (root : list string).

Lemma main_split w :
  GenerateIcons.main B H root w
  = (main_pngs B H root ;;; main_packaging B H root) w.
Proof.
  unfold GenerateIcons.main, main_pngs.
  rewrite bind_assoc. apply bind_ext. intros _ w1.
  rewrite bind_assoc. apply bind_ext. intros found w2.
  rewrite bind_assoc. apply bind_ext. intros _ w3.
  rewrite bind_assoc. apply bind_ext. intros _ w4.
  rewrite bind_assoc. apply bind_ext. intros _ w5.
  rewrite bind_assoc. apply bind_ext. intros _ w6.
  rewrite bind_assoc. apply bind_ext. intros _ w7.
  reflexivity.
Qed.

Lemma simple_main_split sin_offset w :
  SimpleIconGen.main B H sin_offset root w
  = (simple_main_pngs B H sin_offset root
     ;;; simple_main_packaging B H sin_offset root) w.
Proof.
  unfold SimpleIconGen.main, simple_main_pngs.
  rewrite bind_assoc. apply bind_ext. intros _ w1.
  rewrite bind_assoc. apply bind_ext. intros _ w2.
  rewrite bind_assoc. apply bind_ext. intros _ w3.
  reflexivity.
Qed.

Lemma generate_icns_body_split png icns w :
  GenerateIcons.generate_icns_body B H png icns w
  = (icns_stage B H png icns ;;; icns_package H icns) w.
Proof.
  unfold GenerateIcons.generate_icns_body, icns_stage. cbv zeta.
  rewrite bind_assoc. apply bind_ext. intros _ w1.
  rewrite bind_assoc. apply bind_ext. intros base w2.
  reflexivity.
Qed.

Lemma svg_path_lookup_dir (tree : gmap (list string) node) :
  tree !! GenerateIcons.svg_path root = None ->
  is_dir tree (GenerateIcons.svg_path root) = false.
Proof.
  intros Hnone. unfold is_dir, GenerateIcons.svg_path.
  destruct root; cbn; rewrite bool_decide_eq_false_2; try done;
    unfold GenerateIcons.svg_path in Hnone; cbn in Hnone; by rewrite Hnone.
Qed.

(** C6: when the SVG source file does not exist the run of the vector
    pipeline ends at once with a non-zero exit status, and the file system
    is what it was: no PNG, and nothing else, has been written.  With the
    packages importable the run ends in [sys.exit(1)] after one line, the
    error message. *)
Theorem missing_svg_aborts_before_output w :
  fs w !! GenerateIcons.svg_path root = None ->
  exit_status (GenerateIcons.run B H root w).1 <> 0 /\
  fs (GenerateIcons.run B H root w).2 = fs w /\
  (importable H = true ->
   GenerateIcons.run B H root w
   = (SysExit 1,
      set_stdout (fun out => out ++ ["Error: SVG file not found at "
                                     +:+ path_str (GenerateIcons.svg_path root)])
                 w)).
Proof.
  intros Hnone.
  assert (Hexists : Path_exists (GenerateIcons.svg_path root) w = (Ok false, w)).
  { unfold Path_exists. rewrite (svg_path_lookup_dir _ Hnone), Hnone.
    rewrite bool_decide_eq_false_2; [done|]. by intros [x Hx]. }
  unfold GenerateIcons.run, GenerateIcons.import_dependencies.
  destruct (importable H) eqn:Himp.
  - assert (GenerateIcons.main B H root w
            = (SysExit 1,
               set_stdout (fun out => out ++ ["Error: SVG file not found at "
                             +:+ path_str (GenerateIcons.svg_path root)]) w))
      as Hmain.
    { unfold GenerateIcons.main, GenerateIcons.import_dependencies.
      rewrite Himp.
      erewrite bind_ok; [|reflexivity].
      rewrite (bind_ok _ _ _ _ _ Hexists). reflexivity. }
    erewrite bind_ok; [|reflexivity]. rewrite Hmain. done.
  - erewrite bind_raise; [|reflexivity]. done.
Qed.

End Mains.

Lemma missing_svg_aborts_before_output_witness :
  fs checkout_without_logo !! GenerateIcons.svg_path Fixture.root = None /\
  exit_status (GenerateIcons.run plain_backend plain_host Fixture.root
                 checkout_without_logo).1 <> 0 /\
  fs (GenerateIcons.run plain_backend plain_host Fixture.root
        checkout_without_logo).2 = fs checkout_without_logo.
Proof.
  assert (Hnone : fs checkout_without_logo
                    !! GenerateIcons.svg_path Fixture.root = None)
    by reflexivity.
  split; [exact Hnone|].
  destruct (missing_svg_aborts_before_output plain_backend plain_host
              Fixture.root checkout_without_logo Hnone)
    as (Hexit & Hfs & _).
  split; assumption.
Defined.

End Drivers.

(** ** Bundle packaging: every failure is caught *)

Module Packaging.
Import PIL Py Lib Spec Run PILFacts Entries Drivers Fixture.
Local Open Scope py_scope.

(** *** No packaging step leaves through [sys.exit] *)

Create HintDb no_exit.

Ltac crush_no_exit :=
  intros w code w';
  repeat match goal with
         | |- context [match ?x with _ => _ end] => destruct x
         | |- context [if ?b then _ else _] => destruct b
         end;
  discriminate.

Lemma no_exit_ret {A} (a : A) : no_exit (ret a).
Proof. by intros w code w'. Qed.

Lemma no_exit_raise {A} e : no_exit (@raise A e).
Proof. by intros w code w'. Qed.

Lemma no_exit_bind {A C} (m : M A) (k : A -> M C) :
  no_exit m -> (forall a, no_exit (k a)) -> no_exit (bind m k).
Proof.
  intros Hm Hk w code w'. unfold bind.
  destruct (m w) as [[a|e|c] w1] eqn:Hmw; [apply Hk|done|].
  by apply Hm in Hmw.
Qed.

Lemma no_exit_if {A} (b : bool) (m1 m2 : M A) :
  no_exit m1 -> no_exit m2 -> no_exit (if b then m1 else m2).
Proof. by destruct b. Qed.

Lemma no_exit_for_each {A} (l : list A) (body : A -> M unit) :
  (forall x, no_exit (body x)) -> no_exit (for_each l body).
Proof.
  intros Hbody. induction l as [|x l IH]; cbn [for_each].
  - apply no_exit_ret.
  - apply no_exit_bind; [apply Hbody|by intros _].
Qed.

Lemma no_exit_for_fold {A S} (l : list A) (init : S) (body : S -> A -> M S) :
  (forall st x, no_exit (body st x)) -> no_exit (for_fold l init body).
Proof.
  intros Hbody. revert init. induction l as [|x l IH]; intros init;
    cbn [for_fold].
  - apply no_exit_ret.
  - apply no_exit_bind; [apply Hbody|intros st; apply IH].
Qed.

Lemma no_exit_comprehension {A C} (l : list A) (f : A -> M C) :
  (forall x, no_exit (f x)) -> no_exit (comprehension l f).
Proof.
  intros Hf. induction l as [|x l IH]; cbn [comprehension].
  - apply no_exit_ret.
  - apply no_exit_bind; [apply Hf|intros y].
    apply no_exit_bind; [apply IH|intros ys; apply no_exit_ret].
Qed.

Lemma no_exit_index {A} (l : list A) i : no_exit (index l i).
Proof. unfold index. crush_no_exit. Qed.

Lemma no_exit_print line : no_exit (print line).
Proof. by intros w code w'. Qed.

Lemma no_exit_deref r : no_exit (deref r).
Proof. unfold deref. crush_no_exit. Qed.

Lemma no_exit_alloc im : no_exit (alloc im).
Proof. by intros w code w'. Qed.

Lemma no_exit_store r im : no_exit (store r im).
Proof. by intros w code w'. Qed.

Lemma no_exit_log_call c : no_exit (log_call c).
Proof. by intros w code w'. Qed.

Lemma no_exit_write_file H p c : no_exit (write_file H p c).
Proof. unfold write_file. crush_no_exit. Qed.

Lemma no_exit_Path_mkdir p : no_exit (Path_mkdir p).
Proof. unfold Path_mkdir. crush_no_exit. Qed.

Lemma no_exit_shutil_rmtree p : no_exit (shutil_rmtree p).
Proof. unfold shutil_rmtree. crush_no_exit. Qed.

Lemma no_exit_subprocess_run_iconutil H d p :
  no_exit (subprocess_run_iconutil H d p).
Proof. unfold subprocess_run_iconutil. crush_no_exit. Qed.

Lemma no_exit_Image_open p : no_exit (Image_open p).
Proof. unfold Image_open, alloc. crush_no_exit. Qed.

#[local] Hint Resolve no_exit_ret no_exit_raise no_exit_index no_exit_print
  no_exit_deref no_exit_alloc no_exit_store no_exit_log_call
  no_exit_write_file no_exit_Path_mkdir no_exit_shutil_rmtree
  no_exit_subprocess_run_iconutil no_exit_Image_open : no_exit.

Ltac no_exit_step :=
  first [ apply no_exit_bind; [|intros ?]
        | apply no_exit_if
        | apply no_exit_for_each; intros ?
        | apply no_exit_for_fold; intros ? ?
        | apply no_exit_comprehension; intros ?
        | solve [auto with no_exit]
        | match goal with
          | |- no_exit (let '(_, _) := ?x in _) => destruct x
          | |- no_exit (match ?x with _ => _ end) => destruct x
          end ].

Lemma no_exit_Image_new m size c : no_exit (Image_new m size c).
Proof. unfold Image_new. repeat no_exit_step. Qed.

Lemma no_exit_Image_size r : no_exit (Image_size r).
Proof. unfold Image_size. repeat no_exit_step. Qed.

Lemma no_exit_ImageDraw_Draw r : no_exit (ImageDraw_Draw r).
Proof. unfold ImageDraw_Draw. repeat no_exit_step. Qed.

Lemma no_exit_Draw B d c : no_exit (Draw B d c).
Proof. unfold Draw. repeat no_exit_step. Qed.

Lemma no_exit_Image_paste dst src box mask :
  no_exit (Image_paste dst src box mask).
Proof. unfold Image_paste. repeat no_exit_step. Qed.

Lemma no_exit_Image_putalpha dst alpha : no_exit (Image_putalpha dst alpha).
Proof. unfold Image_putalpha. repeat no_exit_step. Qed.

Lemma no_exit_Image_resize B src size : no_exit (Image_resize B src size).
Proof. unfold Image_resize. repeat no_exit_step. Qed.

Lemma no_exit_Image_save_PNG H r p : no_exit (Image_save_PNG H r p).
Proof. unfold Image_save_PNG. repeat no_exit_step. Qed.

Lemma no_exit_Image_save_ICO B H r p sizes :
  no_exit (Image_save_ICO B H r p sizes).
Proof. unfold Image_save_ICO. repeat no_exit_step. Qed.

#[local] Hint Resolve no_exit_Image_new no_exit_Image_size
  no_exit_ImageDraw_Draw no_exit_Draw no_exit_Image_paste
  no_exit_Image_putalpha no_exit_Image_resize no_exit_Image_save_PNG
  no_exit_Image_save_ICO : no_exit.

Lemma no_exit_generate_icns_body B H png icns :
  no_exit (GenerateIcons.generate_icns_body B H png icns).
Proof.
  unfold GenerateIcons.generate_icns_body. cbv zeta. repeat no_exit_step.
Qed.

Lemma no_exit_generate_ico_body B H png ico :
  no_exit (GenerateIcons.generate_ico_body B H png ico).
Proof. unfold GenerateIcons.generate_ico_body. repeat no_exit_step. Qed.

Lemma no_exit_create_volcanic_icon B sin_offset size :
  no_exit (SimpleIconGen.create_volcanic_icon B sin_offset size).
Proof.
  unfold SimpleIconGen.create_volcanic_icon, Draw_ellipse, Draw_rectangle,
    Draw_polygon, Draw_line.
  cbv zeta. repeat no_exit_step.
Qed.

Lemma no_exit_simple_generate_ico_body B H sin_offset root :
  no_exit (SimpleIconGen.generate_ico_body B H sin_offset root).
Proof.
  unfold SimpleIconGen.generate_ico_body. repeat no_exit_step.
  all: try apply no_exit_create_volcanic_icon.
Qed.

(** *** [try ... except Exception] around a body that cannot exit *)

Lemma try_except_caught (body : M unit) (msg : exn -> string) w :
  no_exit body ->
  exists w',
    try_except body (fun e => print (msg e)) w = (Ok tt, w') /\
    match body w with
    | (Ok _, w1) => w' = w1
    | (Raise e, w1) => w' = set_stdout (fun out => out ++ [msg e]) w1
    | (SysExit _, _) => False
    end.
Proof.
  intros Hbody. unfold try_except.
  destruct (body w) as [[[]|e|c] w1] eqn:Hrun.
  - by exists w1.
  - by eexists.
  - by apply Hbody in Hrun.
Qed.

(** *** The staging directory *)

Lemma keeps_dir_bind {A C} d (m : M A) (k : A -> M C) :
  keeps_dir d m -> (forall a, keeps_dir d (k a)) -> keeps_dir d (bind m k).
Proof.
  intros Hm Hk w Hd. unfold bind. specialize (Hm w Hd).
  destruct (m w) as [[a|e|c] w1]; [by apply Hk|done..].
Qed.

Lemma keeps_dir_if {A} d (b : bool) (m1 m2 : M A) :
  keeps_dir d m1 -> keeps_dir d m2 -> keeps_dir d (if b then m1 else m2).
Proof. by destruct b. Qed.

Lemma keeps_dir_for_each {A} d (l : list A) (body : A -> M unit) :
  (forall x, keeps_dir d (body x)) -> keeps_dir d (for_each l body).
Proof.
  intros Hbody. induction l as [|x l IH]; cbn [for_each];
    [by intros w Hd|].
  apply keeps_dir_bind; [apply Hbody|by intros _].
Qed.

Ltac crush_keeps_dir :=
  intros w Hd;
  repeat match goal with
         | |- context [match ?x with _ => _ end] => destruct x
         | |- context [if ?b then _ else _] => destruct b
         end;
  done.

Lemma keeps_dir_print d line : keeps_dir d (print line).
Proof. by intros w Hd. Qed.

Lemma keeps_dir_deref d r : keeps_dir d (deref r).
Proof. unfold deref. crush_keeps_dir. Qed.

Lemma keeps_dir_alloc d im : keeps_dir d (alloc im).
Proof. by intros w Hd. Qed.

Lemma keeps_dir_Image_open d p : keeps_dir d (Image_open p).
Proof. unfold Image_open, alloc. crush_keeps_dir. Qed.

Lemma keeps_dir_Image_resize d B src size :
  keeps_dir d (Image_resize B src size).
Proof.
  unfold Image_resize. apply keeps_dir_bind; [apply keeps_dir_deref|].
  intros im. repeat apply keeps_dir_if; try apply keeps_dir_alloc.
  by intros w Hd.
Qed.

Lemma keeps_dir_write_file d H p c :
  p <> d -> keeps_dir d (write_file H p c).
Proof.
  intros Hne w Hd. unfold write_file.
  repeat match goal with
         | |- context [if ?b then _ else _] => destruct b
         end; try done.
  cbn. by rewrite lookup_insert_ne.
Qed.

Lemma keeps_dir_Image_save_PNG d H r p :
  p <> d -> keeps_dir d (Image_save_PNG H r p).
Proof.
  intros Hne. unfold Image_save_PNG.
  apply keeps_dir_bind; [apply keeps_dir_deref|].
  intros im. by apply keeps_dir_write_file.
Qed.

Lemma keeps_dir_Path_mkdir d p : keeps_dir d (Path_mkdir p).
Proof.
  intros w Hd. unfold Path_mkdir.
  destruct (is_dir (fs w) p); [done|].
  destruct (fs w !! p) eqn:Hp; [done|].
  destruct (is_dir (fs w) (parent p)); [|done].
  cbn. rewrite lookup_insert_ne; [done|]. intros ->. congruence.
Qed.

Lemma Path_mkdir_made p w w0 :
  p <> [] -> Path_mkdir p w = (Ok tt, w0) -> fs w0 !! p = Some Dir.
Proof.
  intros Hne. unfold Path_mkdir.
  destruct (is_dir (fs w) p) eqn:Hdir.
  - intros [= <-]. destruct p; [done|].
    cbn in Hdir. by apply bool_decide_eq_true in Hdir.
  - destruct (fs w !! p); [done|].
    destruct (is_dir (fs w) (parent p)); [|done].
    intros [= <-]. cbn. apply lookup_insert_eq.
Qed.

Lemma child_ne (d : list string) x : d ++ [x] <> d.
Proof.
  intros Heq. apply (f_equal length) in Heq.
  rewrite length_app in Heq. cbn in Heq. lia.
Qed.

Lemma iconset_dir_nonempty icns : GenerateIcons.iconset_dir_of icns <> [].
Proof.
  unfold GenerateIcons.iconset_dir_of. intros Heq.
  apply (f_equal length) in Heq. rewrite length_app in Heq. cbn in Heq. lia.
Qed.

Section Icns.
Context (B : backend) (H : host) (png icns : list string).
Let d := GenerateIcons.iconset_dir_of icns.

(** Once the staging directory exists, filling it keeps it. *)
Lemma icns_stage_keeps w w0 :
  Path_mkdir d w = (Ok tt, w0) ->
  fs (icns_stage B H png icns w).2 !! d = Some Dir.
Proof.
  intros Hmk. unfold icns_stage. cbv zeta. fold d.
  rewrite (bind_ok _ _ _ _ _ Hmk).
  assert (Hd0 : fs w0 !! d = Some Dir)
    by (eapply Path_mkdir_made; [apply iconset_dir_nonempty|exact Hmk]).
  revert w0 Hd0 Hmk. intros w0 Hd0 _. revert w0 Hd0.
  change (keeps_dir d
            (base_image <- Image_open png ;;
             for_each GenerateIcons.iconset_sizes (fun '(size, filename) =>
               resized <- (if size <=? 512
                           then Image_resize B base_image (size, size)
                           else Image_resize B base_image (size, size)) ;;
               Image_save_PNG H resized (d ++ [filename])))).
  apply keeps_dir_bind; [apply keeps_dir_Image_open|]. intros base.
  apply keeps_dir_for_each. intros [size filename].
  apply keeps_dir_bind.
  - apply keeps_dir_if; apply keeps_dir_Image_resize.
  - intros r. apply keeps_dir_Image_save_PNG, child_ne.
Qed.

(** The packaging step from a world that holds the staging directory. *)
Lemma icns_package_success w err :
  icns <> d -> fs w !! d = Some Dir -> iconutil H = Some (0, err) ->
  exists w',
    icns_package H icns w = (Ok tt, w') /\
    forall p, d `prefix_of` p -> fs w' !! p = None.
Proof.
  intros Hne Hd Htool. unfold icns_package. cbv zeta. fold d.
  unfold subprocess_run_iconutil. rewrite Htool.
  erewrite bind_ok; [|reflexivity]. cbn [fst snd Z.eqb].
  erewrite bind_ok; [|reflexivity].
  unfold shutil_rmtree. cbn [fs set_fs set_stdout].
  rewrite lookup_insert_ne, Hd by done.
  eexists. split; [reflexivity|].
  intros p Hp. cbn [fs set_fs].
  apply map_lookup_filter_None. right. intros x _. cbn. by intros Hnp.
Qed.

Lemma icns_package_failure_keeps w :
  (forall err, iconutil H <> Some (0, err)) -> fs w !! d = Some Dir ->
  fs (icns_package H icns w).2 !! d = Some Dir /\
  forall c w', icns_package H icns w <> (SysExit c, w').
Proof.
  intros Hfail Hd. unfold icns_package. cbv zeta. fold d.
  unfold subprocess_run_iconutil.
  destruct (iconutil H) as [[rc err]|] eqn:Htool.
  - destruct (rc =? 0) eqn:Hrc.
    + apply Z.eqb_eq in Hrc as ->. by destruct (Hfail err).
    + erewrite bind_ok; [|reflexivity]. cbn [fst snd]. rewrite Hrc. done.
  - erewrite bind_raise; [|reflexivity]. done.
Qed.

End Icns.

Section Caught.
Context (B : backend) (H : host).

Lemma generate_icns_caught png icns w :
  exists w',
    GenerateIcons.generate_icns B H png icns w = (Ok tt, w') /\
    match GenerateIcons.generate_icns_body B H png icns w with
    | (Ok _, w1) => w' = w1
    | (Raise e, w1) => w' = set_stdout (fun out => out ++ [icns_warning e]) w1
    | (SysExit _, _) => False
    end.
Proof.
  apply (try_except_caught _ icns_warning), no_exit_generate_icns_body.
Qed.

Lemma generate_ico_caught png ico w :
  exists w',
    GenerateIcons.generate_ico B H png ico w = (Ok tt, w') /\
    match GenerateIcons.generate_ico_body B H png ico w with
    | (Ok _, w1) => w' = w1
    | (Raise e, w1) => w' = set_stdout (fun out => out ++ [ico_warning e]) w1
    | (SysExit _, _) => False
    end.
Proof.
  apply (try_except_caught _ ico_warning), no_exit_generate_ico_body.
Qed.

Lemma main_packaging_ok root w :
  exists w', main_packaging B H root w = (Ok tt, w').
Proof.
  unfold main_packaging.
  erewrite bind_ok; [|reflexivity].
  match goal with
  | |- context [bind (GenerateIcons.generate_icns B H ?p ?q) _ ?w0] =>
      destruct (generate_icns_caught p q w0) as (w1 & Hrun1 & _)
  end.
  rewrite (bind_ok _ _ _ _ _ Hrun1).
  match goal with
  | |- context [bind (GenerateIcons.generate_ico B H ?p ?q) _ ?w0] =>
      destruct (generate_ico_caught p q w0) as (w2 & Hrun2 & _)
  end.
  rewrite (bind_ok _ _ _ _ _ Hrun2).
  by eexists.
Qed.

Lemma simple_main_packaging_ok sin_offset root w :
  exists w', simple_main_packaging B H sin_offset root w = (Ok tt, w').
Proof.
  unfold simple_main_packaging.
  erewrite bind_ok; [|reflexivity].
  match goal with
  | |- context [bind (try_except ?body _) _ ?w0] =>
      destruct (try_except_caught body ico_warning w0
                  (no_exit_simple_generate_ico_body B H sin_offset root))
        as (w1 & Hrun1 & _)
  end.
  unfold ico_warning in Hrun1. rewrite (bind_ok _ _ _ _ _ Hrun1).
  by eexists.
Qed.

(** C7: every failure raised inside ICO or ICNS packaging is caught and
    becomes one printed warning, and the run goes on to a normal end
    (exit status 0): whatever the world, [generate_icns] and [generate_ico]
    return; when their body raised, the world they leave differs from the
    world at the failure by the warning line only; and the packaging phase
    of both scripts, which is what follows the PNG loops in [main], always
    returns.  Creating the staging directory is inside the [try] as well:
    when it fails, nothing has changed but the warning line.  Once the
    staging directory could be created (and is not the bundle path
    itself): when it was filled and the packaging tool returned 0, the
    staging directory and everything below it are gone; when packaging
    failed (filling the directory raised, the tool is missing, or it
    returned a non-zero code) the staging directory is left in place. *)
Theorem packaging_failures_are_warnings png icns ico sin_offset root w :
  (exists w',
      GenerateIcons.generate_icns B H png icns w = (Ok tt, w') /\
      (forall e w1,
          GenerateIcons.generate_icns_body B H png icns w = (Raise e, w1) ->
          w' = set_stdout (fun out => out ++ [icns_warning e]) w1) /\
      (forall e w1,
          Path_mkdir (GenerateIcons.iconset_dir_of icns) w = (Raise e, w1) ->
          w' = set_stdout (fun out => out ++ [icns_warning e]) w) /\
      GenerateIcons.generate_icns_body B H png icns w
      = bind (icns_stage B H png icns) (fun _ => icns_package H icns) w /\
      (forall w0,
          icns <> GenerateIcons.iconset_dir_of icns ->
          Path_mkdir (GenerateIcons.iconset_dir_of icns) w = (Ok tt, w0) ->
          (forall err,
              (icns_stage B H png icns w).1 = Ok tt ->
              iconutil H = Some (0, err) ->
              forall p, GenerateIcons.iconset_dir_of icns `prefix_of` p ->
                        fs w' !! p = None) /\
          ((exists e, (icns_stage B H png icns w).1 = Raise e)
           \/ (forall err, iconutil H <> Some (0, err)) ->
           fs w' !! GenerateIcons.iconset_dir_of icns = Some Dir))) /\
  (forall v, exists v',
      GenerateIcons.generate_ico B H png ico v = (Ok tt, v') /\
      forall e v1,
        GenerateIcons.generate_ico_body B H png ico v = (Raise e, v1) ->
        v' = set_stdout (fun out => out ++ [ico_warning e]) v1) /\
  (forall v,
      GenerateIcons.main B H root v
      = bind (main_pngs B H root) (fun _ => main_packaging B H root) v /\
      exists v', main_packaging B H root v = (Ok tt, v')) /\
  (forall v,
      SimpleIconGen.main B H sin_offset root v
      = bind (simple_main_pngs B H sin_offset root)
             (fun _ => simple_main_packaging B H sin_offset root) v /\
      exists v', simple_main_packaging B H sin_offset root v = (Ok tt, v')).
Proof.
  set (d := GenerateIcons.iconset_dir_of icns) in *.
  split; [|split; [|split]].
  - destruct (generate_icns_caught png icns w) as (w' & Hrun & Hcase).
    exists w'. split; [exact Hrun|].
    assert (Hwarn : forall e w1,
               GenerateIcons.generate_icns_body B H png icns w = (Raise e, w1) ->
               w' = set_stdout (fun out => out ++ [icns_warning e]) w1).
    { intros e w1 Hbody. by rewrite Hbody in Hcase. }
    rewrite generate_icns_body_split in Hcase |- *.
    split; [|split; [|split; [done|]]].
    + intros e w1 Hbody. apply Hwarn. by rewrite generate_icns_body_split.
    + intros e w1 Hmk.
      assert (Hsame : w1 = w).
      { unfold Path_mkdir in Hmk. destruct (is_dir (fs w) d); [done|].
        destruct (fs w !! d); [congruence|].
        destruct (is_dir (fs w) (parent d)); congruence. }
      subst w1. apply Hwarn.
      unfold GenerateIcons.generate_icns_body. cbv zeta. fold d.
      by erewrite bind_raise.
    + intros w0 Hne Hmk.
      assert (Hstage := icns_stage_keeps B H png icns w w0 Hmk).
      fold d in Hstage. split.
      * intros err Hok Htool p Hp. unfold bind in Hcase.
        destruct (icns_stage B H png icns w) as [[[]|e|c] w1]; cbn in Hok;
          try discriminate.
        destruct (icns_package_success H icns w1 err Hne Hstage Htool)
          as (w2 & Hpk & Hgone).
        rewrite Hpk in Hcase. subst w'. by apply Hgone.
      * intros Hfail. unfold bind in Hcase.
        destruct (icns_stage B H png icns w) as [[[]|e|c] w1];
          cbn [fst snd] in Hstage, Hfail.
        -- destruct Hfail as [[e He]|Hno]; [discriminate|].
           destruct (icns_package_failure_keeps H icns w1 Hno Hstage)
             as (Hkeep & Hnoexit).
           destruct (icns_package H icns w1) as [[[]|e|c] w2];
             cbn [snd] in Hkeep; [by subst w'|by subst w'|].
           by destruct (Hnoexit c w2).
        -- by subst w'.
        -- done.
  - intros v. destruct (generate_ico_caught png ico v) as (v' & Hrun & Hcase).
    exists v'. split; [exact Hrun|].
    intros e v1 Hbody. by rewrite Hbody in Hcase.
  - intros v. split; [apply main_split|apply main_packaging_ok].
  - intros v. split; [apply simple_main_split|apply simple_main_packaging_ok].
Qed.

End Caught.

Lemma packaging_failures_are_warnings_witness :
  Fixture.root ++ ["src-tauri"; "icons"; "icon.icns"]
    <> GenerateIcons.iconset_dir_of
         (Fixture.root ++ ["src-tauri"; "icons"; "icon.icns"]) /\
  Path_mkdir (GenerateIcons.iconset_dir_of
                (Fixture.root ++ ["src-tauri"; "icons"; "icon.icns"])) checkout
  = (Ok tt,
     set_fs (insert (GenerateIcons.iconset_dir_of
                       (Fixture.root ++ ["src-tauri"; "icons"; "icon.icns"]))
                    Dir) checkout) /\
  exists w',
    GenerateIcons.generate_icns plain_backend bare_host
      (Fixture.root ++ ["src-tauri"; "icons"; "icon.png"])
      (Fixture.root ++ ["src-tauri"; "icons"; "icon.icns"]) checkout
    = (Ok tt, w') /\
    fs w' !! GenerateIcons.iconset_dir_of
               (Fixture.root ++ ["src-tauri"; "icons"; "icon.icns"])
    = Some Dir.
Proof.
  assert (Hne : Fixture.root ++ ["src-tauri"; "icons"; "icon.icns"]
                <> GenerateIcons.iconset_dir_of
                     (Fixture.root ++ ["src-tauri"; "icons"; "icon.icns"]))
    by (vm_compute; discriminate).
  assert (Hmk : Path_mkdir
                  (GenerateIcons.iconset_dir_of
                     (Fixture.root ++ ["src-tauri"; "icons"; "icon.icns"]))
                  checkout
                = (Ok tt,
                   set_fs (insert (GenerateIcons.iconset_dir_of
                                     (Fixture.root
                                      ++ ["src-tauri"; "icons"; "icon.icns"]))
                                  Dir) checkout))
    by (vm_compute; reflexivity).
  split; [exact Hne|]. split; [exact Hmk|].
  destruct (packaging_failures_are_warnings plain_backend bare_host
              (Fixture.root ++ ["src-tauri"; "icons"; "icon.png"])
              (Fixture.root ++ ["src-tauri"; "icons"; "icon.icns"])
              (Fixture.root ++ ["src-tauri"; "icons"; "icon.ico"])
              (fun _ _ => 0) Fixture.root checkout)
    as ((w' & Hrun & _ & _ & _ & Hstaged) & _).
  exists w'. split; [exact Hrun|].
  apply (Hstaged _ Hne Hmk). right. intros err. discriminate.
Defined.

End Packaging.

(** ** ICO emission *)

Module IcoEmission.
Import PIL Py Lib Spec Run PILFacts Entries Drivers Packaging Fixture.
Local Open Scope py_scope.

Lemma Image_open_run p w im :
  fs w !! p = Some (File (Png im)) ->
  Image_open p w
  = (Ok (fresh (dom (heap w))), set_heap (insert (fresh (dom (heap w))) im) w).
Proof. intros Hp. unfold Image_open. by rewrite Hp. Qed.

Lemma Image_resize_run B src size w im :
  heap w !! src = Some im -> im_size im <> size ->
  0 < size.1 -> 0 < size.2 ->
  Image_resize B src size w
  = (Ok (fresh (dom (heap w))),
     set_heap (insert (fresh (dom (heap w))) (resized B im size.1 size.2)) w).
Proof.
  intros Hsrc Hne H1 H2. unfold Image_resize.
  rewrite (bind_ok _ _ _ _ _ (deref_run _ _ _ Hsrc)).
  rewrite bool_decide_eq_false_2 by done.
  replace (size.1 <=? 0) with false by (symmetry; apply Z.leb_gt; lia).
  replace (size.2 <=? 0) with false by (symmetry; apply Z.leb_gt; lia).
  done.
Qed.

Lemma Image_save_ICO_run B H r p sizes w im :
  heap w !! r = Some im -> writable H (fs w) p ->
  Image_save_ICO B H r p sizes w
  = (Ok tt, set_fs (insert p (File (Ico (ico_frames B im sizes)))) w).
Proof.
  intros Hr Hp. unfold Image_save_ICO.
  rewrite (bind_ok _ _ _ _ _ (deref_run _ _ _ Hr)).
  by apply write_file_run.
Qed.

(** What the encoder keeps when the image handed to it is 16x16: the one
    frame of that size. *)
Lemma ico_frames_of_smallest B im :
  im_size im = (16, 16) ->
  ico_frames B im [(16, 16); (24, 24); (32, 32); (48, 48); (64, 64);
                   (128, 128); (256, 256)]
  = [im].
Proof.
  destruct im as [m wd ht data]. unfold im_size. cbn [im_width im_height].
  intros [= -> ->]. reflexivity.
Qed.

Section Ico.
Context (B : backend) (H : host).

Lemma generate_ico_body_run png ico w base :
  fs w !! png = Some (File (Png base)) ->
  im_size base = (512, 512) ->
  writable H (fs w) ico ->
  exists w',
    GenerateIcons.generate_ico_body B H png ico w = (Ok tt, w') /\
    fs w' = <[ico := File (Ico [resized B base 16 16])]> (fs w).
Proof.
  intros Hpng Hbase Hico. unfold GenerateIcons.generate_ico_body.
  step Image_open_run.
  cbn [for_fold GenerateIcons.ico_sizes].
  assert (forall sz : Z * Z, sz.1 < 512 -> im_size base <> sz) as Hdiff
    by (intros sz Hsz; rewrite Hbase; intros <-; cbn in Hsz; lia).
  do 7 (rewrite !bind_assoc;
        step Image_resize_run; [|apply Hdiff; cbn; lia];
        erewrite bind_ok; [|reflexivity]; cbn [app]).
  erewrite bind_ok; [|reflexivity].
  erewrite bind_ok; [|reflexivity].
  cbn [comprehension].
  do 7 (rewrite !bind_assoc; step Image_size_run).
  rewrite !bind_assoc.
  do 8 (erewrite bind_ok; [|reflexivity]).
  cbn [im_size resized im_width im_height].
  step Image_save_ICO_run.
  rewrite ico_frames_of_smallest by reflexivity.
  eexists. split; reflexivity.
Qed.

(** C8, what the code does at the claim's input: from a 512x512 base image
    [generate_ico] writes an ICO file that holds one frame, the 16x16 one,
    not the seven frames of the claim.  The seven resized images are built,
    but [images[0].save(...)] hands only the first, 16x16, image to the
    encoder, and the encoder ignores every requested size larger than the
    image it is given. *)
Theorem generate_ico_writes_one_frame png ico w base :
  fs w !! png = Some (File (Png base)) ->
  im_size base = (512, 512) ->
  writable H (fs w) ico ->
  exists w' frame,
    GenerateIcons.generate_ico B H png ico w = (Ok tt, w') /\
    fs w' !! ico = Some (File (Ico [frame])) /\
    im_size frame = (16, 16).
Proof.
  intros Hpng Hbase Hico.
  destruct (generate_ico_body_run png ico w base Hpng Hbase Hico)
    as (w' & Hrun & Hfs).
  exists w', (resized B base 16 16). split; [|split].
  - unfold GenerateIcons.generate_ico, try_except. by rewrite Hrun.
  - rewrite Hfs. apply lookup_insert_eq.
  - reflexivity.
Qed.

(** The procedural pipeline saves its ICO file the same way, with the same
    outcome: one 16x16 frame. *)
Lemma simple_generate_ico_writes_one_frame sin_offset root w :
  writable H (fs w) (SimpleIconGen.icons_dir root ++ ["icon.ico"]) ->
  exists w',
    SimpleIconGen.generate_ico_body B H sin_offset root w = (Ok tt, w') /\
    fs w' = <[SimpleIconGen.icons_dir root ++ ["icon.ico"] :=
                File (Ico [Volcanic.volcanic_image sin_offset 16 B])]> (fs w).
Proof.
  intros Hico. unfold SimpleIconGen.generate_ico_body.
  cbn [for_fold SimpleIconGen.ico_sizes].
  do 7 (rewrite !bind_assoc;
        erewrite bind_ok;
          [|apply VolcanicFacts.create_volcanic_icon_run;
            [lia|apply VolcanicFacts.volcanic_calls_ok; lia]];
        norm_world;
        erewrite bind_ok; [|reflexivity]; cbn [app]).
  erewrite bind_ok; [|reflexivity].
  erewrite bind_ok; [|reflexivity].
  cbn [comprehension].
  do 7 (rewrite !bind_assoc; step Image_size_run).
  rewrite !bind_assoc.
  do 8 (erewrite bind_ok; [|reflexivity]).
  rewrite !VolcanicFacts.volcanic_image_size.
  step Image_save_ICO_run.
  rewrite ico_frames_of_smallest by apply VolcanicFacts.volcanic_image_size.
  eexists. split; reflexivity.
Qed.

End Ico.

(** A checkout whose [icon.png] is a 512x512 image. *)
Lemma generate_ico_writes_one_frame_witness :
  let png := Fixture.root ++ ["src-tauri"; "icons"; "icon.png"] in
  let ico := Fixture.root ++ ["src-tauri"; "icons"; "icon.ico"] in
  let base := filled RGBA 512 512 (PixRGBA 255 69 0 255) in
  let w := set_fs (insert png (File (Png base))) checkout in
  fs w !! png = Some (File (Png base)) /\
  im_size base = (512, 512) /\
  writable plain_host (fs w) ico /\
  exists w' frame,
    GenerateIcons.generate_ico plain_backend plain_host png ico w
      = (Ok tt, w') /\
    fs w' !! ico = Some (File (Ico [frame])) /\
    im_size frame = (16, 16).
Proof.
  intros png ico base w.
  assert (Hpng : fs w !! png = Some (File (Png base)))
    by apply lookup_insert_eq.
  assert (Hbase : im_size base = (512, 512)) by reflexivity.
  assert (Hico : writable plain_host (fs w) ico).
  { split; [|split; [|reflexivity]].
    - unfold is_dir, parent, ico. cbn [Fixture.root app length Nat.sub take].
      apply bool_decide_eq_true_2. subst w. cbn [fs set_fs].
      rewrite lookup_insert_ne by discriminate. reflexivity.
    - unfold is_dir, ico. cbn [Fixture.root app].
      apply bool_decide_eq_false_2. subst w. cbn [fs set_fs].
      rewrite lookup_insert_ne by discriminate. discriminate. }
  repeat (split; [assumption|]).
  exact (generate_ico_writes_one_frame plain_backend plain_host png ico w
           base Hpng Hbase Hico).
Defined.

End IcoEmission.

(** ** More on the shadow filter *)

Module ShadowFacts.
Import PIL Py Lib Spec Run PILFacts Rounding Shadow Fixture.
Local Open Scope py_scope.

Lemma div255_exact v : 0 <= v <= 255 -> div255 (v * 255) = v.
Proof.
  intros Hv.
  assert (List.forallb (fun n : nat => div255 (Z.of_nat n * 255) =? Z.of_nat n)
                       (seq 0 256) = true) as Hall
    by (vm_compute; reflexivity).
  rewrite List.forallb_forall in Hall.
  specialize (Hall (Z.to_nat v)). rewrite Z2Nat.id in Hall by lia.
  apply Z.eqb_eq, Hall, in_seq. lia.
Qed.

Lemma blend_band_opaque old v : 0 <= v <= 255 -> blend_band 255 old v = v.
Proof.
  intros Hv. unfold blend_band.
  replace (old * (255 - 255) + v * 255) with (v * 255) by lia.
  by apply div255_exact.
Qed.

(** The canvas under the icon, after the shadow layer went on, holds RGBA
    pixels. *)
Lemma shadow_canvas_shape wd ht layer ox oy x y :
  0 <= x < wd -> 0 <= y < ht ->
  exists o1 o2 o3 o4,
    getpixel (paste_pixels (filled RGBA wd ht (PixRGBA 0 0 0 0)) layer ox oy
                (Some layer)) x y
    = PixRGBA o1 o2 o3 o4.
Proof.
  intros Hx Hy. unfold paste_pixels.
  rewrite getpixel_remap by (cbn; lia). rewrite getpixel_filled by lia.
  destruct (inside layer (x - ox) (y - oy)); [|eauto].
  cbn [im_mode filled].
  destruct (getpixel layer (x - ox) (y - oy)); cbn; eauto.
Qed.

(** X1: a blur radius so negative that the enlarged canvas would have a
    negative side makes [add_shadow_effect] raise the library's
    [ValueError] at its first allocation: nothing is allocated, drawn or
    printed, the world is the one before the call. *)
Theorem add_shadow_effect_rejects_negative_canvas B w r im color offset blur :
  heap w !! r = Some im ->
  im_width im + blur * 2 < 0 \/ im_height im + blur * 2 < 0 ->
  GenerateIcons.add_shadow_effect B r color offset blur w
  = (Raise (Exn ValueError "Width and height must be >= 0"), w).
Proof.
  intros Hr Hneg. unfold GenerateIcons.add_shadow_effect.
  rewrite (bind_ok _ _ _ _ _ (Image_size_run _ _ _ Hr)).
  erewrite bind_raise; [reflexivity|].
  by apply Image_new_raise.
Qed.

Lemma add_shadow_effect_rejects_negative_canvas_witness :
  heap tall_world !! 0%nat = Some tall_image /\
  (im_width tall_image + (-2) * 2 < 0 \/ im_height tall_image + (-2) * 2 < 0) /\
  GenerateIcons.add_shadow_effect plain_backend 0%nat
    GenerateIcons.default_shadow_color GenerateIcons.default_offset (-2)
    tall_world
  = (Raise (Exn ValueError "Width and height must be >= 0"), tall_world).
Proof.
  assert (Hl : heap tall_world !! 0%nat = Some tall_image) by reflexivity.
  assert (Hneg : im_width tall_image + (-2) * 2 < 0
                 \/ im_height tall_image + (-2) * 2 < 0)
    by (left; cbn; lia).
  split; [exact Hl|]. split; [exact Hneg|].
  exact (add_shadow_effect_rejects_negative_canvas plain_backend tall_world
           0%nat tall_image GenerateIcons.default_shadow_color
           GenerateIcons.default_offset (-2) Hl Hneg).
Defined.

(** X2: the icon is composited last, through its own alpha, on a canvas of
    its own size: wherever the input pixel is fully opaque (alpha 255, the
    colour bands within 0..255) the result holds that very pixel, whatever
    the shadow colour, offset and blur.  The shadow shows only through
    pixels of the icon that are not opaque. *)
Theorem add_shadow_effect_keeps_opaque_pixels
  B w r im color offset blur x y cr cg cb :
  heap w !! r = Some im -> valid im ->
  0 <= im_width im + blur * 2 -> 0 <= im_height im + blur * 2 ->
  0 <= x < im_width im -> 0 <= y < im_height im ->
  getpixel im x y = PixRGBA cr cg cb 255 ->
  0 <= cr <= 255 -> 0 <= cg <= 255 -> 0 <= cb <= 255 ->
  exists r' w' out,
    GenerateIcons.add_shadow_effect B r color offset blur w = (Ok r', w') /\
    heap w' !! r' = Some out /\
    getpixel out x y = PixRGBA cr cg cb 255.
Proof.
  intros Hr Hv Hew Heh Hx Hy Hpix Hcr Hcg Hcb.
  eexists _, _, (shadowed_image B im color offset blur).
  split; [by apply add_shadow_effect_run|].
  split; [apply after_shadow_result|].
  unfold shadowed_image. cbv zeta.
  unfold paste_pixels at 1. rewrite getpixel_remap by (cbn; lia).
  rewrite !Z.sub_0_r.
  replace (inside im x y) with true by (symmetry; apply inside_true; lia).
  rewrite Hpix.
  destruct (shadow_canvas_shape (im_width im) (im_height im)
              (blurred B blur (filled RGBA (im_width im) (im_height im) color))
              offset.1 offset.2 x y Hx Hy) as (o1 & o2 & o3 & o4 & ->).
  cbn [im_mode paste_pixels remap mask_value convert blend filled].
  by rewrite !blend_band_opaque by lia.
Qed.

Lemma add_shadow_effect_keeps_opaque_pixels_witness :
  let im := filled RGBA 2 2 (PixRGBA 255 69 0 255) in
  let w := World {[ 0%nat := im ]} ∅ [] [] in
  heap w !! 0%nat = Some im /\ valid im /\
  0 <= im_width im + 4 * 2 /\ 0 <= im_height im + 4 * 2 /\
  0 <= 1 < im_width im /\ 0 <= 1 < im_height im /\
  getpixel im 1 1 = PixRGBA 255 69 0 255 /\
  0 <= 255 <= 255 /\ 0 <= 69 <= 255 /\ 0 <= 0 <= 255 /\
  exists r' w' out,
    GenerateIcons.add_shadow_effect plain_backend 0%nat
      GenerateIcons.default_shadow_color GenerateIcons.default_offset 4 w
      = (Ok r', w') /\
    heap w' !! r' = Some out /\
    getpixel out 1 1 = PixRGBA 255 69 0 255.
Proof.
  intros im w.
  assert (Hl : heap w !! 0%nat = Some im) by reflexivity.
  assert (Hv : valid im) by (split; cbn; lia).
  assert (Hew : 0 <= im_width im + 4 * 2) by (cbn; lia).
  assert (Heh : 0 <= im_height im + 4 * 2) by (cbn; lia).
  assert (Hx : 0 <= 1 < im_width im) by (cbn; lia).
  assert (Hy : 0 <= 1 < im_height im) by (cbn; lia).
  assert (Hpix : getpixel im 1 1 = PixRGBA 255 69 0 255) by reflexivity.
  assert (Hr : 0 <= 255 <= 255) by lia.
  assert (Hg : 0 <= 69 <= 255) by lia.
  assert (Hb : 0 <= 0 <= 255) by lia.
  repeat (split; [assumption|]).
  exact (add_shadow_effect_keeps_opaque_pixels plain_backend w 0%nat im
           GenerateIcons.default_shadow_color GenerateIcons.default_offset 4
           1 1 255 69 0 Hl Hv Hew Heh Hx Hy Hpix Hr Hg Hb).
Defined.

End ShadowFacts.

(** ** More on the procedural renderer *)

Module RendererFacts.
Import PIL Py Lib Spec Run PILFacts Volcanic VolcanicFacts Picture Fixture.
Local Open Scope py_scope.

Lemma paint_all_length B cs im :
  length (im_data im) = (Z.to_nat (im_width im) * Z.to_nat (im_height im))%nat ->
  length (im_data (paint_all B cs im))
  = (Z.to_nat (im_width im) * Z.to_nat (im_height im))%nat.
Proof.
  unfold paint_all. revert im.
  induction cs as [|c cs IH]; intros im Hlen; cbn [foldl]; [done|].
  rewrite IH; [done|]. cbn. apply tabulate_length.
Qed.

(** X3: what a call of [create_volcanic_icon] does to the world.  For a
    size that is not negative (0 included) it returns a new RGBA canvas of
    size x size with all its pixels present; no image that existed before
    is changed, and nothing is read from or written to the file system or
    printed.  A negative size raises the library's [ValueError] before
    anything is allocated or drawn: the world is untouched. *)
Theorem create_volcanic_icon_effect B sin_offset size w :
  match SimpleIconGen.create_volcanic_icon B sin_offset size w with
  | (Ok r, w') =>
      0 <= size /\ heap w !! r = None /\ heap w ⊆ heap w' /\
      (exists im, heap w' !! r = Some im /\ im_mode im = RGBA /\
                  im_size im = (size, size) /\
                  length (im_data im) = (Z.to_nat size * Z.to_nat size)%nat) /\
      fs w' = fs w /\ stdout w' = stdout w
  | (Raise e, w') =>
      size < 0 /\ e = Exn ValueError "Width and height must be >= 0" /\ w' = w
  | (SysExit _, _) => False
  end.
Proof.
  destruct (Z_lt_ge_dec size 0) as [Hneg|Hpos].
  - by rewrite create_volcanic_icon_raise.
  - rewrite create_volcanic_icon_run by (lia || apply volcanic_calls_ok; lia).
    cbn [heap fs stdout].
    split; [lia|]. split; [apply fresh_heap_None|].
    split; [apply insert_subseteq, fresh_heap_None|].
    split; [|done].
    exists (volcanic_image sin_offset size B).
    split; [apply lookup_insert_eq|].
    split; [unfold volcanic_image; by rewrite paint_all_mode|].
    split; [apply volcanic_image_size|].
    unfold volcanic_image. rewrite paint_all_length; [done|].
    apply tabulate_length.
Qed.

(** *** Crack lines *)

Lemma range_length a b st :
  length (range a b st) = Z.to_nat ((b - a + st - 1) / st).
Proof. unfold range. by rewrite length_fmap, length_seq. Qed.

Lemma range_lookup a b st (k : nat) :
  (k < length (range a b st))%nat ->
  range a b st !! k = Some (a + Z.of_nat k * st).
Proof.
  intros Hk. rewrite range_length in Hk. unfold range.
  rewrite list_lookup_fmap, lookup_seq_lt by done. done.
Qed.

Lemma foldl_extend {A} (f : A -> list Z) (l : list A) (init : list Z) :
  foldl (fun points x => points ++ f x) init l = init ++ concat (f <$> l).
Proof.
  revert init. induction l as [|x l IH]; intros init; cbn.
  - by rewrite app_nil_r.
  - by rewrite IH, app_assoc.
Qed.

Lemma pairs_lookup {A} (g h : A -> Z) (l : list A) (k : nat) :
  concat ((fun x => [g x; h x]) <$> l) !! (2 * k)%nat = g <$> l !! k /\
  concat ((fun x => [g x; h x]) <$> l) !! (2 * k + 1)%nat = h <$> l !! k.
Proof.
  revert k. induction l as [|x l IH]; intros k; [done|].
  destruct k as [|k]; [done|].
  replace (2 * S k)%nat with (S (S (2 * k))) by lia.
  replace (S (S (2 * k)) + 1)%nat with (S (S (2 * k + 1))) by lia.
  cbn. apply IH.
Qed.

Lemma crack_points_at sin_offset size y_pos (k : nat) :
  (k < crack_samples size)%nat ->
  at_index (crack_points sin_offset size y_pos) (Z.of_nat (2 * k))
  = (crack_sample sin_offset size y_pos k).1 /\
  at_index (crack_points sin_offset size y_pos) (Z.of_nat (2 * k) + 1)
  = (crack_sample sin_offset size y_pos k).2.
Proof.
  intros Hk. unfold at_index, crack_points, crack_samples in *.
  rewrite (foldl_extend (fun x => [x; y_pos + sin_offset size x])).
  cbn [app].
  replace (Z.to_nat (Z.of_nat (2 * k) + 1)) with (2 * k + 1)%nat by lia.
  rewrite Nat2Z.id.
  destruct (pairs_lookup (fun x => x) (fun x => y_pos + sin_offset size x)
              (range (s size 210) (s size 302) (Z.max 1 (s size 10))) k)
    as [-> ->].
  by rewrite range_lookup.
Qed.

Lemma crack_call_polyline sin_offset size y_pos color width :
  crack_call sin_offset size (y_pos, (color, width))
  = polyline sin_offset size y_pos color width (crack_samples size).
Proof.
  unfold crack_call, polyline. cbv zeta.
  assert (Hlen := crack_points_length sin_offset size y_pos).
  fold (crack_samples size) in Hlen. rewrite Hlen.
  set (n := crack_samples size) in *.
  destruct (4 <=? 2 * n)%nat eqn:Hguard.
  - apply Nat.leb_le in Hguard.
    unfold range.
    replace (Z.to_nat ((Z.of_nat (2 * n) - 2 - 0 + 2 - 1) / 2)) with (n - 1)%nat.
    2:{ replace (Z.of_nat (2 * n) - 2 - 0 + 2 - 1)
          with (1 + (Z.of_nat n - 1) * 2) by lia.
        rewrite Z.div_add by lia. change (1 / 2) with 0. lia. }
    rewrite <- list_fmap_compose. apply list_fmap_ext.
    intros i k Hk. apply lookup_seq in Hk as [-> Hk]. cbn [compose].
    replace (0 + Z.of_nat (0 + i) * 2) with (Z.of_nat (2 * i)) by lia.
    replace (Z.of_nat (2 * i) + 2) with (Z.of_nat (2 * S i)) by lia.
    replace (Z.of_nat (2 * i) + 3) with (Z.of_nat (2 * S i) + 1) by lia.
    destruct (crack_points_at sin_offset size y_pos i) as [-> ->];
      [subst n; lia|].
    destruct (crack_points_at sin_offset size y_pos (S i)) as [-> ->];
      [subst n; lia|].
    done.
  - apply Nat.leb_gt in Hguard.
    replace (n - 1)%nat with 0%nat by lia. done.
Qed.

Section Log.
Context (B : backend) (sin_offset : Z -> Z -> Z).

(** X4: the three molten cracks are connected polylines.  Each crack is
    drawn as the segments that join consecutive samples
    [(x_k, y_pos + offset(x_k))], with [x_k = int(210 s) + k * max(1,
    int(10 s))]: the end of a segment is the start of the next, [n]
    samples give [n - 1] segments, and fewer than two samples (the very
    small sizes) give none.  They go to the library between the glow and
    the furnace mouth, gold at [int(160 s)], then orange at [int(200 s)],
    then red at [int(240 s)]. *)
Theorem crack_lines_are_polylines size w :
  0 <= size ->
  exists r w',
    SimpleIconGen.create_volcanic_icon B sin_offset size w = (Ok r, w') /\
    drawlog w'
    = drawlog w
      ++ (background_calls size ++ ring_calls size ++ anvil_calls size
          ++ furnace_calls size ++ glow_calls size)
      ++ (polyline sin_offset size (s size 160) SimpleIconGen.lava_gold
            (Z.max 1 (s size 3)) (crack_samples size)
          ++ polyline sin_offset size (s size 200) SimpleIconGen.lava_secondary
               (Z.max 1 (s size 4)) (crack_samples size)
          ++ polyline sin_offset size (s size 240) SimpleIconGen.lava_primary
               (Z.max 1 (s size 3)) (crack_samples size))
      ++ (mouth_calls size ++ inner_glow_calls size ++ ember_calls size
          ++ vent_calls size ++ core_calls size).
Proof.
  intros Hsize. eexists _, _.
  split; [apply create_volcanic_icon_run; [lia|by apply volcanic_calls_ok]|].
  cbn [drawlog]. f_equal. unfold volcanic_calls, crack_calls.
  cbn [zip zip_with fmap list_fmap concat].
  rewrite !crack_call_polyline. rewrite app_nil_r.
  by rewrite <- !app_assoc.
Qed.

Lemma s_div size k : 0 <= size -> 0 <= k -> s size k = k * size / 512.
Proof.
  intros Hs Hk. unfold s, SimpleIconGen.scaled, int_div.
  apply Z.quot_div_nonneg; lia.
Qed.

Lemma glow_call_drawn size i color :
  0 < s size 45 - i * s size 5 -> 0 < s size 60 - i * s size 8 ->
  0 < 255 - i * 40 ->
  color = (if i <? 2 then SimpleIconGen.lava_gold
           else if i <? 4 then SimpleIconGen.lava_secondary
           else SimpleIconGen.lava_primary) ->
  glow_call size i = [glow_ellipse size i color].
Proof.
  intros Hw Hh Ha ->. unfold glow_call, glow_ellipse. cbv zeta.
  apply Z.ltb_lt in Hw, Hh, Ha. by rewrite Hw, Hh, Ha.
Qed.

Lemma glow_calls_full size : 12 <= size -> glow_calls size = full_glow size.
Proof.
  intros Hsize. unfold glow_calls, full_glow.
  change (range 0 5 1) with [0; 1; 2; 3; 4].
  cbn [fmap list_fmap concat app].
  assert (H45 := s_div size 45 ltac:(lia) ltac:(lia)).
  assert (H5 := s_div size 5 ltac:(lia) ltac:(lia)).
  assert (H60 := s_div size 60 ltac:(lia) ltac:(lia)).
  assert (H8 := s_div size 8 ltac:(lia) ltac:(lia)).
  rewrite (glow_call_drawn size 0 SimpleIconGen.lava_gold) by (done || (Z.div_mod_to_equations; lia)).
  rewrite (glow_call_drawn size 1 SimpleIconGen.lava_gold) by (done || (Z.div_mod_to_equations; lia)).
  rewrite (glow_call_drawn size 2 SimpleIconGen.lava_secondary)
    by (done || (Z.div_mod_to_equations; lia)).
  rewrite (glow_call_drawn size 3 SimpleIconGen.lava_secondary)
    by (done || (Z.div_mod_to_equations; lia)).
  rewrite (glow_call_drawn size 4 SimpleIconGen.lava_primary)
    by (done || (Z.div_mod_to_equations; lia)).
  done.
Qed.

Lemma glow_calls_none size : 0 <= size <= 11 -> glow_calls size = [].
Proof.
  intros Hsize. unfold glow_calls.
  change (range 0 5 1) with [0; 1; 2; 3; 4].
  cbn [fmap list_fmap concat app].
  assert (H45 := s_div size 45 ltac:(lia) ltac:(lia)).
  assert (Hzero : s size 45 = 0) by (rewrite H45; apply Z.div_small; lia).
  assert (H5 := s_nonneg size 5 ltac:(lia) ltac:(lia)).
  unfold glow_call. cbv zeta. rewrite Hzero.
  repeat match goal with
         | |- context [0 <? 0 - ?i * s size 5] =>
             replace (0 <? 0 - i * s size 5) with false
               by (symmetry; apply Z.ltb_ge; lia)
         end.
  done.
Qed.

(** X5: the layered glow is all or nothing.  From size 12 on (so at
    every size the scripts render, 16 being the smallest) the glow is the
    full set of five concentric ellipses around [(int(256 s), int(200 s))],
    largest first, with alpha 255, 215, 175, 135, 95 and the colours gold,
    gold, orange, orange, red; no step is skipped.  Up to size 11 the
    core width [int(45 s)] is 0 and no glow ellipse is drawn at all. *)
Theorem glow_is_five_ellipses_or_none size w :
  0 <= size ->
  exists r w' glow,
    SimpleIconGen.create_volcanic_icon B sin_offset size w = (Ok r, w') /\
    drawlog w'
    = drawlog w
      ++ (background_calls size ++ ring_calls size ++ anvil_calls size
          ++ furnace_calls size)
      ++ glow
      ++ (crack_calls sin_offset size ++ mouth_calls size
          ++ inner_glow_calls size ++ ember_calls size ++ vent_calls size
          ++ core_calls size) /\
    (12 <= size -> glow = full_glow size) /\
    (size <= 11 -> glow = []).
Proof.
  intros Hsize. eexists _, _, (glow_calls size).
  split; [apply create_volcanic_icon_run; [lia|by apply volcanic_calls_ok]|].
  split; [|split].
  - cbn [drawlog]. f_equal. unfold volcanic_calls. by rewrite <- !app_assoc.
  - apply glow_calls_full.
  - intros Hsmall. apply glow_calls_none. lia.
Qed.

End Log.

Lemma crack_lines_are_polylines_witness :
  0 <= 64 /\
  exists r w',
    SimpleIconGen.create_volcanic_icon plain_backend (fun _ _ => 0) 64
      empty_world = (Ok r, w').
Proof.
  split; [lia|].
  destruct (crack_lines_are_polylines plain_backend (fun _ _ => 0) 64
              empty_world ltac:(lia)) as (r & w' & Hrun & _).
  by exists r, w'.
Defined.

Lemma glow_is_five_ellipses_or_none_witness :
  0 <= 16 /\
  exists r w' glow,
    SimpleIconGen.create_volcanic_icon plain_backend (fun _ _ => 0) 16
      empty_world = (Ok r, w') /\
    glow = full_glow 16 /\ length glow = 5%nat.
Proof.
  split; [lia|].
  destruct (glow_is_five_ellipses_or_none plain_backend (fun _ _ => 0) 16
              empty_world ltac:(lia)) as (r & w' & glow & Hrun & _ & Hfull & _).
  exists r, w', glow. split; [exact Hrun|].
  rewrite (Hfull ltac:(lia)). split; reflexivity.
Defined.

End RendererFacts.

(** ** What the scripts write, and where *)

Module FsFrames.
Import PIL Py Lib Spec Run PILFacts Entries Drivers Packaging Frame Fixture.
Local Open Scope py_scope.

Lemma fs_frame_weaken {A} (T T' : list string -> Prop) (m : M A) :
  (forall p, T p -> T' p) -> fs_frame T m -> fs_frame T' m.
Proof. intros HT Hm w p Hp. apply Hm. intros HTp. by apply Hp, HT. Qed.

Lemma fs_frame_bind {A C} T (m : M A) (k : A -> M C) :
  fs_frame T m -> (forall a, fs_frame T (k a)) -> fs_frame T (bind m k).
Proof.
  intros Hm Hk w p Hp. unfold bind. specialize (Hm w p Hp).
  destruct (m w) as [[a|e|c] w1]; cbn [snd] in *; [|done..].
  by rewrite (Hk a w1 p Hp).
Qed.

Lemma fs_frame_if {A} T (b : bool) (m1 m2 : M A) :
  fs_frame T m1 -> fs_frame T m2 -> fs_frame T (if b then m1 else m2).
Proof. by destruct b. Qed.

Lemma fs_frame_ret {A} T (a : A) : fs_frame T (ret a).
Proof. by intros w p Hp. Qed.

Lemma fs_frame_for_each {A} T (l : list A) (body : A -> M unit) :
  (forall x, fs_frame T (body x)) -> fs_frame T (for_each l body).
Proof.
  intros Hbody. induction l as [|x l IH]; cbn [for_each].
  - apply fs_frame_ret.
  - apply fs_frame_bind; [apply Hbody|by intros _].
Qed.

Lemma fs_frame_for_fold {A S} T (l : list A) (init : S)
  (body : S -> A -> M S) :
  (forall st x, fs_frame T (body st x)) -> fs_frame T (for_fold l init body).
Proof.
  intros Hbody. revert init. induction l as [|x l IH]; intros init;
    cbn [for_fold].
  - apply fs_frame_ret.
  - apply fs_frame_bind; [apply Hbody|intros st; apply IH].
Qed.

Lemma fs_frame_comprehension {A C} T (l : list A) (f : A -> M C) :
  (forall x, fs_frame T (f x)) -> fs_frame T (comprehension l f).
Proof.
  intros Hf. induction l as [|x l IH]; cbn [comprehension].
  - apply fs_frame_ret.
  - apply fs_frame_bind; [apply Hf|intros y].
    apply fs_frame_bind; [apply IH|intros ys; apply fs_frame_ret].
Qed.

Lemma fs_frame_try_except {A} T (body : M A) (handler : exn -> M A) :
  fs_frame T body -> (forall e, fs_frame T (handler e)) ->
  fs_frame T (try_except body handler).
Proof.
  intros Hb Hh w p Hp. unfold try_except. specialize (Hb w p Hp).
  destruct (body w) as [[a|e|c] w1]; cbn [snd] in *; [done| |done].
  by rewrite (Hh e w1 p Hp).
Qed.

Lemma fs_frame_try_except_class {A} T cls (body handler : M A) :
  fs_frame T body -> fs_frame T handler ->
  fs_frame T (try_except_class cls body handler).
Proof.
  intros Hb Hh w p Hp. unfold try_except_class. specialize (Hb w p Hp).
  destruct (body w) as [[a|e|c] w1]; cbn [snd] in *; [done| |done].
  destruct (bool_decide (exn_cls e = cls)); [|done].
  by rewrite (Hh w1 p Hp).
Qed.

(** Statements that leave the file system alone. *)
Ltac crush_idle :=
  intros w p Hp;
  repeat match goal with
         | |- context [match ?x with _ => _ end] => destruct x
         | |- context [if ?b then _ else _] => destruct b
         end;
  reflexivity.

Lemma fs_frame_raise {A} T e : fs_frame T (@raise A e).
Proof. by intros w p Hp. Qed.
Lemma fs_frame_sys_exit {A} T c : fs_frame T (@sys_exit A c).
Proof. by intros w p Hp. Qed.
Lemma fs_frame_print T line : fs_frame T (print line).
Proof. by intros w p Hp. Qed.
Lemma fs_frame_index {A} T (l : list A) i : fs_frame T (index l i).
Proof. unfold index. crush_idle. Qed.
Lemma fs_frame_deref T r : fs_frame T (deref r).
Proof. unfold deref. crush_idle. Qed.
Lemma fs_frame_alloc T im : fs_frame T (alloc im).
Proof. by intros w p Hp. Qed.
Lemma fs_frame_store T r im : fs_frame T (store r im).
Proof. by intros w p Hp. Qed.
Lemma fs_frame_log_call T c : fs_frame T (log_call c).
Proof. by intros w p Hp. Qed.
Lemma fs_frame_Path_exists T q : fs_frame T (Path_exists q).
Proof. by intros w p Hp. Qed.
Lemma fs_frame_Image_open T q : fs_frame T (Image_open q).
Proof. unfold Image_open, alloc. crush_idle. Qed.
Lemma fs_frame_cairosvg_svg2png T H q size :
  fs_frame T (cairosvg_svg2png H q size).
Proof. unfold cairosvg_svg2png. crush_idle. Qed.
Lemma fs_frame_import_dependencies T H :
  fs_frame T (GenerateIcons.import_dependencies H).
Proof. unfold GenerateIcons.import_dependencies. crush_idle. Qed.

(** Statements that write. *)
Lemma fs_frame_write_file (T : list string -> Prop) H q c :
  T q -> fs_frame T (write_file H q c).
Proof.
  intros Hq w p Hp. unfold write_file.
  repeat match goal with
         | |- context [if ?b then _ else _] => destruct b
         end; try reflexivity.
  cbn. apply lookup_insert_ne. by intros ->.
Qed.

Lemma fs_frame_Path_mkdir (T : list string -> Prop) q :
  T q -> fs_frame T (Path_mkdir q).
Proof.
  intros Hq w p Hp. unfold Path_mkdir.
  destruct (is_dir (fs w) q); [done|].
  destruct (fs w !! q); [done|].
  destruct (is_dir (fs w) (parent q)); [|done].
  cbn. apply lookup_insert_ne. by intros ->.
Qed.

Lemma fs_frame_shutil_rmtree (T : list string -> Prop) q :
  (forall p, q `prefix_of` p -> T p) -> fs_frame T (shutil_rmtree q).
Proof.
  intros Hq w p Hp. unfold shutil_rmtree.
  destruct (fs w !! q) as [[|c]|] eqn:Hdir; [|done..].
  cbn. destruct (fs w !! p) as [x|] eqn:Hx.
  - apply map_lookup_filter_Some. split; [done|]. cbn. intros Hpre.
    by apply Hp, Hq.
  - apply map_lookup_filter_None. by left.
Qed.

Lemma fs_frame_subprocess_run_iconutil (T : list string -> Prop) H d q :
  T q -> fs_frame T (subprocess_run_iconutil H d q).
Proof.
  intros Hq w p Hp. unfold subprocess_run_iconutil.
  destruct (iconutil H) as [[rc err]|]; [|done].
  destruct (rc =? 0); [|done].
  cbn. apply lookup_insert_ne. by intros ->.
Qed.

Create HintDb fs_frame.
#[local] Hint Resolve fs_frame_ret fs_frame_raise fs_frame_sys_exit
  fs_frame_print fs_frame_index fs_frame_deref fs_frame_alloc fs_frame_store
  fs_frame_log_call fs_frame_Path_exists fs_frame_Image_open
  fs_frame_cairosvg_svg2png fs_frame_import_dependencies : fs_frame.

Ltac frame_step :=
  lazymatch goal with
  | |- fs_frame _ (bind _ _) => apply fs_frame_bind; [|intros ?; cbv beta]
  | |- fs_frame _ (if _ then _ else _) => apply fs_frame_if
  | |- fs_frame _ (for_each _ _) => apply fs_frame_for_each; intros ?
  | |- fs_frame _ (for_fold _ _ _) => apply fs_frame_for_fold; intros ? ?
  | |- fs_frame _ (comprehension _ _) =>
      apply fs_frame_comprehension; intros ?
  | |- fs_frame _ (try_except_class _ _ _) => apply fs_frame_try_except_class
  | |- fs_frame _ (try_except _ _) =>
      apply fs_frame_try_except; [|intros ?; cbv beta]
  | |- fs_frame _ (match ?x with _ => _ end) => destruct x
  | |- _ => solve [auto with fs_frame]
  end.

Lemma fs_frame_Image_new T m size c : fs_frame T (Image_new m size c).
Proof. unfold Image_new. repeat frame_step. Qed.
Lemma fs_frame_Image_size T r : fs_frame T (Image_size r).
Proof. unfold Image_size. repeat frame_step. Qed.
Lemma fs_frame_ImageDraw_Draw T r : fs_frame T (ImageDraw_Draw r).
Proof. unfold ImageDraw_Draw. repeat frame_step. Qed.
Lemma fs_frame_Draw T B d c : fs_frame T (Draw B d c).
Proof. unfold Draw. repeat frame_step. Qed.
Lemma fs_frame_Image_paste T dst src box mask :
  fs_frame T (Image_paste dst src box mask).
Proof. unfold Image_paste. repeat frame_step. Qed.
Lemma fs_frame_Image_putalpha T dst alpha :
  fs_frame T (Image_putalpha dst alpha).
Proof. unfold Image_putalpha. repeat frame_step. Qed.
Lemma fs_frame_Image_resize T B src size : fs_frame T (Image_resize B src size).
Proof. unfold Image_resize. repeat frame_step. Qed.
Lemma fs_frame_Image_filter_GaussianBlur T B src radius :
  fs_frame T (Image_filter_GaussianBlur B src radius).
Proof. unfold Image_filter_GaussianBlur. repeat frame_step. Qed.
Lemma fs_frame_Image_open_data_RGBA T data :
  fs_frame T (Image_open_data_RGBA data).
Proof. unfold Image_open_data_RGBA. repeat frame_step. Qed.

#[local] Hint Resolve fs_frame_Image_new fs_frame_Image_size
  fs_frame_ImageDraw_Draw fs_frame_Draw fs_frame_Image_paste
  fs_frame_Image_putalpha fs_frame_Image_resize
  fs_frame_Image_filter_GaussianBlur fs_frame_Image_open_data_RGBA : fs_frame.

Lemma fs_frame_Image_save_PNG (T : list string -> Prop) H r q :
  T q -> fs_frame T (Image_save_PNG H r q).
Proof.
  intros Hq. unfold Image_save_PNG. frame_step; [frame_step|].
  by apply fs_frame_write_file.
Qed.

Lemma fs_frame_Image_save_ICO (T : list string -> Prop) B H r q sizes :
  T q -> fs_frame T (Image_save_ICO B H r q sizes).
Proof.
  intros Hq. unfold Image_save_ICO. frame_step; [frame_step|].
  by apply fs_frame_write_file.
Qed.

Lemma fs_frame_int_truediv T a b : fs_frame T (int_truediv a b).
Proof. intros w p Hp. by rewrite int_truediv_pure. Qed.

#[local] Hint Resolve fs_frame_int_truediv : fs_frame.

Lemma fs_frame_create_rounded_icon T B r p :
  fs_frame T (GenerateIcons.create_rounded_icon B r p).
Proof.
  unfold GenerateIcons.create_rounded_icon, Draw_rounded_rectangle.
  cbv zeta. repeat frame_step.
Qed.

Lemma fs_frame_add_shadow_effect T B r color offset blur :
  fs_frame T (GenerateIcons.add_shadow_effect B r color offset blur).
Proof. unfold GenerateIcons.add_shadow_effect. repeat frame_step. Qed.

Lemma fs_frame_create_volcanic_icon T B sin_offset size :
  fs_frame T (SimpleIconGen.create_volcanic_icon B sin_offset size).
Proof.
  unfold SimpleIconGen.create_volcanic_icon, Draw_ellipse, Draw_rectangle,
    Draw_polygon, Draw_line.
  cbv zeta. repeat frame_step.
Qed.

#[local] Hint Resolve fs_frame_create_rounded_icon fs_frame_add_shadow_effect
  fs_frame_create_volcanic_icon : fs_frame.

Lemma parent_snoc (l : list string) x : parent (l ++ [x]) = l.
Proof.
  unfold parent. rewrite length_app. cbn [length].
  replace (length l + 1 - 1)%nat with (length l) by lia.
  by rewrite take_app_length.
Qed.

Lemma below_child (d : list string) x : below d (d ++ [x]).
Proof. by exists [x]. Qed.

Lemma below_self (d : list string) : below d d.
Proof. exists []. by rewrite app_nil_r. Qed.

Section Frames.
Context (B : backend) (H : host).

Lemma fs_frame_generate_png_from_svg svg size out rounded shadow :
  fs_frame (eq out)
    (GenerateIcons.generate_png_from_svg B H svg size out rounded shadow).
Proof.
  unfold GenerateIcons.generate_png_from_svg. repeat frame_step.
  by apply fs_frame_Image_save_PNG.
Qed.

Lemma fs_frame_generate_icns png icns :
  fs_frame (fun p => below (GenerateIcons.iconset_dir_of icns) p \/ p = icns)
    (GenerateIcons.generate_icns B H png icns).
Proof.
  unfold GenerateIcons.generate_icns, GenerateIcons.generate_icns_body.
  cbv zeta. apply fs_frame_try_except; [|intros e; apply fs_frame_print].
  apply fs_frame_bind; [apply fs_frame_Path_mkdir; left; apply below_self|].
  intros ?; cbv beta. apply fs_frame_bind; [apply fs_frame_Image_open|]. intros base.
  apply fs_frame_bind.
  { apply fs_frame_for_each. intros [size filename].
    apply fs_frame_bind; [repeat frame_step|]. intros r.
    apply fs_frame_Image_save_PNG. left. apply below_child. }
  intros ?; cbv beta. apply fs_frame_bind;
    [apply fs_frame_subprocess_run_iconutil; by right|].
  intros result. apply fs_frame_if; [|apply fs_frame_print].
  apply fs_frame_bind; [apply fs_frame_print|]. intros ?; cbv beta.
  apply fs_frame_shutil_rmtree. intros p Hp. by left.
Qed.

Lemma fs_frame_generate_ico png ico :
  fs_frame (eq ico) (GenerateIcons.generate_ico B H png ico).
Proof.
  unfold GenerateIcons.generate_ico, GenerateIcons.generate_ico_body.
  apply fs_frame_try_except; [|intros e; apply fs_frame_print].
  repeat frame_step. by apply fs_frame_Image_save_ICO.
Qed.

(** X6: [generate_png_from_svg] writes one path, its output path.  However
    the call ends, every other path of the file system, the SVG source
    among them, holds what it held before. *)
Theorem generate_png_from_svg_writes_only_output
  svg size out rounded shadow w p :
  p <> out ->
  fs (GenerateIcons.generate_png_from_svg B H svg size out rounded shadow w).2
    !! p
  = fs w !! p.
Proof.
  intros Hp. apply fs_frame_generate_png_from_svg. by intros ->.
Qed.

(** X7: a missing SVG source is not handled inside
    [generate_png_from_svg]: after the progress line is printed, the
    error of the rasteriser's fetch leaves the function.  It is a
    [URLError] (the rasteriser reads its source through [urllib], which
    wraps the operating system's error), not a [FileNotFoundError].  No
    image object is created and no file is written: the world differs by
    the progress line only. *)
Theorem generate_png_from_svg_missing_source
  svg size out rounded shadow w :
  fs w !! svg = None ->
  exists msg,
    GenerateIcons.generate_png_from_svg B H svg size out rounded shadow w
    = (Raise (Exn URLError msg),
       set_stdout (fun lines =>
                     lines ++ ["Generating " +:+ name out +:+ " ("
                               +:+ pretty size +:+ "x" +:+ pretty size
                               +:+ ")"])
                  w).
Proof.
  intros Hsvg. unfold GenerateIcons.generate_png_from_svg.
  erewrite bind_ok; [|reflexivity].
  eexists. erewrite bind_raise; [reflexivity|].
  unfold cairosvg_svg2png. cbn [fs set_stdout]. rewrite Hsvg.
  reflexivity.
Qed.

(** X8: the two packagers write only what is theirs.  [generate_ico]
    changes no path but the ICO path; [generate_icns] changes no path but
    the ICNS path and the paths at or below its staging directory.  This
    holds however they end, so the PNG they read is never modified (unless
    it is one of those paths). *)
Theorem packagers_write_only_their_paths png icns ico w p :
  ~ below (GenerateIcons.iconset_dir_of icns) p -> p <> icns -> p <> ico ->
  fs (GenerateIcons.generate_icns B H png icns w).2 !! p = fs w !! p /\
  fs (GenerateIcons.generate_ico B H png ico w).2 !! p = fs w !! p.
Proof.
  intros Hstage Hicns Hico. split.
  - apply fs_frame_generate_icns. by intros [?|?].
  - apply fs_frame_generate_ico. by intros ->.
Qed.

Lemma iconset_dir_below_parent (d : list string) x :
  below d (GenerateIcons.iconset_dir_of (d ++ [x])).
Proof.
  unfold GenerateIcons.iconset_dir_of. rewrite parent_snoc. apply below_child.
Qed.

Lemma below_trans (a b c : list string) : below a b -> below b c -> below a c.
Proof. unfold below. by intros ? ?; etrans. Qed.

(** X9: the vector pipeline writes only at or below its icons directory
    [<root>/src-tauri/icons].  However the run ends (normally, by
    [sys.exit], or by an uncaught error), every other path holds what it
    held before; in particular the SVG source is never modified. *)
Theorem generate_icons_writes_only_below_icons_dir root w p :
  ~ below (GenerateIcons.icons_dir root) p ->
  fs (GenerateIcons.run B H root w).2 !! p = fs w !! p.
Proof.
  revert w p.
  change (fs_frame (below (GenerateIcons.icons_dir root))
            (GenerateIcons.run B H root)).
  unfold GenerateIcons.run, GenerateIcons.main.
  apply fs_frame_bind; [apply fs_frame_import_dependencies|]. intros ?; cbv beta.
  apply fs_frame_bind; [repeat frame_step|]. intros ?; cbv beta.
  apply fs_frame_bind; [apply fs_frame_Path_exists|]. intros found.
  apply fs_frame_bind; [repeat frame_step|]. intros ?; cbv beta.
  apply fs_frame_bind; [apply fs_frame_Path_mkdir, below_self|]. intros ?; cbv beta.
  apply fs_frame_bind; [apply fs_frame_print|]. intros ?; cbv beta.
  apply fs_frame_bind; [apply fs_frame_print|]. intros ?; cbv beta.
  apply fs_frame_bind.
  { apply fs_frame_for_each. intros [[[size filename] rounded] shadow].
    eapply fs_frame_weaken; [|apply fs_frame_generate_png_from_svg].
    intros p <-. apply below_child. }
  intros ?; cbv beta. apply fs_frame_bind.
  { apply fs_frame_for_each. intros [size filename].
    eapply fs_frame_weaken; [|apply fs_frame_generate_png_from_svg].
    intros p <-. apply below_child. }
  intros ?; cbv beta. apply fs_frame_bind; [apply fs_frame_print|]. intros ?; cbv beta.
  apply fs_frame_bind.
  { eapply fs_frame_weaken; [|apply fs_frame_generate_icns].
    intros p [Hp|Heq]; [|rewrite Heq; apply below_child].
    eapply below_trans; [apply iconset_dir_below_parent|exact Hp]. }
  intros ?; cbv beta. apply fs_frame_bind.
  { eapply fs_frame_weaken; [|apply fs_frame_generate_ico].
    intros p <-. apply below_child. }
  intros ?; cbv beta. repeat frame_step.
Qed.

(** X10: the procedural pipeline writes only at or below its icons
    directory, however the run ends; it reads no file at all before its
    ICO step, so it needs no source asset. *)
Theorem simple_icon_gen_writes_only_below_icons_dir sin_offset root w p :
  ~ below (SimpleIconGen.icons_dir root) p ->
  fs (SimpleIconGen.main B H sin_offset root w).2 !! p = fs w !! p.
Proof.
  revert w p.
  change (fs_frame (below (SimpleIconGen.icons_dir root))
            (SimpleIconGen.main B H sin_offset root)).
  unfold SimpleIconGen.main.
  apply fs_frame_bind; [apply fs_frame_print|]. intros ?; cbv beta.
  apply fs_frame_bind; [apply fs_frame_print|]. intros ?; cbv beta.
  apply fs_frame_bind; [apply fs_frame_Path_mkdir, below_self|]. intros ?; cbv beta.
  apply fs_frame_bind.
  { apply fs_frame_for_each. intros [[[size filename] rounded] descr].
    unfold SimpleIconGen.generate_entry.
    apply fs_frame_bind; [apply fs_frame_print|]. intros ?; cbv beta.
    apply fs_frame_bind; [apply fs_frame_create_volcanic_icon|]. intros icon.
    apply fs_frame_bind;
      [apply fs_frame_if;
       [apply fs_frame_create_rounded_icon|apply fs_frame_ret]|].
    intros icon'. apply fs_frame_Image_save_PNG, below_child. }
  intros ?; cbv beta. apply fs_frame_bind; [apply fs_frame_print|]. intros ?; cbv beta.
  apply fs_frame_bind.
  { apply fs_frame_try_except; [|intros e; apply fs_frame_print].
    unfold SimpleIconGen.generate_ico_body. cbv zeta.
    repeat frame_step. apply fs_frame_Image_save_ICO, below_child. }
  intros ?; cbv beta. repeat frame_step.
Qed.

End Frames.

Lemma logo_not_below_icons :
  ~ below (GenerateIcons.icons_dir Fixture.root)
          (GenerateIcons.svg_path Fixture.root).
Proof. intros [k Hk]. discriminate Hk. Qed.

Lemma generate_png_from_svg_writes_only_output_witness :
  GenerateIcons.svg_path Fixture.root
    <> GenerateIcons.icons_dir Fixture.root ++ ["32x32.png"] /\
  fs (GenerateIcons.generate_png_from_svg plain_backend plain_host
        (GenerateIcons.svg_path Fixture.root) 32
        (GenerateIcons.icons_dir Fixture.root ++ ["32x32.png"])
        false false checkout).2 !! GenerateIcons.svg_path Fixture.root
  = fs checkout !! GenerateIcons.svg_path Fixture.root.
Proof.
  assert (Hne : GenerateIcons.svg_path Fixture.root
                <> GenerateIcons.icons_dir Fixture.root ++ ["32x32.png"])
    by discriminate.
  split; [exact Hne|].
  exact (generate_png_from_svg_writes_only_output plain_backend plain_host
           (GenerateIcons.svg_path Fixture.root) 32
           (GenerateIcons.icons_dir Fixture.root ++ ["32x32.png"])
           false false checkout (GenerateIcons.svg_path Fixture.root) Hne).
Defined.

Lemma generate_png_from_svg_missing_source_witness :
  fs checkout_without_logo !! GenerateIcons.svg_path Fixture.root = None /\
  exists msg,
    (GenerateIcons.generate_png_from_svg plain_backend plain_host
       (GenerateIcons.svg_path Fixture.root) 32
       (GenerateIcons.icons_dir Fixture.root ++ ["32x32.png"])
       false false checkout_without_logo).1
    = Raise (Exn URLError msg).
Proof.
  assert (Hnone : fs checkout_without_logo
                    !! GenerateIcons.svg_path Fixture.root = None)
    by reflexivity.
  split; [exact Hnone|].
  destruct (generate_png_from_svg_missing_source plain_backend plain_host
              (GenerateIcons.svg_path Fixture.root) 32
              (GenerateIcons.icons_dir Fixture.root ++ ["32x32.png"])
              false false checkout_without_logo Hnone) as (msg & Hrun).
  exists msg. by rewrite Hrun.
Defined.

Lemma packagers_write_only_their_paths_witness :
  let icons := GenerateIcons.icons_dir Fixture.root in
  ~ below (GenerateIcons.iconset_dir_of (icons ++ ["icon.icns"]))
          (GenerateIcons.svg_path Fixture.root) /\
  GenerateIcons.svg_path Fixture.root <> icons ++ ["icon.icns"] /\
  GenerateIcons.svg_path Fixture.root <> icons ++ ["icon.ico"] /\
  fs (GenerateIcons.generate_icns plain_backend plain_host
        (icons ++ ["icon.png"]) (icons ++ ["icon.icns"]) checkout).2
    !! GenerateIcons.svg_path Fixture.root
  = fs checkout !! GenerateIcons.svg_path Fixture.root.
Proof.
  intros icons.
  assert (H1 : ~ below (GenerateIcons.iconset_dir_of (icons ++ ["icon.icns"]))
                       (GenerateIcons.svg_path Fixture.root))
    by (intros [k Hk]; vm_compute in Hk; discriminate Hk).
  assert (H2 : GenerateIcons.svg_path Fixture.root <> icons ++ ["icon.icns"])
    by discriminate.
  assert (H3 : GenerateIcons.svg_path Fixture.root <> icons ++ ["icon.ico"])
    by discriminate.
  repeat (split; [assumption|]).
  exact (proj1 (packagers_write_only_their_paths plain_backend plain_host
                  (icons ++ ["icon.png"]) (icons ++ ["icon.icns"])
                  (icons ++ ["icon.ico"]) checkout
                  (GenerateIcons.svg_path Fixture.root) H1 H2 H3)).
Defined.

Lemma generate_icons_writes_only_below_icons_dir_witness :
  ~ below (GenerateIcons.icons_dir Fixture.root)
          (GenerateIcons.svg_path Fixture.root) /\
  fs (GenerateIcons.run plain_backend plain_host Fixture.root checkout).2
    !! GenerateIcons.svg_path Fixture.root
  = fs checkout !! GenerateIcons.svg_path Fixture.root.
Proof.
  split; [exact logo_not_below_icons|].
  exact (generate_icons_writes_only_below_icons_dir plain_backend plain_host
           Fixture.root checkout (GenerateIcons.svg_path Fixture.root)
           logo_not_below_icons).
Defined.

Lemma simple_icon_gen_writes_only_below_icons_dir_witness :
  ~ below (SimpleIconGen.icons_dir Fixture.root)
          (GenerateIcons.svg_path Fixture.root) /\
  fs (SimpleIconGen.main plain_backend plain_host (fun _ _ => 0) Fixture.root
        checkout).2 !! GenerateIcons.svg_path Fixture.root
  = fs checkout !! GenerateIcons.svg_path Fixture.root.
Proof.
  split; [exact logo_not_below_icons|].
  exact (simple_icon_gen_writes_only_below_icons_dir plain_backend plain_host
           (fun _ _ => 0) Fixture.root checkout
           (GenerateIcons.svg_path Fixture.root) logo_not_below_icons).
Defined.

End FsFrames.

(** ** Whole runs *)

Module WholeRuns.
Import PIL Py Lib Spec Run PILFacts Entries Drivers Packaging IcoEmission
       Frame FsFrames Outputs Fixture.
Local Open Scope py_scope.

Lemma holds_png_insert_other tree dir entry f c :
  f <> entry.2 ->
  holds_png tree dir entry ->
  holds_png (<[dir ++ [f] := c]> tree) dir entry.
Proof.
  intros Hne (img & Himg & Hsz). exists img. split; [|done].
  rewrite lookup_insert_ne; [done|].
  intros Heq. apply app_inv_head in Heq. congruence.
Qed.

(** A loop whose every iteration writes one PNG of the entry's size into
    [dir], under an invariant [I] of the world: afterwards all its files
    are there, and so are those written before it under other names. *)
Lemma for_each_writes {E} (dir : list string) (I : world -> Prop)
  (key : E -> Z * string) (body : E -> M unit) (entries : list E) :
  NoDup ((fun e => (key e).2) <$> entries) ->
  (forall e w, e ∈ entries -> I w ->
     exists w' img,
       body e w = (Ok tt, w') /\ I w' /\
       fs w' = <[dir ++ [(key e).2] := File (Png img)]> (fs w) /\
       im_size img = ((key e).1, (key e).1)) ->
  forall w done,
    I w -> Forall (holds_png (fs w) dir) done ->
    (forall e d, e ∈ entries -> d ∈ done -> (key e).2 <> d.2) ->
    exists w',
      for_each entries body w = (Ok tt, w') /\ I w' /\
      Forall (holds_png (fs w') dir) (done ++ (key <$> entries)).
Proof.
  induction entries as [|e entries IH]; intros Hnodup Hbody w done HI Hdone Hsep.
  - exists w. cbn. by rewrite app_nil_r.
  - cbn [fmap list_fmap] in Hnodup. apply NoDup_cons in Hnodup as [Hnew Hnodup].
    destruct (Hbody e w ltac:(by left) HI) as (w1 & img & Hrun & HI1 & Hfs & Hsz).
    cbn [for_each]. rewrite (bind_ok _ _ _ _ _ Hrun).
    destruct (IH Hnodup
                (fun e' w' He' => Hbody e' w' ltac:(by right))
                w1 (done ++ [key e]) HI1) as (w' & Hloop & HI' & Hall).
    + apply Forall_app. split.
      * apply Forall_forall. intros d Hdin.
        rewrite Forall_forall in Hdone. specialize (Hdone d Hdin).
        rewrite Hfs. apply holds_png_insert_other; [|done].
        apply Hsep; [by left|done].
      * apply Forall_singleton. exists img. split; [|done].
        rewrite Hfs. apply lookup_insert_eq.
    + intros e' d He' Hd. apply elem_of_app in Hd as [Hd|Hd].
      * apply Hsep; [by right|done].
      * apply list_elem_of_singleton in Hd as ->.
        intros Heq. apply Hnew. rewrite <- Heq.
        apply list_elem_of_fmap. by exists e'.
    + exists w'. split; [exact Hloop|]. split; [exact HI'|].
      cbn [fmap list_fmap]. by rewrite <- app_assoc in Hall.
Qed.

(** *** Paths and directories *)

Lemma is_dir_child tree (d : list string) f :
  is_dir tree (d ++ [f]) = bool_decide (tree !! (d ++ [f]) = Some Dir).
Proof. unfold is_dir. by destruct d. Qed.

Lemma is_dir_same tree tree' (p : list string) :
  tree' !! p = tree !! p -> is_dir tree' p = is_dir tree p.
Proof. intros Heq. unfold is_dir. destruct p; [done|]. by rewrite Heq. Qed.

Lemma child_ne_self (d : list string) f : d <> d ++ [f].
Proof.
  intros Heq. apply (f_equal length) in Heq.
  rewrite length_app in Heq. cbn in Heq. lia.
Qed.

Lemma not_below_child_self (d : list string) f : ~ below (d ++ [f]) d.
Proof.
  intros [k Hk]. apply (f_equal length) in Hk.
  rewrite !length_app in Hk. cbn in Hk. lia.
Qed.

Lemma below_sibling (d : list string) a f :
  below (d ++ [a]) (d ++ [f]) -> a = f.
Proof.
  intros [k Hk]. rewrite <- app_assoc in Hk. apply app_inv_head in Hk.
  by injection Hk.
Qed.

Lemma no_subdirectory_child tree (d : list string) f :
  no_subdirectory tree d -> is_dir tree (d ++ [f]) = false.
Proof.
  intros Hno. rewrite is_dir_child. apply bool_decide_eq_false_2, Hno.
Qed.

Lemma no_subdirectory_insert_file tree (d : list string) f c :
  no_subdirectory tree d ->
  no_subdirectory (<[d ++ [f] := File c]> tree) d.
Proof.
  intros Hno g. destruct (decide (f = g)) as [->|Hne].
  - by rewrite lookup_insert_eq.
  - rewrite lookup_insert_ne; [apply Hno|].
    intros Heq. apply app_inv_head in Heq. congruence.
Qed.

Lemma is_dir_insert_child tree (d : list string) f c :
  is_dir (<[d ++ [f] := c]> tree) d = is_dir tree d.
Proof.
  apply is_dir_same. apply lookup_insert_ne. intros Heq.
  by apply (child_ne_self d f).
Qed.

Lemma writable_child H tree (d : list string) f :
  (forall p, write_error H p = false) ->
  is_dir tree d = true -> no_subdirectory tree d ->
  writable H tree (d ++ [f]).
Proof.
  intros Hw Hd Hno. split; [by rewrite parent_snoc|].
  split; [by apply no_subdirectory_child|apply Hw].
Qed.

Lemma Path_mkdir_creatable d w :
  creatable (fs w) d ->
  exists w0,
    Path_mkdir d w = (Ok tt, w0) /\ is_dir (fs w0) d = true /\
    (forall p, p <> d -> fs w0 !! p = fs w !! p).
Proof.
  intros [Hdir|[Hnone Hparent]]; unfold Path_mkdir.
  - rewrite Hdir. by exists w.
  - destruct (is_dir (fs w) d) eqn:Hdir; [by exists w|].
    rewrite Hnone, Hparent. eexists. split; [reflexivity|].
    split.
    + cbn [fs set_fs]. unfold is_dir. destruct d; [done|].
      apply bool_decide_eq_true_2, lookup_insert_eq.
    + intros p Hp. cbn [fs set_fs]. by apply lookup_insert_ne.
Qed.

Lemma Path_mkdir_stdout d w w0 :
  Path_mkdir d w = (Ok tt, w0) -> stdout w0 = stdout w.
Proof.
  unfold Path_mkdir. destruct (is_dir (fs w) d); [congruence|].
  destruct (fs w !! d); [congruence|].
  destruct (is_dir (fs w) (parent d)); [|congruence].
  by intros [= <-].
Qed.

Lemma staging_path (d : list string) :
  GenerateIcons.iconset_dir_of (d ++ ["icon.icns"]) = d ++ ["icon.iconset"].
Proof.
  unfold GenerateIcons.iconset_dir_of. rewrite parent_snoc. f_equal.
  unfold stem, name. rewrite last_snoc. reflexivity.
Qed.

Lemma svg_not_icons_child root f :
  GenerateIcons.svg_path root <> GenerateIcons.icons_dir root ++ [f].
Proof.
  unfold GenerateIcons.svg_path, GenerateIcons.icons_dir.
  rewrite <- app_assoc. intros Heq. by apply app_inv_head in Heq.
Qed.

Lemma svg_not_icons root :
  GenerateIcons.svg_path root <> GenerateIcons.icons_dir root.
Proof.
  unfold GenerateIcons.svg_path, GenerateIcons.icons_dir.
  intros Heq. by apply app_inv_head in Heq.
Qed.

Lemma configured_names_distinct :
  NoDup (snd <$> configured_pngs).
Proof. apply (bool_decide_unpack _). vm_compute. exact I. Qed.

Lemma configured_names_not_bundles :
  Forall (fun e : Z * string =>
            e.2 <> "icon.ico" /\ e.2 <> "icon.icns" /\ e.2 <> "icon.iconset")
         configured_pngs.
Proof. repeat constructor; discriminate. Qed.

Lemma icon_png_configured : (512, "icon.png") ∈ configured_pngs.
Proof. apply (bool_decide_unpack _). vm_compute. exact I. Qed.

Lemma holds_png_same tree tree' dir entry :
  tree' !! (dir ++ [entry.2]) = tree !! (dir ++ [entry.2]) ->
  holds_png tree dir entry -> holds_png tree' dir entry.
Proof. intros Heq (img & Himg & Hsz). exists img. by rewrite Heq. Qed.

Section Vector.
Context (B : backend) (H : host) (root : list string) (doc : nat).
Hypothesis Hwrite : forall p, write_error H p = false.

Local Abbreviation svg := (GenerateIcons.svg_path root).
Local Abbreviation icons := (GenerateIcons.icons_dir root).

Lemma vector_entry size filename rounded shadow w :
  0 < size -> size * GenerateIcons.default_radius_percent < 2 ^ 53 ->
  vector_ready root doc w ->
  exists w' img,
    GenerateIcons.generate_png_from_svg B H svg size (icons ++ [filename])
      rounded shadow w = (Ok tt, w') /\
    vector_ready root doc w' /\
    fs w' = <[icons ++ [filename] := File (Png img)]> (fs w) /\
    im_size img = (size, size).
Proof.
  intros Hsize Hsmall (Hsvg & Hdir & Hno).
  destruct (generate_png_from_svg_run B H svg size (icons ++ [filename])
              rounded shadow w doc Hsize Hsmall Hsvg
              (writable_child H _ _ _ Hwrite Hdir Hno)) as (w' & Hrun & Hfs).
  eexists w', _. split; [exact Hrun|]. split; [|split; [exact Hfs|]].
  - unfold vector_ready, files_only. rewrite Hfs. split; [|split].
    + rewrite lookup_insert_ne; [done|].
      intros Heq. by apply (svg_not_icons_child root filename).
    + by rewrite is_dir_insert_child.
    + by apply no_subdirectory_insert_file.
  - apply processed_size. reflexivity.
Qed.

Lemma main_pngs_run w :
  importable H = true ->
  fs w !! svg = Some (File (Svg doc)) ->
  creatable (fs w) icons -> no_subdirectory (fs w) icons ->
  exists w',
    main_pngs B H root w = (Ok tt, w') /\ vector_ready root doc w' /\
    Forall (holds_png (fs w') icons) configured_pngs.
Proof.
  intros Himp Hsvg Hmk Hno. unfold main_pngs.
  unfold GenerateIcons.import_dependencies. rewrite Himp.
  erewrite bind_ok; [|reflexivity].
  erewrite bind_ok;
    [|unfold Path_exists; rewrite Hsvg;
      rewrite (bool_decide_eq_true_2 (is_Some (Some (File (Svg doc)))))
        by eauto;
      rewrite orb_true_r; reflexivity].
  cbn [negb]. erewrite bind_ok; [|reflexivity].
  destruct (Path_mkdir_creatable icons w Hmk) as (w0 & Hrun0 & Hdir0 & Hsame0).
  rewrite (bind_ok _ _ _ _ _ Hrun0).
  erewrite bind_ok; [|reflexivity].
  erewrite bind_ok; [|reflexivity].
  match goal with
  | |- context [bind _ _ ?w1] =>
      assert (Hready : vector_ready root doc w1)
  end.
  { unfold vector_ready, files_only. cbn [fs set_stdout]. split; [|split].
    - rewrite Hsame0; [done|]. apply svg_not_icons.
    - done.
    - intros f. rewrite Hsame0; [apply Hno|].
      intros Heq. symmetry in Heq. by apply (child_ne_self icons f). }
  match goal with
  | |- context [bind (for_each GenerateIcons.sizes ?body) _ ?w1] =>
      destruct (for_each_writes icons (vector_ready root doc)
                  (fun e : Z * string * bool * bool => (e.1.1.1, e.1.1.2))
                  body GenerateIcons.sizes) with (w := w1) (done := @nil (Z * string))
        as (w2 & Hloop1 & Hready2 & Hall2)
  end.
  - apply (bool_decide_unpack _). vm_compute. exact I.
  - intros [[[size filename] rounded] shadow] w' Hin Hw'.
    apply vector_entry; [| |done].
    + apply (proj1 (Forall_forall _ _) (sizes_positive) _ Hin).
    + apply (proj1 (Forall_forall _ _) (sizes_small) _ Hin).
  - exact Hready.
  - constructor.
  - intros e d _ Hd. by apply elem_of_nil in Hd.
  - rewrite (bind_ok _ _ _ _ _ Hloop1).
    match goal with
    | |- context [for_each GenerateIcons.store_sizes ?body] =>
        destruct (for_each_writes icons (vector_ready root doc)
                    (fun e : Z * string => e) body GenerateIcons.store_sizes)
          with (w := w2)
               (done := [] ++ ((fun e : Z * string * bool * bool =>
                                  (e.1.1.1, e.1.1.2)) <$> GenerateIcons.sizes))
          as (w3 & Hloop2 & Hready3 & Hall3)
    end.
    + apply (bool_decide_unpack _). vm_compute. exact I.
    + intros [size filename] w' Hin Hw'.
      apply vector_entry; [| |done].
      * apply (proj1 (Forall_forall _ _) (store_sizes_positive) _ Hin).
      * apply (proj1 (Forall_forall _ _) (store_sizes_small) _ Hin).
    + exact Hready2.
    + exact Hall2.
    + intros e d He Hd. cbn [app] in Hd.
      assert (Hsep : Forall (fun e : Z * string =>
                Forall (fun d : Z * string => e.2 <> d.2)
                  ((fun e : Z * string * bool * bool => (e.1.1.1, e.1.1.2))
                     <$> GenerateIcons.sizes)) GenerateIcons.store_sizes).
      { apply (bool_decide_unpack _). vm_compute. exact I. }
      rewrite Forall_forall in Hsep. specialize (Hsep e He).
      rewrite Forall_forall in Hsep. exact (Hsep d Hd).
    + exists w3. split; [exact Hloop2|]. split; [exact Hready3|].
      rewrite list_fmap_id in Hall3. exact Hall3.
Qed.

(** The packaging phase on a world that holds the 512 pixel master:
    whatever the ICNS step does, the ICO is written, and nothing outside
    the three packaging paths changes. *)
Lemma main_packaging_run w base :
  vector_ready root doc w ->
  fs w !! (icons ++ ["icon.png"]) = Some (File (Png base)) ->
  im_size base = (512, 512) ->
  exists w',
    main_packaging B H root w = (Ok tt, w') /\
    fs w' !! (icons ++ ["icon.ico"])
      = Some (File (Ico [resized B base 16 16])) /\
    (forall f, f <> "icon.iconset" -> f <> "icon.icns" -> f <> "icon.ico" ->
       fs w' !! (icons ++ [f]) = fs w !! (icons ++ [f])).
Proof.
  intros (Hsvg & Hdir & Hno) Hpng Hbase. unfold main_packaging.
  erewrite bind_ok; [|reflexivity].
  match goal with
  | |- context [bind (GenerateIcons.generate_icns B H ?p ?q) _ ?w0] =>
      destruct (generate_icns_caught B H p q w0) as (w1 & Hrun1 & _);
      pose proof (fs_frame_generate_icns B H p q w0) as Hframe1
  end.
  rewrite Hrun1 in Hframe1. cbn [snd fs set_stdout] in Hframe1.
  rewrite staging_path in Hframe1.
  rewrite (bind_ok _ _ _ _ _ Hrun1).
  assert (Hkeep : forall f, f <> "icon.iconset" -> f <> "icon.icns" ->
            fs w1 !! (icons ++ [f]) = fs w !! (icons ++ [f])).
  { intros f Hf1 Hf2. apply Hframe1. intros [Hbelow|Heq].
    - apply below_sibling in Hbelow. congruence.
    - apply app_inv_head in Heq. congruence. }
  assert (Hdir1 : is_dir (fs w1) icons = true).
  { rewrite <- Hdir. apply is_dir_same, Hframe1. intros [Hbelow|Heq].
    - by apply not_below_child_self in Hbelow.
    - by apply child_ne_self in Heq. }
  destruct (generate_ico_body_run B H (icons ++ ["icon.png"])
              (icons ++ ["icon.ico"]) w1 base) as (w2 & Hbody & Hfs2).
  { by rewrite Hkeep. }
  { done. }
  { split; [by rewrite parent_snoc|]. split; [|apply Hwrite].
    rewrite is_dir_child. apply bool_decide_eq_false_2.
    rewrite Hkeep by done. apply Hno. }
  destruct (generate_ico_caught B H (icons ++ ["icon.png"])
              (icons ++ ["icon.ico"]) w1) as (w2' & Hrun2 & Hmatch).
  rewrite Hbody in Hmatch. subst w2'.
  rewrite (bind_ok _ _ _ _ _ Hrun2).
  eexists. split; [reflexivity|]. cbn [fs set_stdout]. rewrite Hfs2. split.
  - apply lookup_insert_eq.
  - intros f Hf1 Hf2 Hf3. rewrite lookup_insert_ne.
    + by apply Hkeep.
    + intros Heq. apply app_inv_head in Heq. congruence.
Qed.

(** X11: a run of generate-icons.py that finds its dependencies, the logo
    and a usable output directory ends normally.  Afterwards every PNG of
    the two size tables is in the icons directory with the pixel size of
    its entry, and [icon.ico] holds a single 16 x 16 frame, whatever
    became of the ICNS step. *)
Theorem generate_icons_full_run w :
  importable H = true ->
  fs w !! svg = Some (File (Svg doc)) ->
  creatable (fs w) icons -> no_subdirectory (fs w) icons ->
  exists w',
    GenerateIcons.run B H root w = (Ok tt, w') /\
    Forall (holds_png (fs w') icons) configured_pngs /\
    exists frame,
      fs w' !! (icons ++ ["icon.ico"]) = Some (File (Ico [frame])) /\
      im_size frame = (16, 16).
Proof.
  intros Himp Hsvg Hmk Hno.
  destruct (main_pngs_run w Himp Hsvg Hmk Hno) as (w1 & Hrun1 & Hready & Hall).
  pose proof Hall as Hall'. rewrite Forall_forall in Hall'.
  destruct (Hall' _ icon_png_configured) as (base & Hpng & Hbase).
  destruct (main_packaging_run w1 base Hready Hpng Hbase)
    as (w2 & Hrun2 & Hico & Hkeep).
  exists w2. split; [|split].
  - unfold GenerateIcons.run, GenerateIcons.import_dependencies.
    rewrite Himp. erewrite bind_ok; [|reflexivity].
    rewrite main_split. by rewrite (bind_ok _ _ _ _ _ Hrun1).
  - pose proof configured_names_not_bundles as Hnames.
    rewrite Forall_forall in Hnames. apply Forall_forall. intros e He.
    destruct (Hnames e He) as (Hn1 & Hn2 & Hn3).
    apply (holds_png_same (fs w1)); [by apply Hkeep|by apply Hall'].
  - eexists. split; [exact Hico|]. reflexivity.
Qed.

End Vector.

Section Procedural.
Context (B : backend) (H : host) (sin_offset : Z -> Z -> Z)
        (root : list string).
Hypothesis Hwrite : forall p, write_error H p = false.

Local Abbreviation icons := (SimpleIconGen.icons_dir root).

Lemma simple_entry entry w :
  0 < entry.1.1.1 ->
  entry.1.1.1 * SimpleIconGen.default_radius_percent < 2 ^ 53 ->
  files_only (fs w) icons ->
  exists w' img,
    SimpleIconGen.generate_entry B H sin_offset root entry w = (Ok tt, w') /\
    files_only (fs w') icons /\
    fs w' = <[icons ++ [entry.1.1.2] := File (Png img)]> (fs w) /\
    im_size img = (entry.1.1.1, entry.1.1.1).
Proof.
  destruct entry as [[[size filename] rounded] descr]. cbn [fst snd].
  intros Hsize Hsmall (Hdir & Hno).
  destruct (generate_entry_run B H sin_offset root size filename rounded descr
              w ltac:(lia) Hsmall (writable_child H _ _ _ Hwrite Hdir Hno))
    as (w' & Hrun & Hfs).
  eexists w', _. split; [exact Hrun|]. split; [|split; [exact Hfs|]].
  - unfold files_only. rewrite Hfs. split.
    + by rewrite is_dir_insert_child.
    + by apply no_subdirectory_insert_file.
  - destruct rounded.
    + rewrite Rounding.rounded_image_size.
      pose proof (VolcanicFacts.volcanic_image_size B sin_offset size) as Hsz.
      unfold im_size in Hsz. congruence.
    + apply VolcanicFacts.volcanic_image_size.
Qed.

Lemma simple_main_pngs_run w :
  creatable (fs w) icons -> no_subdirectory (fs w) icons ->
  exists w',
    simple_main_pngs B H sin_offset root w = (Ok tt, w') /\
    files_only (fs w') icons /\
    Forall (holds_png (fs w') icons) simple_configured_pngs.
Proof.
  intros Hmk Hno. unfold simple_main_pngs.
  erewrite bind_ok; [|reflexivity].
  erewrite bind_ok; [|reflexivity].
  match goal with
  | |- context [bind (Path_mkdir _) _ ?w0] =>
      destruct (Path_mkdir_creatable icons w0 Hmk)
        as (w1 & Hrun1 & Hdir1 & Hsame1)
  end.
  rewrite (bind_ok _ _ _ _ _ Hrun1).
  destruct (for_each_writes icons (fun w => files_only (fs w) icons)
              (fun e : Z * string * bool * string => (e.1.1.1, e.1.1.2))
              (SimpleIconGen.generate_entry B H sin_offset root)
              SimpleIconGen.icon_configs)
    with (w := w1) (done := @nil (Z * string))
    as (w2 & Hloop & Hready & Hall).
  - apply (bool_decide_unpack _). vm_compute. exact I.
  - intros e w' Hin Hw'. apply simple_entry; [| |done].
    + apply (proj1 (Forall_forall _ _) icon_configs_positive _ Hin).
    + apply (proj1 (Forall_forall _ _) icon_configs_small _ Hin).
  - split; [done|]. intros f. rewrite Hsame1; [apply Hno|].
    intros Heq. symmetry in Heq. by apply (child_ne_self icons f).
  - constructor.
  - intros e d _ Hd. by apply elem_of_nil in Hd.
  - by exists w2.
Qed.

Lemma simple_names_not_ico :
  Forall (fun e : Z * string => e.2 <> "icon.ico") simple_configured_pngs.
Proof. repeat constructor; discriminate. Qed.

(** X12: a run of simple-icon-gen.py with a usable output directory ends
    normally, needing no source file at all.  Afterwards every PNG of
    [icon_configs] is in the icons directory with the pixel size of its
    entry, and [icon.ico] holds a single 16 x 16 frame. *)
Theorem simple_icon_gen_full_run w :
  creatable (fs w) icons -> no_subdirectory (fs w) icons ->
  exists w',
    SimpleIconGen.main B H sin_offset root w = (Ok tt, w') /\
    Forall (holds_png (fs w') icons) simple_configured_pngs /\
    exists frame,
      fs w' !! (icons ++ ["icon.ico"]) = Some (File (Ico [frame])) /\
      im_size frame = (16, 16).
Proof.
  intros Hmk Hno.
  destruct (simple_main_pngs_run w Hmk Hno) as (w1 & Hrun1 & (Hdir & Hno1) & Hall).
  rewrite simple_main_split, (bind_ok _ _ _ _ _ Hrun1).
  unfold simple_main_packaging.
  erewrite bind_ok; [|reflexivity].
  match goal with
  | |- context [bind (try_except ?body _) _ ?w0] =>
      destruct (simple_generate_ico_writes_one_frame B H sin_offset root w0)
        as (w2 & Hbody & Hfs2);
      [exact (writable_child H _ _ _ Hwrite Hdir Hno1)|];
      destruct (try_except_caught body ico_warning w0
                  (no_exit_simple_generate_ico_body B H sin_offset root))
        as (w2' & Hrun2 & Hmatch)
  end.
  rewrite Hbody in Hmatch. subst w2'.
  unfold ico_warning in Hrun2. rewrite (bind_ok _ _ _ _ _ Hrun2).
  eexists. split; [reflexivity|]. cbn [fs set_stdout]. rewrite Hfs2.
  cbn [fs set_stdout]. split.
  - pose proof simple_names_not_ico as Hnames.
    rewrite Forall_forall in Hnames, Hall. apply Forall_forall. intros e He.
    apply holds_png_insert_other; [|by apply Hall].
    intros Heq. by apply (Hnames e He).
  - eexists. split; [apply lookup_insert_eq|].
    apply VolcanicFacts.volcanic_image_size.
Qed.

End Procedural.

(** *** The ICNS packager *)

Section Iconset.
Context (B : backend) (H : host).
Hypothesis Hwrite : forall p, write_error H p = false.

Lemma Image_resize_sized src size w im :
  heap w !! src = Some im -> 0 < size ->
  exists img,
    Image_resize B src (size, size) w
    = (Ok (fresh (dom (heap w))),
       set_heap (insert (fresh (dom (heap w))) img) w) /\
    im_size img = (size, size).
Proof.
  intros Hsrc Hsize. destruct (decide (im_size im = (size, size))) as [Heq|Hne].
  - exists im. split; [|done]. unfold Image_resize.
    rewrite (bind_ok _ _ _ _ _ (deref_run _ _ _ Hsrc)).
    by rewrite bool_decide_eq_true_2.
  - exists (resized B im size size). split; [|done].
    by apply (Image_resize_run B src (size, size) w im).
Qed.

Lemma stage_entry base_ref base staging out size filename w :
  0 < size -> staging_ready base_ref base staging out w ->
  exists w' img,
    ((resized <- (if size <=? 512
                  then Image_resize B base_ref (size, size)
                  else Image_resize B base_ref (size, size)) ;;
      Image_save_PNG H resized (staging ++ [filename])) w = (Ok tt, w')) /\
    staging_ready base_ref base staging out w' /\
    fs w' = <[staging ++ [filename] := File (Png img)]> (fs w) /\
    im_size img = (size, size).
Proof.
  intros Hsize (Hbase & (Hdir & Hno) & Hout).
  destruct (Image_resize_sized base_ref size w base Hbase Hsize)
    as (img & Hrun & Hsz).
  eexists _, img. split; [|split; [|split; [|exact Hsz]]].
  - destruct (size <=? 512); rewrite (bind_ok _ _ _ _ _ Hrun);
      apply Image_save_PNG_run;
      solve [ cbn [heap set_heap]; apply lookup_insert_eq
            | by apply writable_child ].
  - unfold staging_ready, files_only. cbn [heap fs stdout set_fs set_heap].
    split; [by apply lookup_insert_fresh|]. split; [|done]. split.
    + by rewrite is_dir_insert_child.
    + by apply no_subdirectory_insert_file.
  - reflexivity.
Qed.

Lemma iconset_names_distinct :
  NoDup ((fun e : Z * string => e.2) <$> GenerateIcons.iconset_sizes).
Proof. apply (bool_decide_unpack _). vm_compute. exact I. Qed.

Lemma iconset_sizes_positive :
  Forall (fun e : Z * string => 0 < e.1) GenerateIcons.iconset_sizes.
Proof. repeat constructor. Qed.

(** Filling the staging directory: one PNG per entry of [iconset_sizes],
    each of its entry's size, whatever the size of the master. *)
Lemma icns_stage_run png icns w base :
  fs w !! png = Some (File (Png base)) ->
  creatable (fs w) (GenerateIcons.iconset_dir_of icns) ->
  no_subdirectory (fs w) (GenerateIcons.iconset_dir_of icns) ->
  exists w',
    icns_stage B H png icns w = (Ok tt, w') /\
    fs w' !! GenerateIcons.iconset_dir_of icns = Some Dir /\
    stdout w' = stdout w /\
    Forall (holds_png (fs w') (GenerateIcons.iconset_dir_of icns))
           GenerateIcons.iconset_sizes.
Proof.
  intros Hpng Hmk Hno. unfold icns_stage. cbv zeta.
  set (staging := GenerateIcons.iconset_dir_of icns) in *.
  assert (Hne : png <> staging).
  { intros ->. destruct Hmk as [Hdir|[Hnone _]]; [|congruence].
    unfold staging, GenerateIcons.iconset_dir_of in Hdir, Hpng.
    rewrite is_dir_child in Hdir. apply bool_decide_eq_true_1 in Hdir.
    congruence. }
  destruct (Path_mkdir_creatable staging w Hmk) as (w0 & Hrun0 & Hdir0 & Hsame0).
  rewrite (bind_ok _ _ _ _ _ Hrun0).
  rewrite (bind_ok _ _ _ _ _ (Image_open_run png w0 base
                                ltac:(by rewrite Hsame0))).
  match goal with
  | |- context [for_each _ ?body ?w1] =>
      destruct (for_each_writes staging
                  (staging_ready (fresh (dom (heap w0))) base staging
                                 (stdout w))
                  (fun e : Z * string => e) body GenerateIcons.iconset_sizes)
        with (w := w1) (done := @nil (Z * string))
        as (w2 & Hloop & (Hbase2 & (Hdir2 & Hno2) & Hout2) & Hall)
  end.
  - apply iconset_names_distinct.
  - intros [size filename] w' Hin Hw'. apply stage_entry; [|done].
    apply (proj1 (Forall_forall _ _) iconset_sizes_positive _ Hin).
  - unfold staging_ready, files_only. cbn [heap fs stdout set_heap].
    split; [apply lookup_insert_eq|]. split; [split; [done|]|].
    + intros f. rewrite Hsame0; [apply Hno|].
      intros Heq. symmetry in Heq. by apply (child_ne_self staging f).
    + apply (Path_mkdir_stdout _ _ _ Hrun0).
  - constructor.
  - intros e d _ Hd. by apply elem_of_nil in Hd.
  - exists w2. split; [exact Hloop|]. rewrite list_fmap_id in Hall.
    split; [|done].
    unfold staging, GenerateIcons.iconset_dir_of in Hdir2 |- *.
    rewrite is_dir_child in Hdir2. by apply bool_decide_eq_true_1 in Hdir2.
Qed.

Lemma icns_not_below_staging (icns : list string) :
  icns <> GenerateIcons.iconset_dir_of icns ->
  ~ below (GenerateIcons.iconset_dir_of icns) icns.
Proof.
  intros Hne Hbelow. apply Hne. unfold below in Hbelow.
  destruct Hbelow as [k Hk]. unfold GenerateIcons.iconset_dir_of in *.
  assert (Hlen := f_equal length Hk).
  rewrite !length_app in Hlen. unfold parent in Hlen.
  rewrite length_take in Hlen. cbn [length] in Hlen.
  destruct k; [by rewrite app_nil_r in Hk|]. cbn [length] in Hlen. lia.
Qed.

Lemma iconset_member tree (dir : list string) f img :
  tree !! (dir ++ [f]) = Some (File (Png img)) ->
  (dir ++ [f], img) ∈ iconset_members tree dir.
Proof.
  intros Hf. unfold iconset_members. apply list_elem_of_omap.
  exists (dir ++ [f], File (Png img)). split.
  - by apply elem_of_map_to_list.
  - cbn [fst snd]. by rewrite parent_snoc, bool_decide_eq_true_2.
Qed.

(** X13: on a machine without [iconutil], [generate_icns] still returns
    normally, having printed one warning (the text of the operating
    system's error after the handler's own), and leaves behind a staging
    directory that holds one PNG for every entry of [iconset_sizes], each
    of its entry's size (the 1024 pixel entry included, whatever the size
    of the master). *)
Theorem generate_icns_without_tool_leaves_iconset png icns w base :
  iconutil H = None ->
  fs w !! png = Some (File (Png base)) ->
  creatable (fs w) (GenerateIcons.iconset_dir_of icns) ->
  no_subdirectory (fs w) (GenerateIcons.iconset_dir_of icns) ->
  exists w',
    GenerateIcons.generate_icns B H png icns w = (Ok tt, w') /\
    stdout w'
    = stdout w ++ ["Warning: Could not generate .icns file: "
                   +:+ "[Errno 2] No such file or directory: 'iconutil'"] /\
    Forall (holds_png (fs w') (GenerateIcons.iconset_dir_of icns))
           GenerateIcons.iconset_sizes.
Proof.
  intros Htool Hpng Hmk Hno.
  destruct (icns_stage_run png icns w base Hpng Hmk Hno)
    as (w1 & Hstage & Hdir & Hout & Hall).
  eexists. split.
  - unfold GenerateIcons.generate_icns, try_except.
    rewrite generate_icns_body_split, (bind_ok _ _ _ _ _ Hstage).
    unfold icns_package. cbv zeta.
    erewrite bind_raise;
      [|unfold subprocess_run_iconutil; rewrite Htool; reflexivity].
    reflexivity.
  - cbn [stdout fs set_stdout]. rewrite Hout. split; [reflexivity|done].
Qed.

(** X14: where [iconutil] succeeds, [generate_icns] writes the bundle,
    built from a staging directory that held one PNG for every entry of
    [iconset_sizes], each of its entry's size; the staging directory is
    removed afterwards and one line reports the success. *)
Theorem generate_icns_with_tool_bundles_every_size png icns w base err :
  iconutil H = Some (0, err) ->
  icns <> GenerateIcons.iconset_dir_of icns ->
  fs w !! png = Some (File (Png base)) ->
  creatable (fs w) (GenerateIcons.iconset_dir_of icns) ->
  no_subdirectory (fs w) (GenerateIcons.iconset_dir_of icns) ->
  exists w' members,
    GenerateIcons.generate_icns B H png icns w = (Ok tt, w') /\
    fs w' !! icns = Some (File (Icns members)) /\
    Forall (bundles members (GenerateIcons.iconset_dir_of icns))
           GenerateIcons.iconset_sizes /\
    (forall p, below (GenerateIcons.iconset_dir_of icns) p ->
               fs w' !! p = None) /\
    stdout w' = stdout w ++ ["Generated " +:+ name icns +:+ " successfully"].
Proof.
  intros Htool Hne Hpng Hmk Hno.
  destruct (icns_stage_run png icns w base Hpng Hmk Hno)
    as (w1 & Hstage & Hdir & Hout & Hall).
  eexists _, (iconset_members (fs w1) (GenerateIcons.iconset_dir_of icns)).
  split; [|split; [|split; [|split]]].
  - unfold GenerateIcons.generate_icns, try_except.
    rewrite generate_icns_body_split, (bind_ok _ _ _ _ _ Hstage).
    unfold icns_package. cbv zeta.
    unfold subprocess_run_iconutil. rewrite Htool.
    erewrite bind_ok; [|reflexivity]. cbn [fst snd Z.eqb].
    erewrite bind_ok; [|reflexivity].
    unfold shutil_rmtree. cbn [fs set_fs set_stdout].
    rewrite lookup_insert_ne, Hdir by done.
    reflexivity.
  - cbn [fs set_fs]. apply map_lookup_filter_Some. split.
    + apply lookup_insert_eq.
    + cbn [fst]. by apply icns_not_below_staging.
  - apply Forall_forall. intros e He. rewrite Forall_forall in Hall.
    destruct (Hall e He) as (img & Himg & Hsz).
    exists img. split; [by apply iconset_member|done].
  - intros p Hp. cbn [fs set_fs].
    apply map_lookup_filter_None. right. intros x _. cbn. by intros Hnp.
  - cbn [stdout set_fs set_stdout]. by rewrite Hout.
Qed.

End Iconset.

(** *** Where a run can leave through [sys.exit] *)

#[local] Hint Resolve no_exit_ret no_exit_raise no_exit_index no_exit_print
  no_exit_deref no_exit_alloc no_exit_store no_exit_log_call
  no_exit_write_file no_exit_Path_mkdir no_exit_shutil_rmtree
  no_exit_subprocess_run_iconutil no_exit_Image_open
  no_exit_Image_new no_exit_Image_size no_exit_ImageDraw_Draw no_exit_Draw
  no_exit_Image_paste no_exit_Image_putalpha no_exit_Image_resize
  no_exit_Image_save_PNG no_exit_Image_save_ICO
  no_exit_generate_icns_body no_exit_generate_ico_body
  no_exit_create_volcanic_icon no_exit_simple_generate_ico_body : no_exit.

Lemma no_exit_try_except {A} (body : M A) (handler : exn -> M A) :
  no_exit body -> (forall e, no_exit (handler e)) ->
  no_exit (try_except body handler).
Proof.
  intros Hbody Hhandler w code w'. unfold try_except.
  destruct (body w) as [[a|e|c] w1] eqn:Hrun.
  - discriminate.
  - apply Hhandler.
  - by apply Hbody in Hrun.
Qed.

Lemma no_exit_Image_filter_GaussianBlur B r radius :
  no_exit (Image_filter_GaussianBlur B r radius).
Proof. unfold Image_filter_GaussianBlur. repeat no_exit_step. Qed.

Lemma no_exit_cairosvg_svg2png H p size : no_exit (cairosvg_svg2png H p size).
Proof. unfold cairosvg_svg2png. crush_no_exit. Qed.

Lemma no_exit_Image_open_data_RGBA im : no_exit (Image_open_data_RGBA im).
Proof. unfold Image_open_data_RGBA. repeat no_exit_step. Qed.

#[local] Hint Resolve no_exit_Image_filter_GaussianBlur
  no_exit_cairosvg_svg2png no_exit_Image_open_data_RGBA : no_exit.

Lemma no_exit_create_rounded_icon B r p :
  no_exit (GenerateIcons.create_rounded_icon B r p).
Proof.
  unfold GenerateIcons.create_rounded_icon, Draw_rounded_rectangle.
  repeat no_exit_step.
Qed.

Lemma no_exit_simple_create_rounded_icon B r p :
  no_exit (SimpleIconGen.create_rounded_icon B r p).
Proof.
  unfold SimpleIconGen.create_rounded_icon, Draw_rounded_rectangle.
  repeat no_exit_step.
Qed.

Lemma no_exit_add_shadow_effect B r c o b :
  no_exit (GenerateIcons.add_shadow_effect B r c o b).
Proof. unfold GenerateIcons.add_shadow_effect. repeat no_exit_step. Qed.

#[local] Hint Resolve no_exit_create_rounded_icon
  no_exit_simple_create_rounded_icon no_exit_add_shadow_effect : no_exit.

Lemma no_exit_generate_png_from_svg B H svg size out rounded shadow :
  no_exit (GenerateIcons.generate_png_from_svg B H svg size out rounded shadow).
Proof. unfold GenerateIcons.generate_png_from_svg. repeat no_exit_step. Qed.

Lemma no_exit_generate_entry B H sin_offset root entry :
  no_exit (SimpleIconGen.generate_entry B H sin_offset root entry).
Proof.
  destruct entry as [[[size filename] rounded] descr].
  unfold SimpleIconGen.generate_entry. repeat no_exit_step.
Qed.

Lemma no_exit_generate_icns B H png icns :
  no_exit (GenerateIcons.generate_icns B H png icns).
Proof.
  apply no_exit_try_except; [apply no_exit_generate_icns_body|].
  intros e. apply no_exit_print.
Qed.

Lemma no_exit_generate_ico B H png ico :
  no_exit (GenerateIcons.generate_ico B H png ico).
Proof.
  apply no_exit_try_except; [apply no_exit_generate_ico_body|].
  intros e. apply no_exit_print.
Qed.

#[local] Hint Resolve no_exit_generate_png_from_svg no_exit_generate_entry
  no_exit_generate_icns no_exit_generate_ico : no_exit.

Section Exits.
Context (B : backend) (H : host) (sin_offset : Z -> Z -> Z)
        (root : list string).

Lemma no_exit_simple_main :
  no_exit (SimpleIconGen.main B H sin_offset root).
Proof.
  unfold SimpleIconGen.main. repeat no_exit_step.
  apply no_exit_try_except; [auto with no_exit|].
  intros e. apply no_exit_print.
Qed.

(** X15: simple-icon-gen.py never leaves through [sys.exit]: whatever the
    world, its [main] either returns or ends in an uncaught exception. *)
Theorem simple_icon_gen_never_exits w :
  match (SimpleIconGen.main B H sin_offset root w).1 with
  | Ok _ | Raise _ => True
  | SysExit _ => False
  end.
Proof.
  destruct (SimpleIconGen.main B H sin_offset root w) as [[[]|e|c] w1] eqn:Hrun;
    cbn [fst]; try exact I.
  by apply no_exit_simple_main in Hrun.
Qed.

(** X16: the only [sys.exit] a run of generate-icons.py can reach is the
    one for the missing logo: a run that leaves through [sys.exit] had
    its dependencies, found no file at the logo path, exits with status 1
    and has done nothing but print the error line.  The [sys.exit] of
    the [except ImportError] handler in [main] is never the way out,
    since the module-level imports fail first. *)
Theorem generate_icons_exits_only_for_missing_logo w code w' :
  GenerateIcons.run B H root w = (SysExit code, w') ->
  code = 1 /\ importable H = true /\
  fs w !! GenerateIcons.svg_path root = None /\
  w' = set_stdout (fun out => out ++ ["Error: SVG file not found at "
                                      +:+ path_str (GenerateIcons.svg_path root)])
                  w.
Proof.
  unfold GenerateIcons.run, GenerateIcons.import_dependencies.
  destruct (importable H) eqn:Himp; [|discriminate].
  erewrite bind_ok; [|reflexivity].
  unfold GenerateIcons.main, GenerateIcons.import_dependencies.
  rewrite Himp. erewrite bind_ok; [|reflexivity].
  erewrite bind_ok; [|reflexivity].
  destruct (is_dir (fs w) (GenerateIcons.svg_path root)
            || bool_decide (is_Some (fs w !! GenerateIcons.svg_path root)))
    eqn:Hfound; cbn [negb].
  - intros Hrun. exfalso. revert Hrun.
    erewrite bind_ok; [|reflexivity].
    match goal with
    | |- ?m w = _ -> False => assert (Hne : no_exit m); [|apply Hne]
    end.
    repeat no_exit_step.
    all: try (match goal with |- no_exit (let '(_, _) := ?x in _) => destruct x end).
    all: repeat no_exit_step.
  - intros [= <- <-]. apply orb_false_iff in Hfound as [_ Hfound].
    apply bool_decide_eq_false_1 in Hfound.
    split; [done|]. split; [done|]. split; [|done].
    destruct (fs w !! GenerateIcons.svg_path root); [|done].
    exfalso. apply Hfound. by eexists.
Qed.

Lemma icons_parent :
  parent (GenerateIcons.icons_dir root) = root ++ ["src-tauri"].
Proof.
  unfold GenerateIcons.icons_dir.
  change (root ++ ["src-tauri"; "icons"])
    with (root ++ ["src-tauri"] ++ ["icons"]).
  by rewrite app_assoc, parent_snoc.
Qed.

Lemma dir_error_app tree (done a b : list string) :
  dir_error tree done (a ++ b)
  = match dir_error tree done a with
    | Some cls => Some cls
    | None => dir_error tree (done ++ a) b
    end.
Proof.
  revert done. induction a as [|c a IH]; intros done; cbn [app dir_error].
  - by rewrite app_nil_r.
  - destruct (tree !! (done ++ [c])) as [[|x]|]; [|done..].
    by rewrite IH, <- app_assoc.
Qed.

(** The class of the error for a child of [root ++ [d]] when every
    component of [root] is a directory and [d] is not one. *)
Lemma missing_below tree (d f : string) :
  dir_error tree [] root = None ->
  missing tree (root ++ [d; f])
  = match tree !! (root ++ [d]) with
    | Some (File _) => NotADirectoryError
    | _ => FileNotFoundError
    end.
Proof.
  intros Hroot. unfold missing.
  change (root ++ [d; f]) with (root ++ [d] ++ [f]).
  rewrite app_assoc, parent_snoc, dir_error_app, Hroot.
  cbn [dir_error app]. by destruct (tree !! (root ++ [d])) as [[|x]|].
Qed.

Lemma Path_mkdir_orphan w :
  fs w !! GenerateIcons.icons_dir root = None ->
  dir_error (fs w) [] root = None ->
  fs w !! (root ++ ["src-tauri"]) <> Some Dir ->
  Path_mkdir (GenerateIcons.icons_dir root) w
  = (Raise (os_error
              match fs w !! (root ++ ["src-tauri"]) with
              | Some (File _) => NotADirectoryError
              | _ => FileNotFoundError
              end
              (path_str (GenerateIcons.icons_dir root))), w).
Proof.
  intros Hnone Hroot Hparent. unfold Path_mkdir.
  rewrite icons_parent, Hnone.
  unfold GenerateIcons.icons_dir at 3. rewrite missing_below by done.
  assert (Hsplit : GenerateIcons.icons_dir root
                   = (root ++ ["src-tauri"]) ++ ["icons"])
    by (unfold GenerateIcons.icons_dir; by rewrite <- app_assoc).
  replace (is_dir (fs w) (GenerateIcons.icons_dir root)) with false.
  2: { rewrite Hsplit in Hnone |- *. rewrite is_dir_child.
       symmetry. apply bool_decide_eq_false_2. congruence. }
  replace (is_dir (fs w) (root ++ ["src-tauri"])) with false; [done|].
  rewrite is_dir_child. symmetry. by apply bool_decide_eq_false_2.
Qed.

(** X17: neither script creates the parent of its output directory
    ([mkdir] is called without [parents=True]).  Where the project root
    is a directory, [src-tauri/icons] is absent and [src-tauri] is not a
    directory, both runs end in an uncaught error (exit status 1) with
    nothing written: a [FileNotFoundError] where [src-tauri] is missing,
    a [NotADirectoryError] where it is a regular file.
    simple-icon-gen.py has printed its two banner lines by then;
    generate-icons.py, once it has its dependencies and the logo, has
    printed nothing. *)
Theorem mains_need_parent_of_icons_dir w :
  fs w !! GenerateIcons.icons_dir root = None ->
  dir_error (fs w) [] root = None ->
  fs w !! (root ++ ["src-tauri"]) <> Some Dir ->
  exists cls msg,
    cls = match fs w !! (root ++ ["src-tauri"]) with
          | Some (File _) => NotADirectoryError
          | _ => FileNotFoundError
          end /\
    SimpleIconGen.main B H sin_offset root w
    = (Raise (Exn cls msg),
       set_stdout (fun out => out ++ ["ðŸ”¥ Code Furnace Simple Icon Generator";
                                      String.concat "" (replicate 45 "=")]) w)
    /\ (importable H = true ->
        is_Some (fs w !! GenerateIcons.svg_path root) ->
        GenerateIcons.run B H root w = (Raise (Exn cls msg), w)).
Proof.
  intros Hnone Hroot Hparent. eexists _, _. split; [reflexivity|]. split.
  - unfold SimpleIconGen.main.
    erewrite bind_ok; [|reflexivity].
    erewrite bind_ok; [|reflexivity].
    erewrite bind_raise; [|by apply Path_mkdir_orphan].
    unfold set_stdout, os_error. cbn [heap fs stdout drawlog].
    by rewrite <- app_assoc.
  - intros Himp Hsvg.
    unfold GenerateIcons.run, GenerateIcons.import_dependencies.
    rewrite Himp. erewrite bind_ok; [|reflexivity].
    unfold GenerateIcons.main, GenerateIcons.import_dependencies.
    rewrite Himp. erewrite bind_ok; [|reflexivity].
    erewrite bind_ok; [|reflexivity].
    rewrite (bool_decide_eq_true_2 _ Hsvg), orb_true_r. cbn [negb].
    erewrite bind_ok; [|reflexivity].
    erewrite bind_raise; [|by apply Path_mkdir_orphan]. reflexivity.
Qed.

End Exits.

(** *** The properties at work on the fixture checkouts *)

Lemma no_subdirectory_listed (l : list (list string * node))
  (dir : list string) :
  Forall (fun kv => kv.2 = Dir -> parent kv.1 <> dir) l ->
  no_subdirectory (list_to_map l) dir.
Proof.
  intros Hall f Hf. apply elem_of_list_to_map_2 in Hf.
  rewrite Forall_forall in Hall. apply (Hall _ Hf); [done|].
  cbn [fst]. apply parent_snoc.
Qed.

Ltac listed_files_only :=
  apply no_subdirectory_listed;
  repeat constructor; intros Hd; try discriminate Hd;
  vm_compute; discriminate.

Lemma checkout_icons_files_only :
  no_subdirectory (fs checkout) (GenerateIcons.icons_dir Fixture.root).
Proof. listed_files_only. Qed.

Lemma bare_checkout_icons_files_only :
  no_subdirectory (fs checkout_without_logo)
                  (SimpleIconGen.icons_dir Fixture.root).
Proof. listed_files_only. Qed.

Lemma master_staging_files_only :
  no_subdirectory (fs checkout_with_master)
    (GenerateIcons.iconset_dir_of
       (GenerateIcons.icons_dir Fixture.root ++ ["icon.icns"])).
Proof. listed_files_only. Qed.

Lemma generate_icons_full_run_witness :
  (forall p, write_error bare_host p = false) /\
  importable bare_host = true /\
  fs checkout !! GenerateIcons.svg_path Fixture.root = Some (File (Svg 7)) /\
  creatable (fs checkout) (GenerateIcons.icons_dir Fixture.root) /\
  no_subdirectory (fs checkout) (GenerateIcons.icons_dir Fixture.root) /\
  exists w',
    GenerateIcons.run plain_backend bare_host Fixture.root checkout
    = (Ok tt, w') /\
    Forall (holds_png (fs w') (GenerateIcons.icons_dir Fixture.root))
           configured_pngs /\
    exists frame,
      fs w' !! (GenerateIcons.icons_dir Fixture.root ++ ["icon.ico"])
      = Some (File (Ico [frame])) /\
      im_size frame = (16, 16).
Proof.
  assert (Hw : forall p, write_error bare_host p = false) by reflexivity.
  assert (Hsvg : fs checkout !! GenerateIcons.svg_path Fixture.root
                 = Some (File (Svg 7))) by reflexivity.
  assert (Hmk : creatable (fs checkout) (GenerateIcons.icons_dir Fixture.root))
    by (left; reflexivity).
  split; [exact Hw|]. split; [reflexivity|]. split; [exact Hsvg|].
  split; [exact Hmk|]. split; [exact checkout_icons_files_only|].
  exact (generate_icons_full_run plain_backend bare_host Fixture.root 7%nat
           Hw checkout eq_refl Hsvg Hmk checkout_icons_files_only).
Defined.

Lemma simple_icon_gen_full_run_witness :
  (forall p, write_error plain_host p = false) /\
  creatable (fs checkout_without_logo) (SimpleIconGen.icons_dir Fixture.root) /\
  no_subdirectory (fs checkout_without_logo)
                  (SimpleIconGen.icons_dir Fixture.root) /\
  exists w',
    SimpleIconGen.main plain_backend plain_host (fun _ _ => 0) Fixture.root
      checkout_without_logo = (Ok tt, w') /\
    Forall (holds_png (fs w') (SimpleIconGen.icons_dir Fixture.root))
           simple_configured_pngs /\
    exists frame,
      fs w' !! (SimpleIconGen.icons_dir Fixture.root ++ ["icon.ico"])
      = Some (File (Ico [frame])) /\
      im_size frame = (16, 16).
Proof.
  assert (Hw : forall p, write_error plain_host p = false) by reflexivity.
  assert (Hmk : creatable (fs checkout_without_logo)
                          (SimpleIconGen.icons_dir Fixture.root))
    by (right; split; reflexivity).
  split; [exact Hw|]. split; [exact Hmk|].
  split; [exact bare_checkout_icons_files_only|].
  exact (simple_icon_gen_full_run plain_backend plain_host (fun _ _ => 0)
           Fixture.root Hw checkout_without_logo Hmk
           bare_checkout_icons_files_only).
Defined.

Lemma generate_icns_without_tool_leaves_iconset_witness :
  let icons := GenerateIcons.icons_dir Fixture.root in
  let staging := GenerateIcons.iconset_dir_of (icons ++ ["icon.icns"]) in
  (forall p, write_error bare_host p = false) /\
  iconutil bare_host = None /\
  fs checkout_with_master !! (icons ++ ["icon.png"])
  = Some (File (Png tall_image)) /\
  creatable (fs checkout_with_master) staging /\
  no_subdirectory (fs checkout_with_master) staging /\
  exists w',
    GenerateIcons.generate_icns plain_backend bare_host
      (icons ++ ["icon.png"]) (icons ++ ["icon.icns"]) checkout_with_master
    = (Ok tt, w') /\
    stdout w'
    = stdout checkout_with_master
      ++ ["Warning: Could not generate .icns file: "
          +:+ "[Errno 2] No such file or directory: 'iconutil'"] /\
    Forall (holds_png (fs w') staging) GenerateIcons.iconset_sizes.
Proof.
  intros icons staging.
  assert (Hw : forall p, write_error bare_host p = false) by reflexivity.
  assert (Hpng : fs checkout_with_master !! (icons ++ ["icon.png"])
                 = Some (File (Png tall_image))) by reflexivity.
  assert (Hmk : creatable (fs checkout_with_master) staging)
    by (right; split; reflexivity).
  split; [exact Hw|]. split; [reflexivity|]. split; [exact Hpng|].
  split; [exact Hmk|]. split; [exact master_staging_files_only|].
  exact (generate_icns_without_tool_leaves_iconset plain_backend bare_host Hw
           (icons ++ ["icon.png"]) (icons ++ ["icon.icns"])
           checkout_with_master tall_image eq_refl Hpng Hmk
           master_staging_files_only).
Defined.

Lemma generate_icns_with_tool_bundles_every_size_witness :
  let icons := GenerateIcons.icons_dir Fixture.root in
  let staging := GenerateIcons.iconset_dir_of (icons ++ ["icon.icns"]) in
  (forall p, write_error plain_host p = false) /\
  iconutil plain_host = Some (0, "") /\
  icons ++ ["icon.icns"] <> staging /\
  fs checkout_with_master !! (icons ++ ["icon.png"])
  = Some (File (Png tall_image)) /\
  creatable (fs checkout_with_master) staging /\
  no_subdirectory (fs checkout_with_master) staging /\
  exists w' members,
    GenerateIcons.generate_icns plain_backend plain_host
      (icons ++ ["icon.png"]) (icons ++ ["icon.icns"]) checkout_with_master
    = (Ok tt, w') /\
    fs w' !! (icons ++ ["icon.icns"]) = Some (File (Icns members)) /\
    Forall (bundles members staging) GenerateIcons.iconset_sizes /\
    (forall p, below staging p -> fs w' !! p = None) /\
    stdout w'
    = stdout checkout_with_master
      ++ ["Generated " +:+ name (icons ++ ["icon.icns"]) +:+ " successfully"].
Proof.
  intros icons staging.
  assert (Hw : forall p, write_error plain_host p = false) by reflexivity.
  assert (Hne : icons ++ ["icon.icns"] <> staging) by (vm_compute; discriminate).
  assert (Hpng : fs checkout_with_master !! (icons ++ ["icon.png"])
                 = Some (File (Png tall_image))) by reflexivity.
  assert (Hmk : creatable (fs checkout_with_master) staging)
    by (right; split; reflexivity).
  split; [exact Hw|]. split; [reflexivity|]. split; [exact Hne|].
  split; [exact Hpng|]. split; [exact Hmk|].
  split; [exact master_staging_files_only|].
  exact (generate_icns_with_tool_bundles_every_size plain_backend plain_host
           Hw (icons ++ ["icon.png"]) (icons ++ ["icon.icns"])
           checkout_with_master tall_image "" eq_refl Hne Hpng Hmk
           master_staging_files_only).
Defined.

Lemma generate_icons_exits_only_for_missing_logo_witness :
  let line := "Error: SVG file not found at "
              +:+ path_str (GenerateIcons.svg_path Fixture.root) in
  let w' := set_stdout (fun out => out ++ [line]) checkout_without_logo in
  GenerateIcons.run plain_backend plain_host Fixture.root checkout_without_logo
  = (SysExit 1, w') /\
  (1 = 1 /\ importable plain_host = true /\
   fs checkout_without_logo !! GenerateIcons.svg_path Fixture.root = None /\
   w' = w').
Proof.
  intros line w'.
  assert (Hrun : GenerateIcons.run plain_backend plain_host Fixture.root
                   checkout_without_logo = (SysExit 1, w')) by reflexivity.
  split; [exact Hrun|].
  exact (generate_icons_exits_only_for_missing_logo plain_backend plain_host
           Fixture.root checkout_without_logo 1 w' Hrun).
Defined.

Lemma mains_need_parent_of_icons_dir_witness :
  fs only_root !! GenerateIcons.icons_dir Fixture.root = None /\
  dir_error (fs only_root) [] Fixture.root = None /\
  fs only_root !! (Fixture.root ++ ["src-tauri"]) <> Some Dir /\
  exists msg,
    (SimpleIconGen.main plain_backend plain_host (fun _ _ => 0) Fixture.root
       only_root).1
    = Raise (Exn FileNotFoundError msg).
Proof.
  assert (Hnone : fs only_root !! GenerateIcons.icons_dir Fixture.root = None)
    by reflexivity.
  assert (Hroot : dir_error (fs only_root) [] Fixture.root = None)
    by reflexivity.
  assert (Hparent : fs only_root !! (Fixture.root ++ ["src-tauri"])
                    <> Some Dir) by (vm_compute; discriminate).
  split; [exact Hnone|]. split; [exact Hroot|]. split; [exact Hparent|].
  destruct (mains_need_parent_of_icons_dir plain_backend plain_host
              (fun _ _ => 0) Fixture.root only_root Hnone Hroot Hparent)
    as (cls & msg & Hcls & Hrun & _).
  exists msg. rewrite Hrun. cbn [fst]. by rewrite Hcls.
Defined.

End WholeRuns.
